(** * Anywhere Network Extension: key schedule, packet parsers and GeoIP lookup

    A shallow embedding of the C sources

    - [Crypto/CTLSKeyDerivation.c]  (TLS 1.3 key schedule, RFC 8446 section 7.1),
    - [Packet/CPacket.c]            (TLS record utilities, DNS faking, ServerHello),
    - [GeoIP/CGeoIP.c]              (binary search in the GEO1 table),

    and the properties stated about them.

    Conventions of the embedding.

    - A C buffer [(const uint8_t *p, size_t n)] is a [list byte]; [n] is the
      length of the list.  Every access goes through [rd], [slice] and
      [store], which answer [OutOfBounds] when an index leaves the buffer.
    - [uint8_t], [uint16_t], [uint32_t] and [int] values are integers of [Z]
      with the reduction written at every conversion ([to_u8], [to_u16],
      [to_u32], [to_int]).  [int] is 32 bits wide and [int] arithmetic wraps.
      [size_t] and [ssize_t] are 64 bits wide; a buffer that exists in
      memory has fewer than [2^63] bytes and no offset below exceeds the
      buffer length by more than [2^17], so [size_t] sums are plain sums.
    - A [while] loop is a [Fixpoint] on a fuel counter; [NoFuel] is the
      answer of a loop that was not given enough of it.  Each function
      passes a fuel that is shown to suffice. *)

From Stdlib Require Import ZArith List Lia Bool String Ascii.
From Stdlib Require Import Strings.Byte.
Import ListNotations.
Local Open Scope Z_scope.

(* ================================================================== *)
(** ** Machine integers and checked buffers *)
(* ================================================================== *)

Module Mem.

(** Value of a [uint8_t]. *)
Definition u8 (b : byte) : Z := Z.of_N (Byte.to_N b).

(** Conversion to [uint8_t]: the low eight bits. *)
Definition to_u8 (z : Z) : byte :=
  match Byte.of_N (Z.to_N (z mod 256)) with
  | Some b => b
  | None => x00
  end.

Definition to_u16 (z : Z) : Z := z mod 65536.
Definition to_u32 (z : Z) : Z := z mod 4294967296.

(** Conversion to [int] (32 bits, two's complement). *)
Definition INT_MAX : Z := 2147483647.
Definition to_int (z : Z) : Z := (z + 2147483648) mod 4294967296 - 2147483648.

(** [((uint16_t)hi << 8) | lo] *)
Definition be16 (hi lo : byte) : Z :=
  Z.lor (to_u16 (Z.shiftl (u8 hi) 8)) (u8 lo).

(** [(uint32_t)a << 24 | (uint32_t)b << 16 | (uint32_t)c << 8 | d] *)
Definition be32 (a b c d : byte) : Z :=
  Z.lor (Z.lor (Z.lor (to_u32 (Z.shiftl (u8 a) 24))
                      (to_u32 (Z.shiftl (u8 b) 16)))
               (to_u32 (Z.shiftl (u8 c) 8)))
        (u8 d).

Definition len (l : list byte) : Z := Z.of_nat (List.length l).

(** Result of running a piece of code on checked buffers. *)
Inductive outcome (A : Type) : Type :=
| Ret (a : A)
| OutOfBounds
| NoFuel.
Arguments Ret {A} a.
Arguments OutOfBounds {A}.
Arguments NoFuel {A}.

Definition bind {A B : Type} (c : outcome A) (k : A -> outcome B) : outcome B :=
  match c with
  | Ret a => k a
  | OutOfBounds => OutOfBounds
  | NoFuel => NoFuel
  end.

(** [p[i]] *)
Definition rd (p : list byte) (i : Z) : outcome byte :=
  if (0 <=? i) && (i <? len p)
  then Ret (nth (Z.to_nat i) p x00)
  else OutOfBounds.

(** The [n] bytes [p[off] .. p[off+n-1]], as read by [memcpy(_, p + off, n)]. *)
Definition slice (p : list byte) (off n : Z) : outcome (list byte) :=
  if (0 <=? off) && (0 <=? n) && (off + n <=? len p)
  then Ret (firstn (Z.to_nat n) (skipn (Z.to_nat off) p))
  else OutOfBounds.

(** [memcpy(p + off, src, |src|)] *)
Definition store (p : list byte) (off : Z) (src : list byte) : outcome (list byte) :=
  if (0 <=? off) && (off + len src <=? len p)
  then Ret (firstn (Z.to_nat off) p ++ src ++ skipn (Z.to_nat (off + len src)) p)
  else OutOfBounds.

(** [p[i] = b] *)
Definition wr (p : list byte) (i : Z) (b : byte) : outcome (list byte) :=
  store p i [b].

End Mem.
Export Mem.

Declare Scope outcome_scope.
Delimit Scope outcome_scope with outcome.
Notation "x <- c ;; k" := (bind c (fun x => k))
  (at level 61, c at next level, right associativity) : outcome_scope.
Notation "' p <- c ;; k" := (bind c (fun x => let 'p := x in k))
  (at level 61, p pattern, c at next level, right associativity) : outcome_scope.
Local Open Scope outcome_scope.

(* ================================================================== *)
(** ** Crypto/CTLSKeyDerivation.c : suite parameters *)
(* ================================================================== *)

Module Suite.

Definition TLS_AES_128_GCM_SHA256 : Z := 0x1301.
Definition TLS_AES_256_GCM_SHA384 : Z := 0x1302.

(** The two CommonCrypto HMAC algorithms the file selects. *)
Inductive CCHmacAlgorithm : Type :=
| kCCHmacAlgSHA256
| kCCHmacAlgSHA384.

Definition CC_SHA256_DIGEST_LENGTH : Z := 32.
Definition CC_SHA384_DIGEST_LENGTH : Z := 48.

(** [get_suite_params(cs, &alg, &hash_len, &key_len)]: the three values
    stored through the pointers. *)
Definition get_suite_params (cs : Z) : CCHmacAlgorithm * Z * Z :=
  if cs =? TLS_AES_256_GCM_SHA384
  then (kCCHmacAlgSHA384, CC_SHA384_DIGEST_LENGTH, 32)
  else (kCCHmacAlgSHA256, CC_SHA256_DIGEST_LENGTH, 16).

End Suite.
Export Suite.

(* ================================================================== *)
(** ** Packet/CPacket.c : TLS utilities *)
(* ================================================================== *)

Module Tls.

(** [parse_tls_header]: [None] is the return value 0 ("need more data"),
    [Some (contentType, recordLen)] the return value 1 with the two outputs. *)
Definition parse_tls_header (buffer : list byte) : outcome (option (byte * Z)) :=
  if len buffer <? 5 then Ret None
  else
    b0 <- rd buffer 0 ;;
    b3 <- rd buffer 3 ;;
    b4 <- rd buffer 4 ;;
    Ret (Some (b0, be16 b3 b4)).

(** The loop [while (i >= 0 && data[i] == 0) i--;] *)
Fixpoint scan_zeros (fuel : nat) (data : list byte) (i : Z) : outcome Z :=
  if 0 <=? i then
    b <- rd data i ;;
    if u8 b =? 0 then
      match fuel with
      | O => NoFuel
      | S fuel' => scan_zeros fuel' data (i - 1)
      end
    else Ret i
  else Ret i.

(** [find_tls13_content_end]: the returned [ssize_t] and the byte stored
    through [outContentType], if one was stored. *)
Definition find_tls13_content_end (data : list byte) : outcome (Z * option byte) :=
  let length := len data in
  if length =? 0 then Ret (-1, None)
  else
    let i := length - 1 in
    (* fast path: the last byte *)
    fast <- (if 8 <=? length then
               e <- rd data (length - 1) ;;
               if negb (u8 e =? 0) then Ret (Some e) else Ret None
             else Ret None) ;;
    match fast with
    | Some e => Ret (length - 1, Some e)
    | None =>
        i <- scan_zeros (Z.to_nat length) data i ;;
        if i <? 0 then Ret (-1, None)
        else
          ct <- rd data i ;;
          Ret (i, Some ct)
    end.

(** [tls13_unwrap_content] *)
Definition tls13_unwrap_content (data : list byte) : outcome (Z * option byte) :=
  if len data =? 0 then Ret (-1, None)
  else
    '(contentEnd, ct) <- find_tls13_content_end data ;;
    if contentEnd <? 0 then Ret (-1, ct)
    else Ret (contentEnd, ct).

(** The plain backward scan of the specification: walk from the last byte
    towards the first and stop at the first byte that is not zero. *)
Fixpoint backward_scan_from (rev_data : list byte) (i : Z) : option (Z * byte) :=
  match rev_data with
  | [] => None
  | b :: rest =>
      if Byte.eqb b x00 then backward_scan_from rest (i - 1)
      else Some (i, b)
  end.

Definition backward_scan (data : list byte) : option (Z * byte) :=
  backward_scan_from (rev data) (len data - 1).

(** The answer of the specification's scan in the shape of the C results. *)
Definition scan_result (r : option (Z * byte)) : Z * option byte :=
  match r with
  | Some (i, ct) => (i, Some ct)
  | None => (-1, None)
  end.

(** [nonce[i] ^= (uint8_t)v] *)
Definition xor_byte (nonce : list byte) (i : Z) (v : Z) : outcome (list byte) :=
  b <- rd nonce i ;;
  wr nonce i (to_u8 (Z.lxor (u8 b) (u8 (to_u8 v)))).

(** [xor_nonce_with_seq(nonce, seqNum)]: the nonce after the call.
    [seqNum] is a [uint64_t]. *)
Definition xor_nonce_with_seq (nonce : list byte) (seqNum : Z) : outcome (list byte) :=
  nonce <- xor_byte nonce 4 (Z.shiftr seqNum 56) ;;
  nonce <- xor_byte nonce 5 (Z.shiftr seqNum 48) ;;
  nonce <- xor_byte nonce 6 (Z.shiftr seqNum 40) ;;
  nonce <- xor_byte nonce 7 (Z.shiftr seqNum 32) ;;
  nonce <- xor_byte nonce 8 (Z.shiftr seqNum 24) ;;
  nonce <- xor_byte nonce 9 (Z.shiftr seqNum 16) ;;
  nonce <- xor_byte nonce 10 (Z.shiftr seqNum 8) ;;
  xor_byte nonce 11 seqNum.

(** [copy_payload(dst, src, length)]: [dst] after the call. *)
Definition copy_payload (dst src : list byte) (length : Z) : outcome (list byte) :=
  bytes <- slice src 0 length ;;
  store dst 0 bytes.

(** [frame_udp_payload(out, payload, len)]: [out] after the call.  The
    [uint16_t len] is [plen] here. *)
Definition frame_udp_payload (out payload : list byte) (plen : Z) : outcome (list byte) :=
  out <- wr out 0 (to_u8 (Z.shiftr plen 8)) ;;
  out <- wr out 1 (to_u8 (Z.land plen 0xFF)) ;;
  bytes <- slice payload 0 plen ;;
  store out 2 bytes.

End Tls.
Export Tls.

(* ================================================================== *)
(** ** Packet/CPacket.c : DNS query parsing and response generation *)
(* ================================================================== *)

Module Dns.

(** What [parse_dns_query_ext] leaves behind: the returned [int], the
    caller's [outDomain] buffer, [*outDomainLen], and [*outQType] when it
    was stored. *)
Record query_result : Type := mk_query_result {
  q_ret : Z;
  q_outDomain : list byte;
  q_outDomainLen : Z;
  q_outQType : option Z
}.

(** The ASCII dot. *)
Definition dot : byte := x2e.

(** The code after the QNAME loop of [parse_dns_query_ext]. *)
Definition finish_query (data outDomain : list byte)
    (outDomainLen offset domainPos : Z) : outcome query_result :=
  if domainPos =? 0 then Ret (mk_query_result 0 outDomain outDomainLen None)
  else
    outDomain <- wr outDomain domainPos x00 ;;
    let outDomainLen := domainPos in
    if offset + 2 >? len data
    then Ret (mk_query_result 0 outDomain outDomainLen None)
    else
      h <- rd data offset ;;
      l <- rd data (offset + 1) ;;
      Ret (mk_query_result 1 outDomain outDomainLen (Some (be16 h l))).

(** The QNAME loop of [parse_dns_query_ext], with the code that follows it
    at its two exits. *)
Fixpoint qname_loop (fuel : nat) (data outDomain : list byte)
    (outDomainLen capacity offset domainPos : Z) : outcome query_result :=
  if offset <? len data then
    match fuel with
    | O => NoFuel
    | S fuel' =>
        b <- rd data offset ;;
        let labelLen := u8 b in
        let offset := offset + 1 in
        if labelLen =? 0
        then finish_query data outDomain outDomainLen offset domainPos
        else if negb (Z.land labelLen 0xC0 =? 0)
        then Ret (mk_query_result 0 outDomain outDomainLen None)
        else if offset + labelLen >? len data
        then Ret (mk_query_result 0 outDomain outDomainLen None)
        else if (0 <? domainPos) && (domainPos >=? capacity)
        then Ret (mk_query_result 0 outDomain outDomainLen None)
        else
          '(outDomain, domainPos) <-
             (if 0 <? domainPos
              then o <- wr outDomain domainPos dot ;; Ret (o, domainPos + 1)
              else Ret (outDomain, domainPos)) ;;
          if domainPos + labelLen >? capacity
          then Ret (mk_query_result 0 outDomain outDomainLen None)
          else
            label <- slice data offset labelLen ;;
            outDomain <- store outDomain domainPos label ;;
            qname_loop fuel' data outDomain outDomainLen capacity
                       (offset + labelLen) (domainPos + labelLen)
    end
  else finish_query data outDomain outDomainLen offset domainPos.

(** [parse_dns_query_ext(data, len, outDomain, outDomainLen, outQType)];
    the incoming [*outDomainLen] is the length of the [outDomain] buffer. *)
Definition parse_dns_query_ext (data outDomain : list byte) : outcome query_result :=
  let outDomainLen := len outDomain in
  if (len data <? 12) || (outDomainLen =? 0)
  then Ret (mk_query_result 0 outDomain outDomainLen None)
  else
    h <- rd data 4 ;;
    l <- rd data 5 ;;
    let qdcount := be16 h l in
    if qdcount =? 0 then Ret (mk_query_result 0 outDomain outDomainLen None)
    else
      let capacity := outDomainLen - 1 in
      qname_loop (List.length data) data outDomain outDomainLen capacity 12 0.

(** [parse_dns_query]: the same with the query type dropped. *)
Definition parse_dns_query (data outDomain : list byte) : outcome (Z * list byte * Z) :=
  r <- parse_dns_query_ext data outDomain ;;
  Ret (q_ret r, q_outDomain r, q_outDomainLen r).

(** The QNAME loop of [generate_dns_response]; the result is [offset] at
    the exit of the loop. *)
Fixpoint skip_qname (fuel : nat) (queryData : list byte) (offset : Z) : outcome Z :=
  if offset <? len queryData then
    match fuel with
    | O => NoFuel
    | S fuel' =>
        b <- rd queryData offset ;;
        let labelLen := u8 b in
        let offset := offset + 1 in
        if labelLen =? 0 then Ret offset
        else if negb (Z.land labelLen 0xC0 =? 0) then Ret offset
        else skip_qname fuel' queryData (offset + labelLen)
    end
  else Ret offset.

(** [generate_dns_response(queryData, queryLen, fakeIP, qtype, outBuf,
    outBufSize)]: the returned [int] and the output buffer.  [fakeIP] is
    [None] for the null pointer and otherwise the bytes found at the
    pointer; [outBufSize] is the length of [outBuf]. *)
Definition generate_dns_response (queryData : list byte) (fakeIP : option (list byte))
    (qtype : Z) (outBuf : list byte) : outcome (Z * list byte) :=
  let queryLen := len queryData in
  let outBufSize := len outBuf in
  if queryLen <? 12 then Ret (0, outBuf)
  else
    offset <- skip_qname (List.length queryData) queryData 12 ;;
    let offset := offset + 4 in
    if offset >? queryLen then Ret (0, outBuf)
    else
      let questionEnd := offset in
      let '(rdLength, ansType) :=
        match fakeIP with
        | Some _ =>
            if qtype =? 1 then (4, 1)
            else if qtype =? 28 then (16, 28)
            else (0, 0)
        | None => (0, 0)
        end in
      if 0 <? rdLength then
        let answerRecLen := 12 + rdLength in
        let responseLen := questionEnd + answerRecLen in
        if outBufSize <? responseLen then Ret (0, outBuf)
        else
          question <- slice queryData 0 questionEnd ;;
          outBuf <- store outBuf 0 question ;;
          outBuf <- wr outBuf 2 x85 ;;
          outBuf <- wr outBuf 3 x80 ;;
          outBuf <- wr outBuf 6 x00 ;;
          outBuf <- wr outBuf 7 x01 ;;
          outBuf <- wr outBuf 8 x00 ;;
          outBuf <- wr outBuf 9 x00 ;;
          outBuf <- wr outBuf 10 x00 ;;
          outBuf <- wr outBuf 11 x00 ;;
          let ans := questionEnd in
          outBuf <- wr outBuf (ans + 0) xc0 ;;
          outBuf <- wr outBuf (ans + 1) x0c ;;
          outBuf <- wr outBuf (ans + 2) (to_u8 (Z.shiftr ansType 8)) ;;
          outBuf <- wr outBuf (ans + 3) (to_u8 (Z.land ansType 0xFF)) ;;
          outBuf <- wr outBuf (ans + 4) x00 ;;
          outBuf <- wr outBuf (ans + 5) x01 ;;
          outBuf <- wr outBuf (ans + 6) x00 ;;
          outBuf <- wr outBuf (ans + 7) x00 ;;
          outBuf <- wr outBuf (ans + 8) x00 ;;
          outBuf <- wr outBuf (ans + 9) x01 ;;
          outBuf <- wr outBuf (ans + 10) (to_u8 (Z.shiftr rdLength 8)) ;;
          outBuf <- wr outBuf (ans + 11) (to_u8 (Z.land rdLength 0xFF)) ;;
          rdata <- slice (match fakeIP with Some p => p | None => [] end) 0 rdLength ;;
          outBuf <- store outBuf (ans + 12) rdata ;;
          Ret (to_int responseLen, outBuf)
      else
        if outBufSize <? questionEnd then Ret (0, outBuf)
        else
          question <- slice queryData 0 questionEnd ;;
          outBuf <- store outBuf 0 question ;;
          outBuf <- wr outBuf 2 x85 ;;
          outBuf <- wr outBuf 3 x80 ;;
          outBuf <- wr outBuf 6 x00 ;;
          outBuf <- wr outBuf 7 x00 ;;
          outBuf <- wr outBuf 8 x00 ;;
          outBuf <- wr outBuf 9 x00 ;;
          outBuf <- wr outBuf 10 x00 ;;
          outBuf <- wr outBuf 11 x00 ;;
          Ret (to_int questionEnd, outBuf).

(** The text a QNAME stands for: its labels joined by dots. *)
Fixpoint join_labels (labels : list (list byte)) : list byte :=
  match labels with
  | [] => []
  | [l] => l
  | l :: rest => l ++ dot :: join_labels rest
  end.

(** The wire form of a QNAME: each label behind its length byte, then the
    zero-length label. *)
Fixpoint encode_qname (labels : list (list byte)) : list byte :=
  match labels with
  | [] => [x00]
  | l :: rest => to_u8 (len l) :: l ++ encode_qname rest
  end.

(** The labels of a QNAME without the zero-length label that ends it. *)
Definition encode_labels (labels : list (list byte)) : list byte :=
  flat_map (fun l => to_u8 (len l) :: l) labels.

(** A label that a query may carry: 1 to 63 bytes. *)
Definition label_ok (l : list byte) : Prop := 1 <= len l <= 63.

(** The query for [example.com], type A, class IN. *)
Definition example_query : list byte :=
  [x12; x34; x01; x00; x00; x01; x00; x00; x00; x00; x00; x00;
   x07; x65; x78; x61; x6d; x70; x6c; x65; x03; x63; x6f; x6d; x00;
   x00; x01; x00; x01].

(** A query whose QNAME is the lone compression pointer [C0 0C],
    followed by QTYPE and QCLASS. *)
Definition pointer_query : list byte :=
  [x12; x34; x01; x00; x00; x01; x00; x00; x00; x00; x00; x00;
   xc0; x0c; x00; x01; x00; x01].

(** The contract of [fakeIP]: when present it holds the 4 bytes of an A
    answer or the 16 bytes of an AAAA answer, as the query type asks. *)
Definition fake_ip_fits (fakeIP : option (list byte)) (qtype : Z) : Prop :=
  match fakeIP with
  | None => True
  | Some p => (qtype = 1 -> 4 <= len p) /\ (qtype = 28 -> 16 <= len p)
  end.

(** An IPv4 address for an A answer. *)
Definition example_fake_ip : list byte := [x5d; xb8; xd8; x22].

End Dns.
Export Dns.

(* ================================================================== *)
(** ** Packet/CPacket.c : ServerHello parsing *)
(* ================================================================== *)

Module ServerHello.

(** What [parse_server_hello] leaves behind: the returned [int],
    [*outCipherSuite] when it was stored, and the 32 bytes copied to
    [outKeyShare] when they were. *)
Record sh_result : Type := mk_sh_result {
  sh_ret : Z;
  sh_outCipherSuite : option Z;
  sh_outKeyShare : option (list byte)
}.

(** The extension walk [while (shOffset + 4 <= extEnd)], followed by the
    [break] and [return 0] that end the function when the walk finds
    nothing. *)
Fixpoint walk_extensions (fuel : nat) (data : list byte) (cs : option Z)
    (shOffset extEnd : Z) : outcome sh_result :=
  if shOffset + 4 <=? extEnd then
    match fuel with
    | O => NoFuel
    | S fuel' =>
        t0 <- rd data shOffset ;;
        t1 <- rd data (shOffset + 1) ;;
        l0 <- rd data (shOffset + 2) ;;
        l1 <- rd data (shOffset + 3) ;;
        let extType := be16 t0 t1 in
        let extDataLen := be16 l0 l1 in
        let shOffset := shOffset + 4 in
        if extType =? 0x0033 then
          if shOffset + 4 >? len data then Ret (mk_sh_result 0 cs None)
          else
            g0 <- rd data shOffset ;;
            g1 <- rd data (shOffset + 1) ;;
            k0 <- rd data (shOffset + 2) ;;
            k1 <- rd data (shOffset + 3) ;;
            let group := be16 g0 g1 in
            let keyLen := be16 k0 k1 in
            let shOffset := shOffset + 4 in
            if (group =? 0x001d) && (keyLen =? 32) then
              if shOffset + 32 >? len data then Ret (mk_sh_result 0 cs None)
              else
                key <- slice data shOffset 32 ;;
                Ret (mk_sh_result 1 cs (Some key))
            else walk_extensions fuel' data cs (shOffset + extDataLen) extEnd
        else walk_extensions fuel' data cs (shOffset + extDataLen) extEnd
    end
  else Ret (mk_sh_result 0 cs None).

(** The body of the record loop once the handshake type is ServerHello;
    [offset] is the start of the handshake message. *)
Definition server_hello_body (data : list byte) (offset : Z) : outcome sh_result :=
  let shOffset := offset + 1 + 3 + 2 + 32 in
  if shOffset >=? len data then Ret (mk_sh_result 0 None None)
  else
    s <- rd data shOffset ;;
    let sessionIdLen := u8 s in
    let shOffset := shOffset + (1 + sessionIdLen) in
    if shOffset + 2 >? len data then Ret (mk_sh_result 0 None None)
    else
      c0 <- rd data shOffset ;;
      c1 <- rd data (shOffset + 1) ;;
      let outCipherSuite := Some (be16 c0 c1) in
      let shOffset := shOffset + 3 in
      if shOffset + 2 >? len data then Ret (mk_sh_result 0 outCipherSuite None)
      else
        e0 <- rd data shOffset ;;
        e1 <- rd data (shOffset + 1) ;;
        let extLen := be16 e0 e1 in
        let shOffset := shOffset + 2 in
        let extEnd := shOffset + extLen in
        if extEnd >? len data then Ret (mk_sh_result 0 outCipherSuite None)
        else walk_extensions (List.length data) data outCipherSuite shOffset extEnd.

(** The record loop [while (offset + 5 < len)]. *)
Fixpoint record_loop (fuel : nat) (data : list byte) (offset : Z) : outcome sh_result :=
  if offset + 5 <? len data then
    match fuel with
    | O => NoFuel
    | S fuel' =>
        contentType <- rd data offset ;;
        if negb (u8 contentType =? 0x16) then Ret (mk_sh_result 0 None None)
        else
          r3 <- rd data (offset + 3) ;;
          r4 <- rd data (offset + 4) ;;
          let recordLen := be16 r3 r4 in
          let offset := offset + 5 in
          if offset + recordLen >? len data then Ret (mk_sh_result 0 None None)
          else
            h <- rd data offset ;;
            if negb (u8 h =? 0x02)
            then record_loop fuel' data (offset + recordLen)
            else server_hello_body data offset
    end
  else Ret (mk_sh_result 0 None None).

(** [parse_server_hello(data, len, outKeyShare, outCipherSuite)] *)
Definition parse_server_hello (data : list byte) : outcome sh_result :=
  record_loop (List.length data) data 0.

(** *** Wire forms used to state what the parser accepts *)

(** The two bytes of a 16-bit value, high byte first. *)
Definition enc16 (v : Z) : list byte := [to_u8 (Z.shiftr v 8); to_u8 v].

(** A TLS record: content type, two version bytes, length, body. *)
Definition tls_record (contentType v1 v2 : byte) (body : list byte) : list byte :=
  contentType :: v1 :: v2 :: enc16 (len body) ++ body.

(** An extension: type, length, data. *)
Definition extension (extType : Z) (extData : list byte) : list byte :=
  enc16 extType ++ enc16 (len extData) ++ extData.

(** The data of a [key_share] extension of a ServerHello for X25519. *)
Definition x25519_share (key : list byte) : list byte :=
  enc16 0x001d ++ enc16 32 ++ key.

(** A ServerHello handshake message.  [hsLen] are the three length bytes,
    [version] the two version bytes and [random] the 32 random bytes; none
    of them is looked at by the parser. *)
Definition server_hello (hsLen version random sessionId : list byte)
    (cipherSuite : Z) (compression : byte) (extensions : list byte) : list byte :=
  x02 :: hsLen ++ version ++ random
      ++ to_u8 (len sessionId) :: sessionId
      ++ enc16 cipherSuite ++ compression :: enc16 (len extensions) ++ extensions.

(** An extension the walk passes over: any type but [key_share]. *)
Definition other_extension (e : Z * list byte) : Prop :=
  0 <= fst e < 65536 /\ fst e <> 0x0033 /\ len (snd e) < 65536.

Definition extensions (es : list (Z * list byte)) : list byte :=
  flat_map (fun e => extension (fst e) (snd e)) es.

(** A Handshake record the record loop passes over: its body starts with
    a handshake type other than ServerHello. *)
Definition passed_record (r : byte * byte * list byte) : Prop :=
  let '(_, _, body) := r in
  1 <= len body < 65536 /\ hd x00 body <> x02.

Definition handshake_records (rs : list (byte * byte * list byte)) : list byte :=
  flat_map (fun r => let '(v1, v2, body) := r in tls_record x16 v1 v2 body) rs.

(** The key share 01 02 ... 20 of the examples. *)
Definition example_key : list byte := map (fun n => to_u8 (Z.of_nat n)) (seq 1 32).

(** A ServerHello for suite 0x1302 with a supported_versions extension
    before its X25519 key share. *)
Definition example_hello : list byte :=
  server_hello [x00; x00; x56] [x03; x03] (repeat x11 32) [] 0x1302 x00
    (extensions [(0x002b, [x03; x04])] ++ extension 0x0033 (x25519_share example_key) ++ []).

(** A ChangeCipherSpec record (content type 0x14). *)
Definition change_cipher_spec : list byte := tls_record x14 x03 x03 [x01].

(** The data of a [key_share] extension for the group secp256r1, with a
    65-byte key. *)
Definition p256_share : list byte := enc16 0x0017 ++ enc16 65 ++ repeat x04 65.

(** A ServerHello for suite 0x1302 with the given extensions. *)
Definition hello_with (exts : list byte) : list byte :=
  server_hello [x00; x00; x00] [x03; x03] (repeat x11 32) [] 0x1302 x00 exts.

(** A ServerHello whose handshake length is [ff ff ff] and whose
    [key_share] extension announces [ffff] bytes of data. *)
Definition overlong_hello : list byte :=
  server_hello [xff; xff; xff] [x03; x03] (repeat x11 32) [] 0x1302 x00
    (enc16 0x0033 ++ enc16 0xffff ++ x25519_share example_key).


End ServerHello.
Export ServerHello.

(* ================================================================== *)
(** ** DNS messages on the wire *)
(* ================================================================== *)

Module DnsWire.

(** A query: the 12-byte header, the QNAME, QTYPE and QCLASS, and
    whatever follows the question. *)
Definition dns_query (header : list byte) (labels : list (list byte))
    (qtype qclass : Z) (rest : list byte) : list byte :=
  header ++ encode_qname labels ++ enc16 qtype ++ enc16 qclass ++ rest.

(** The header of the responses: the ID and QDCOUNT of the query, the
    flags [0x8580], the given ANCOUNT, and NSCOUNT and ARCOUNT zero. *)
Definition response_header (header : list byte) (ancount : byte) : list byte :=
  firstn 2 header ++ [x85; x80] ++ firstn 2 (skipn 4 header)
    ++ [x00; ancount; x00; x00; x00; x00].

(** The answer record of the responses: a pointer to the QNAME at offset
    12, TYPE, CLASS IN, TTL 1, RDLENGTH and RDATA. *)
Definition answer_record (ansType : Z) (rdata : list byte) : list byte :=
  [xc0; x0c] ++ enc16 ansType ++ [x00; x01] ++ [x00; x00; x00; x01]
    ++ enc16 (len rdata) ++ rdata.

End DnsWire.
Export DnsWire.

(* ================================================================== *)
(** ** GeoIP/CGeoIP.c : lookup in the GEO1 table *)
(* ================================================================== *)

Module GeoIP.

Section Lookup.

(** [inet_pton(AF_INET, ip_str, &addr)] of the C library: [Some] of the
    four bytes stored in [addr.s_addr] (network order) when it returns 1,
    [None] otherwise. *)
Variable inet_pton : string -> option (byte * byte * byte * byte).

(** [ntohl(addr.s_addr)] *)
Definition ntohl (addr : byte * byte * byte * byte) : Z :=
  let '(a, b, c, d) := addr in be32 a b c d.

(** The binary search loop [while (lo <= hi)]; the result is [best] at the
    exit.  [lo], [hi], [mid] and [best] are [int]s, and [entries + mid * 10]
    is the byte offset [8 + mid * 10] of the table. *)
Fixpoint search (fuel : nat) (db : list byte) (ip lo hi best : Z) : outcome Z :=
  if lo <=? hi then
    match fuel with
    | O => NoFuel
    | S fuel' =>
        let mid := to_int (lo + Z.quot (to_int (hi - lo)) 2) in
        let e := 8 + to_int (mid * 10) in
        e0 <- rd db e ;;
        e1 <- rd db (e + 1) ;;
        e2 <- rd db (e + 2) ;;
        e3 <- rd db (e + 3) ;;
        let startIP := be32 e0 e1 e2 e3 in
        if startIP <=? ip
        then search fuel' db ip (to_int (mid + 1)) hi mid
        else search fuel' db ip lo (to_int (mid - 1)) best
    end
  else Ret best.

(** [geoip_lookup(db, db_len, ip_str)]; [None] stands for a null pointer. *)
Definition geoip_lookup (db : option (list byte)) (ip_str : option string) : outcome Z :=
  match db, ip_str with
  | Some db, Some ip_str =>
      if len db <? 8 then Ret 0
      else
        m0 <- rd db 0 ;;
        if negb (Byte.eqb m0 x47) then Ret 0 else
        m1 <- rd db 1 ;;
        if negb (Byte.eqb m1 x45) then Ret 0 else
        m2 <- rd db 2 ;;
        if negb (Byte.eqb m2 x4f) then Ret 0 else
        m3 <- rd db 3 ;;
        if negb (Byte.eqb m3 x31) then Ret 0 else
        c0 <- rd db 4 ;;
        c1 <- rd db 5 ;;
        c2 <- rd db 6 ;;
        c3 <- rd db 7 ;;
        let count := be32 c0 c1 c2 c3 in
        if len db <? 8 + count * 10 then Ret 0
        else
          match inet_pton ip_str with
          | None => Ret 0
          | Some addr =>
              let ip := ntohl addr in
              let lo := 0 in
              let hi := to_int (to_int count - 1) in
              best <- search (Z.to_nat (hi + 1)) db ip lo hi (-1) ;;
              if best <? 0 then Ret 0
              else
                let e := 8 + to_int (best * 10) in
                e4 <- rd db (e + 4) ;;
                e5 <- rd db (e + 5) ;;
                e6 <- rd db (e + 6) ;;
                e7 <- rd db (e + 7) ;;
                let endIP := be32 e4 e5 e6 e7 in
                if ip >? endIP then Ret 0
                else
                  e8 <- rd db (e + 8) ;;
                  e9 <- rd db (e + 9) ;;
                  Ret (be16 e8 e9)
          end
  | _, _ => Ret 0
  end.

End Lookup.

(** *** The table as the file format describes it *)

(** The byte at index [i] of the blob. *)
Definition byte_at (db : list byte) (i : Z) : byte := nth (Z.to_nat i) db x00.

(** The entry count: the big-endian [u32] at offset 4. *)
Definition db_count (db : list byte) : Z :=
  be32 (byte_at db 4) (byte_at db 5) (byte_at db 6) (byte_at db 7).

(** The three fields of entry [k]. *)
Definition entry_start (db : list byte) (k : Z) : Z :=
  let e := 8 + k * 10 in
  be32 (byte_at db e) (byte_at db (e + 1)) (byte_at db (e + 2)) (byte_at db (e + 3)).

Definition entry_end (db : list byte) (k : Z) : Z :=
  let e := 8 + k * 10 in
  be32 (byte_at db (e + 4)) (byte_at db (e + 5)) (byte_at db (e + 6)) (byte_at db (e + 7)).

Definition entry_code (db : list byte) (k : Z) : Z :=
  let e := 8 + k * 10 in
  be16 (byte_at db (e + 8)) (byte_at db (e + 9)).

(** The magic bytes ["GEO1"]. *)
Definition magic : list byte := [x47; x45; x4f; x31].

Definition has_magic (db : list byte) : Prop := firstn 4 db = magic.

(** The blob holds the [count] entries it announces. *)
Definition holds_entries (db : list byte) : Prop :=
  8 + db_count db * 10 <= len db.

(** Entries ascend by [startIP]. *)
Definition sorted_by_start (db : list byte) : Prop :=
  forall i j, 0 <= i -> i < j -> j < db_count db ->
    entry_start db i <= entry_start db j.

(** Ranges do not overlap: a range ends before a later one starts. *)
Definition non_overlapping (db : list byte) : Prop :=
  forall i j, 0 <= i -> i < j -> j < db_count db ->
    entry_end db i < entry_start db j.

(** Entry [k] covers the address [ip]. *)
Definition covers (db : list byte) (k ip : Z) : Prop :=
  0 <= k < db_count db /\ entry_start db k <= ip <= entry_end db k.

(** The four bytes of a 32-bit value, high byte first. *)
Definition enc32 (v : Z) : list byte :=
  [to_u8 (Z.shiftr v 24); to_u8 (Z.shiftr v 16); to_u8 (Z.shiftr v 8); to_u8 v].

(** One table entry on the wire. *)
Definition encode_entry (e : Z * Z * Z) : list byte :=
  let '(startIP, endIP, code) := e in
  enc32 startIP ++ enc32 endIP ++ [to_u8 (Z.shiftr code 8); to_u8 code].

(** A blob built from a list of entries [(startIP, endIP, countryCode)]. *)
Definition encode_db (entries : list (Z * Z * Z)) : list byte :=
  magic ++ enc32 (Z.of_nat (List.length entries)) ++ flat_map encode_entry entries.

(** *** A dotted-quad reader

    Written after the [inet_pton4] of the BSD C library: decimal octets
    without a leading zero, each at most 255, exactly four of them,
    separated by single dots. *)

Definition digit_of (c : ascii) : option Z :=
  let n := Z.of_nat (nat_of_ascii c) in
  if (48 <=? n) && (n <=? 57) then Some (n - 48) else None.

(** [tmp] holds the octets finished so far, [cur] the octet being read. *)
Fixpoint pton_loop (src : string) (saw_digit : bool) (octets : Z)
    (tmp : list Z) (cur : Z) : option (list Z) :=
  match src with
  | EmptyString => if octets <? 4 then None else Some (tmp ++ [cur])
  | String ch rest =>
      match digit_of ch with
      | Some d =>
          let new := cur * 10 + d in
          if saw_digit && (cur =? 0) then None
          else if new >? 255 then None
          else if negb saw_digit && (octets + 1 >? 4) then None
          else pton_loop rest true (if saw_digit then octets else octets + 1) tmp new
      | None =>
          if Ascii.eqb ch "."%char && saw_digit then
            if octets =? 4 then None
            else pton_loop rest false octets (tmp ++ [cur]) 0
          else None
      end
  end.

Definition inet_pton4 (src : string) : option (byte * byte * byte * byte) :=
  match pton_loop src false 0 [] 0 with
  | Some [a; b; c; d] => Some (to_u8 a, to_u8 b, to_u8 c, to_u8 d)
  | _ => None
  end.

(** The table of the specification's boundary example. *)
Definition boundary_db : list byte :=
  encode_db [(1, 10, 0x4141); (11, 20, 0x4242); (100, 200, 0x4343)].

(** A table of [n] entries; entry [k] is the range from [k] to [k] with
    the code ["AA"]. *)
Definition diagonal_db (n : nat) : list byte :=
  encode_db (map (fun k => (Z.of_nat k, Z.of_nat k, 0x4141)) (seq 0 n)).

(** A table of 2^31 + 1 entries (some 21 GB). *)
Definition huge_db : list byte := diagonal_db (Z.to_nat 2147483649).


End GeoIP.
Export GeoIP.

(* ================================================================== *)
(** ** Crypto/CTLSKeyDerivation.c : HKDF and the handshake key schedule *)
(* ================================================================== *)

Module KeySchedule.

(** [(p, n)]: the first [n] bytes found at [p]. *)
Definition buf (p : list byte) (n : Z) : list byte := firstn (Z.to_nat n) p.

(** Conversion to [CC_LONG], CommonCrypto's length type ([uint32_t]). *)
Definition to_CC_LONG (n : Z) : Z := to_u32 n.

(** The digest length of each algorithm. *)
Definition digest_len (alg : CCHmacAlgorithm) : Z :=
  match alg with
  | kCCHmacAlgSHA256 => CC_SHA256_DIGEST_LENGTH
  | kCCHmacAlgSHA384 => CC_SHA384_DIGEST_LENGTH
  end.

(** The bytes of a C string literal. *)
Definition cstr (s : string) : list byte := list_byte_of_string s.

Section Primitives.

(** The CommonCrypto primitives.  [CCHmac alg key data] is the MAC that
    [CCHmac(alg, key, keyLength, data, dataLength, macOut)] stores,
    [CC_SHA256 data] and [CC_SHA384 data] the digests that
    [CC_SHA256(data, len, md)] and [CC_SHA384(data, len, md)] store, [data]
    being the [len] bytes they read. *)
Variable CCHmac : CCHmacAlgorithm -> list byte -> list byte -> list byte.
Variable CC_SHA256 : list byte -> list byte.
Variable CC_SHA384 : list byte -> list byte.

(** The streaming interface: a context collects the key and the data, and
    [CCHmacFinal] is [CCHmac] of what was collected. *)
Record CCHmacContext : Type := mk_ctx {
  ctx_alg : CCHmacAlgorithm;
  ctx_key : list byte;
  ctx_data : list byte
}.

Definition CCHmacInit (alg : CCHmacAlgorithm) (key : list byte) : CCHmacContext :=
  mk_ctx alg key [].

Definition CCHmacUpdate (ctx : CCHmacContext) (data : list byte) : CCHmacContext :=
  mk_ctx (ctx_alg ctx) (ctx_key ctx) (ctx_data ctx ++ data).

Definition CCHmacFinal (ctx : CCHmacContext) : list byte :=
  CCHmac (ctx_alg ctx) (ctx_key ctx) (ctx_data ctx).

(** [sha_hash(cs, data, len, out)]: the length goes through [(CC_LONG)len]. *)
Definition sha_hash (cs : Z) (data : list byte) : list byte :=
  if cs =? TLS_AES_256_GCM_SHA384 then
    CC_SHA384 (buf data (to_CC_LONG (len data)))
  else
    CC_SHA256 (buf data (to_CC_LONG (len data))).

(** [hkdf_extract(alg, hash_len, salt, salt_len, ikm, ikm_len, prk)] *)
Definition hkdf_extract (alg : CCHmacAlgorithm) (hash_len : Z)
    (salt ikm : list byte) : list byte :=
  if len salt =? 0 then
    let zero_salt := repeat x00 48 in
    CCHmac alg (buf zero_salt hash_len) ikm
  else CCHmac alg salt ikm.

(** The loop of [hkdf_expand].  [out] holds the [offset] bytes written so
    far: [memcpy(out + offset, t, to_copy)] appends to it.  [counter] is a
    [uint8_t]; [offset], [length], [t_len] and [to_copy] are [int]s. *)
Fixpoint hkdf_expand_loop (fuel : nat) (alg : CCHmacAlgorithm) (hash_len : Z)
    (prk info : list byte) (length : Z)
    (t : list byte) (t_len offset : Z) (counter : byte) (out : list byte)
    : outcome (list byte) :=
  if offset <? length then
    match fuel with
    | O => NoFuel
    | S fuel' =>
        let ctx := CCHmacInit alg prk in
        let ctx := if 0 <? t_len then CCHmacUpdate ctx (buf t t_len) else ctx in
        let ctx := CCHmacUpdate ctx info in
        let ctx := CCHmacUpdate ctx [counter] in
        let t := CCHmacFinal ctx in
        let t_len := hash_len in
        let to_copy :=
          if to_int (offset + hash_len) >? length
          then to_int (length - offset)
          else hash_len in
        let out := out ++ buf t to_copy in
        hkdf_expand_loop fuel' alg hash_len prk info length
                         t t_len (to_int (offset + to_copy))
                         (to_u8 (u8 counter + 1)) out
    end
  else Ret out.

(** [hkdf_expand(alg, hash_len, prk, prk_len, info, info_len, out, length)]:
    the [length] bytes stored to [out]. *)
Definition hkdf_expand (alg : CCHmacAlgorithm) (hash_len : Z)
    (prk info : list byte) (length : Z) : outcome (list byte) :=
  hkdf_expand_loop (Z.to_nat length) alg hash_len prk info length [] 0 0 x01 [].

(** [hkdf_expand_label(alg, hash_len, secret, secret_len, label, context,
    context_len, out, length)].  [info] is the 256-byte array of the
    function; a store past its end is [OutOfBounds]. *)
Definition hkdf_expand_label (alg : CCHmacAlgorithm) (hash_len : Z)
    (secret : list byte) (label : string) (context : list byte) (length : Z)
    : outcome (list byte) :=
  let info := repeat x00 256 in
  let info_len := 0 in
  let label_len := len (cstr label) in
  let full_label_len := to_int (6 + to_int label_len) in
  info <- wr info info_len (to_u8 (Z.shiftr length 8)) ;;
  let info_len := info_len + 1 in
  info <- wr info info_len (to_u8 (Z.land length 0xFF)) ;;
  let info_len := info_len + 1 in
  info <- wr info info_len (to_u8 full_label_len) ;;
  let info_len := info_len + 1 in
  info <- store info info_len (cstr "tls13 ") ;;
  let info_len := info_len + 6 in
  info <- store info info_len (cstr label) ;;
  let info_len := info_len + to_int label_len in
  info <- wr info info_len (to_u8 (len context)) ;;
  let info_len := info_len + 1 in
  '(info, info_len) <-
     (if 0 <? len context
      then i <- store info info_len context ;; Ret (i, info_len + to_int (len context))
      else Ret (info, info_len)) ;;
  hkdf_expand alg hash_len secret (buf info info_len) length.

(** [derive_secret(cs, alg, hash_len, secret, secret_len, label, messages,
    messages_len, out)] *)
Definition derive_secret (cs : Z) (alg : CCHmacAlgorithm) (hash_len : Z)
    (secret : list byte) (label : string) (messages : list byte)
    : outcome (list byte) :=
  let hash := sha_hash cs messages in
  hkdf_expand_label alg hash_len secret label (buf hash hash_len) hash_len.

(** The six output buffers of [tls13_derive_handshake_keys] and its
    return value. *)
Record handshake_keys : Type := mk_handshake_keys {
  hk_ret : Z;
  out_hs_secret : list byte;
  out_client_key : list byte;
  out_client_iv : list byte;
  out_server_key : list byte;
  out_server_iv : list byte;
  out_client_traffic_secret : list byte
}.

(** [tls13_derive_handshake_keys] *)
Definition tls13_derive_handshake_keys (cipher_suite : Z)
    (shared_secret transcript : list byte) : outcome handshake_keys :=
  let '(alg, hash_len, key_len) := get_suite_params cipher_suite in
  let zero_ikm := repeat x00 48 in
  let early_secret := hkdf_extract alg hash_len [] (buf zero_ikm hash_len) in
  derived_early <- derive_secret cipher_suite alg hash_len
                     (buf early_secret hash_len) "derived" [] ;;
  let out_hs_secret := hkdf_extract alg hash_len (buf derived_early hash_len)
                         shared_secret in
  out_client_traffic_secret <- derive_secret cipher_suite alg hash_len
                     (buf out_hs_secret hash_len) "c hs traffic" transcript ;;
  out_client_key <- hkdf_expand_label alg hash_len
                     (buf out_client_traffic_secret hash_len) "key" [] key_len ;;
  out_client_iv <- hkdf_expand_label alg hash_len
                     (buf out_client_traffic_secret hash_len) "iv" [] 12 ;;
  server_hts <- derive_secret cipher_suite alg hash_len
                     (buf out_hs_secret hash_len) "s hs traffic" transcript ;;
  out_server_key <- hkdf_expand_label alg hash_len
                     (buf server_hts hash_len) "key" [] key_len ;;
  out_server_iv <- hkdf_expand_label alg hash_len
                     (buf server_hts hash_len) "iv" [] 12 ;;
  Ret (mk_handshake_keys 0 out_hs_secret out_client_key out_client_iv
         out_server_key out_server_iv out_client_traffic_secret).

(** The four output buffers of [tls13_derive_application_keys] and its
    return value. *)
Record application_keys : Type := mk_application_keys {
  ak_ret : Z;
  ak_client_key : list byte;
  ak_client_iv : list byte;
  ak_server_key : list byte;
  ak_server_iv : list byte
}.

(** [tls13_derive_application_keys] *)
Definition tls13_derive_application_keys (cipher_suite : Z)
    (hs_secret transcript : list byte) : outcome application_keys :=
  let '(alg, hash_len, key_len) := get_suite_params cipher_suite in
  let zero_ikm := repeat x00 48 in
  derived_hs <- derive_secret cipher_suite alg hash_len hs_secret "derived" [] ;;
  let master_secret := hkdf_extract alg hash_len (buf derived_hs hash_len)
                         (buf zero_ikm hash_len) in
  client_ats <- derive_secret cipher_suite alg hash_len
                  (buf master_secret hash_len) "c ap traffic" transcript ;;
  out_client_key <- hkdf_expand_label alg hash_len
                      (buf client_ats hash_len) "key" [] key_len ;;
  out_client_iv <- hkdf_expand_label alg hash_len
                      (buf client_ats hash_len) "iv" [] 12 ;;
  server_ats <- derive_secret cipher_suite alg hash_len
                  (buf master_secret hash_len) "s ap traffic" transcript ;;
  out_server_key <- hkdf_expand_label alg hash_len
                      (buf server_ats hash_len) "key" [] key_len ;;
  out_server_iv <- hkdf_expand_label alg hash_len
                      (buf server_ats hash_len) "iv" [] 12 ;;
  Ret (mk_application_keys 0 out_client_key out_client_iv
         out_server_key out_server_iv).

(** [tls13_compute_finished]: the return value and [out_verify_data]. *)
Definition tls13_compute_finished (cipher_suite : Z)
    (client_traffic_secret transcript : list byte) : outcome (Z * list byte) :=
  let '(alg, hash_len, key_len) := get_suite_params cipher_suite in
  finished_key <- hkdf_expand_label alg hash_len client_traffic_secret
                    "finished" [] hash_len ;;
  let th := sha_hash cipher_suite transcript in
  let out_verify_data := CCHmac alg (buf finished_key hash_len) (buf th hash_len) in
  Ret (0, out_verify_data).

(** [tls13_transcript_hash]: the return value and [out_hash]. *)
Definition tls13_transcript_hash (cipher_suite : Z) (messages : list byte)
    : Z * list byte :=
  (0, sha_hash cipher_suite messages).

(** *** The key schedule as the specification words it *)

(** [HKDF-Extract(salt, ikm)]: HMAC keyed by the salt, an empty salt being
    [hashLength] zero bytes. *)
Definition HKDF_Extract (alg : CCHmacAlgorithm) (hashLength : nat)
    (salt ikm : list byte) : list byte :=
  match salt with
  | [] => CCHmac alg (repeat x00 hashLength) ikm
  | _ => CCHmac alg salt ikm
  end.

(** [T(i) = HMAC(prk, T(i-1) || info || i)], [T(0)] empty. *)
Fixpoint T (alg : CCHmacAlgorithm) (prk info : list byte) (i : nat) : list byte :=
  match i with
  | O => []
  | S j => CCHmac alg prk (T alg prk info j ++ info ++ [to_u8 (Z.of_nat i)])
  end.

(** [T(1) || T(2) || ... || T(n)] *)
Fixpoint T_concat (alg : CCHmacAlgorithm) (prk info : list byte) (n : nat) : list byte :=
  match n with
  | O => []
  | S m => T_concat alg prk info m ++ T alg prk info n
  end.

(** [HKDF-Expand(prk, info, L)]: the blocks [T(1) .. T(N)] concatenated
    and truncated to [L] bytes, [N] being [L / hashLength] rounded up. *)
Definition blocks (hashLength L : nat) : nat :=
  Nat.div (L + hashLength - 1) hashLength.

Definition HKDF_Expand (alg : CCHmacAlgorithm) (hashLength : nat)
    (prk info : list byte) (L : nat) : list byte :=
  firstn L (T_concat alg prk info (blocks hashLength L)).

(** [info = length(u16 BE) || len("tls13 "+label)(u8) || "tls13 "+label ||
    len(context)(u8) || context] *)
Definition label_info (label : string) (context : list byte) (L : nat) : list byte :=
  let full := cstr "tls13 " ++ cstr label in
  enc16 (Z.of_nat L) ++ [to_u8 (len full)] ++ full ++ [to_u8 (len context)] ++ context.

Definition HKDF_Expand_Label (alg : CCHmacAlgorithm) (hashLength : nat)
    (secret : list byte) (label : string) (context : list byte) (L : nat)
    : list byte :=
  HKDF_Expand alg hashLength secret (label_info label context L) L.

Definition Hash (alg : CCHmacAlgorithm) (messages : list byte) : list byte :=
  match alg with
  | kCCHmacAlgSHA256 => CC_SHA256 messages
  | kCCHmacAlgSHA384 => CC_SHA384 messages
  end.

(** [Derive-Secret(secret, label, messages)] *)
Definition Derive_Secret (alg : CCHmacAlgorithm) (hashLength : nat)
    (secret : list byte) (label : string) (messages : list byte) : list byte :=
  HKDF_Expand_Label alg hashLength secret label (Hash alg messages) hashLength.

(** The pipeline of [DeriveHandshakeKeys]. *)
Definition DeriveHandshakeKeys (alg : CCHmacAlgorithm) (hashLength keyLength : nat)
    (sharedSecret transcript : list byte) : handshake_keys :=
  let earlySecret := HKDF_Extract alg hashLength [] (repeat x00 hashLength) in
  let derivedEarly := Derive_Secret alg hashLength earlySecret "derived" [] in
  let handshakeSecret := HKDF_Extract alg hashLength derivedEarly sharedSecret in
  let cHS := Derive_Secret alg hashLength handshakeSecret "c hs traffic" transcript in
  let sHS := Derive_Secret alg hashLength handshakeSecret "s hs traffic" transcript in
  mk_handshake_keys 0 handshakeSecret
    (HKDF_Expand_Label alg hashLength cHS "key" [] keyLength)
    (HKDF_Expand_Label alg hashLength cHS "iv" [] 12)
    (HKDF_Expand_Label alg hashLength sHS "key" [] keyLength)
    (HKDF_Expand_Label alg hashLength sHS "iv" [] 12)
    cHS.

End Primitives.

(** *** Stand-ins for the primitives, to run the schedule on examples

    Not cryptographic: a digest of the right length that depends on every
    input byte and on the position of each. *)

Fixpoint toy_mix (acc : Z) (data : list byte) : Z :=
  match data with
  | [] => acc
  | b :: rest => toy_mix ((acc * 31 + u8 b + 7) mod 65521) rest
  end.

Fixpoint toy_stream (n : nat) (seed : Z) : list byte :=
  match n with
  | O => []
  | S m => to_u8 seed :: toy_stream m ((seed * 75 + 74) mod 65537)
  end.

Definition toy_sha256 (data : list byte) : list byte :=
  toy_stream 32 (toy_mix 1 data).

Definition toy_sha384 (data : list byte) : list byte :=
  toy_stream 48 (toy_mix 2 data).

Definition toy_hmac (alg : CCHmacAlgorithm) (key data : list byte) : list byte :=
  toy_stream (Z.to_nat (digest_len alg)) (toy_mix (toy_mix 3 key) data).

(** A digest stand-in that reads the length of the message only, enough to
    tell a message from a shorter one. *)
Definition length_sha (n : nat) (data : list byte) : list byte :=
  toy_stream n (len data).

(** A transcript of [2^32] bytes. *)
Definition long_transcript : list byte := repeat x00 (Z.to_nat 4294967296).

End KeySchedule.
Export KeySchedule.

(* ================================================================== *)
(** * Properties *)
(* ================================================================== *)

(** ** Bytes, integers and buffers *)

Section MemFacts.

Lemma u8_range (b : byte) : 0 <= u8 b <= 255.
Proof.
  unfold u8. pose proof (Byte.to_N_bounded b). lia.
Qed.

Lemma u8_to_u8 (z : Z) : u8 (to_u8 z) = z mod 256.
Proof.
  unfold to_u8, u8.
  pose proof (Z.mod_pos_bound z 256 ltac:(lia)) as Hm.
  destruct (Byte.of_N (Z.to_N (z mod 256))) eqn:E.
  - apply Byte.to_of_N in E. rewrite E. apply Z2N.id. lia.
  - apply Byte.of_N_None_iff in E. lia.
Qed.

Lemma to_u8_u8 (b : byte) : to_u8 (u8 b) = b.
Proof.
  unfold to_u8, u8.
  pose proof (Byte.to_N_bounded b).
  rewrite Z.mod_small by lia.
  rewrite N2Z.id, Byte.of_to_N. reflexivity.
Qed.

Lemma u8_inj (a b : byte) : u8 a = u8 b -> a = b.
Proof.
  intros H. rewrite <- (to_u8_u8 a), <- (to_u8_u8 b), H. reflexivity.
Qed.

Lemma u8_small (z : Z) : 0 <= z <= 255 -> u8 (to_u8 z) = z.
Proof.
  intros H. rewrite u8_to_u8. apply Z.mod_small. lia.
Qed.

Lemma u8_zero (b : byte) : u8 b = 0 <-> b = x00.
Proof.
  split; intros H.
  - apply u8_inj. rewrite H. reflexivity.
  - subst b. reflexivity.
Qed.

Lemma eqb_u8 (a b : byte) : Byte.eqb a b = (u8 a =? u8 b).
Proof.
  destruct (Byte.eqb a b) eqn:E.
  - apply Byte.byte_dec_bl in E. subst. symmetry. apply Z.eqb_refl.
  - symmetry. apply Z.eqb_neq. intros H. apply u8_inj in H.
    apply Byte.byte_dec_lb in H. congruence.
Qed.

Lemma len_nonneg (p : list byte) : 0 <= len p.
Proof. unfold len. lia. Qed.

Lemma len_nil : len [] = 0.
Proof. reflexivity. Qed.

Lemma len_cons (b : byte) (p : list byte) : len (b :: p) = 1 + len p.
Proof. unfold len. cbn [List.length]. lia. Qed.

Lemma len_app (p q : list byte) : len (p ++ q) = len p + len q.
Proof. unfold len. rewrite length_app. lia. Qed.

Lemma len_repeat (b : byte) (n : nat) : len (repeat b n) = Z.of_nat n.
Proof. unfold len. rewrite repeat_length. reflexivity. Qed.

Lemma len_zero (p : list byte) : len p = 0 -> p = [].
Proof. destruct p; [reflexivity | rewrite len_cons; pose proof (len_nonneg p); lia]. Qed.

Lemma rd_in (p : list byte) (i : Z) :
  0 <= i < len p -> rd p i = Ret (nth (Z.to_nat i) p x00).
Proof.
  intros H. unfold rd.
  destruct (0 <=? i) eqn:A; [|lia]. destruct (i <? len p) eqn:B; [|lia].
  reflexivity.
Qed.

Lemma rd_out (p : list byte) (i : Z) :
  ~ (0 <= i < len p) -> rd p i = OutOfBounds.
Proof.
  intros H. unfold rd.
  destruct (0 <=? i) eqn:A; [|reflexivity].
  destruct (i <? len p) eqn:B; [lia|reflexivity].
Qed.

(** The byte just behind a prefix. *)
Lemma rd_middle (p q : list byte) (b : byte) :
  rd (p ++ b :: q) (len p) = Ret b.
Proof.
  rewrite rd_in.
  - unfold len. rewrite Nat2Z.id, nth_middle. reflexivity.
  - rewrite len_app, len_cons. pose proof (len_nonneg p). pose proof (len_nonneg q). lia.
Qed.

(** Reading behind a prefix is reading the rest. *)
Lemma rd_app_r (p q : list byte) (i : Z) :
  0 <= i -> rd (p ++ q) (len p + i) = rd q i.
Proof.
  intros Hi. unfold rd. rewrite len_app.
  pose proof (len_nonneg p) as Hp.
  replace (0 <=? len p + i) with true by lia.
  replace (0 <=? i) with true by lia.
  replace (len p + i <? len p + len q) with (i <? len q) by lia.
  cbn [andb]. destruct (i <? len q); [|reflexivity].
  f_equal. rewrite app_nth2; unfold len in *; [f_equal|]; lia.
Qed.

(** Reading inside a prefix ignores what follows. *)
Lemma rd_app_l (p q : list byte) (i : Z) :
  0 <= i < len p -> rd (p ++ q) i = rd p i.
Proof.
  intros Hi. rewrite !rd_in; [|lia|rewrite len_app; pose proof (len_nonneg q); lia].
  f_equal. apply app_nth1. unfold len in *. lia.
Qed.

End MemFacts.

(** ** The suite-parameter resolver *)

(** C1, as the code has it: identifier 0x1302 yields the SHA-384
    parameters (hash length 48, key length 32), and every other
    identifier, 0x1301 among them, yields the SHA-256 parameters (hash
    length 32, key length 16). *)
Theorem get_suite_params_by_suite :
  get_suite_params 0x1302 = (kCCHmacAlgSHA384, 48, 32) /\
  get_suite_params 0x1301 = (kCCHmacAlgSHA256, 32, 16) /\
  forall cs : Z, cs <> 0x1302 -> get_suite_params cs = (kCCHmacAlgSHA256, 32, 16).
Proof.
  repeat split.
  intros cs Hcs. unfold get_suite_params, TLS_AES_256_GCM_SHA384.
  destruct (cs =? 0x1302) eqn:E; [apply Z.eqb_eq in E; contradiction | reflexivity].
Qed.

(** The amended C1 at the identifiers 0x1303 and 0. *)
Lemma get_suite_params_by_suite_witness :
  get_suite_params 0x1303 = (kCCHmacAlgSHA256, 32, 16) /\
  get_suite_params 0 = (kCCHmacAlgSHA256, 32, 16).
Proof.
  split; apply (proj2 (proj2 get_suite_params_by_suite)); discriminate.
Defined.

(** C1 as stated fails: 0x1303 is an identifier other than 0x1301, and it
    does not yield the SHA-384 parameters. *)
Lemma get_suite_params_other_not_sha384 :
  0x1303 <> 0x1301 /\
  get_suite_params 0x1303 <> (kCCHmacAlgSHA384, 48, 32).
Proof.
  split; discriminate.
Qed.

(** ** The inner-plaintext scan *)

Section ContentEnd.

(** What the specification's scan finds in the bytes [l], read backwards. *)
Lemma backward_scan_from_found (l : list byte) (j : Z) (b : byte) :
  backward_scan_from (rev l) (len l - 1) = Some (j, b) ->
  0 <= j < len l /\ nth (Z.to_nat j) l x00 = b /\ b <> x00.
Proof.
  induction l as [|c l IH] using rev_ind; intros H.
  - discriminate.
  - rewrite rev_app_distr in H. cbn [rev app backward_scan_from] in H.
    rewrite len_app, len_cons, len_nil in *.
    pose proof (len_nonneg l) as Hl.
    destruct (Byte.eqb c x00) eqn:E.
    + replace (len l + (1 + 0) - 1 - 1) with (len l - 1) in H by lia.
      destruct (IH H) as (Hj & Hn & Hb). repeat split; try lia; [|exact Hb].
      rewrite app_nth1; [exact Hn | unfold len in *; lia].
    + injection H as <- <-. repeat split; try lia.
      * match goal with |- nth ?k _ _ = _ =>
          replace k with (List.length l) by (unfold len; lia) end.
        apply nth_middle.
      * intros ->. discriminate.
Qed.

Lemma scan_zeros_eq (fuel : nat) (data : list byte) (i : Z) :
  scan_zeros fuel data i =
  if 0 <=? i then
    b <- rd data i ;;
    if u8 b =? 0 then
      match fuel with
      | O => NoFuel
      | S fuel' => scan_zeros fuel' data (i - 1)
      end
    else Ret i
  else Ret i.
Proof. destruct fuel; reflexivity. Qed.

(** The loop of the code walks exactly as the specification's scan. *)
Lemma scan_zeros_backward (l rest : list byte) (fuel : nat) :
  (List.length l <= fuel)%nat ->
  scan_zeros fuel (l ++ rest) (len l - 1) =
  Ret (fst (scan_result (backward_scan_from (rev l) (len l - 1)))).
Proof.
  revert rest fuel.
  induction l as [|c l IH] using rev_ind; intros rest fuel Hf.
  - rewrite scan_zeros_eq. reflexivity.
  - rewrite rev_app_distr. cbn [rev app backward_scan_from].
    rewrite length_app in Hf. cbn [List.length] in Hf.
    rewrite len_app, len_cons, len_nil.
    pose proof (len_nonneg l) as Hl.
    replace (len l + (1 + 0) - 1) with (len l) by lia.
    rewrite scan_zeros_eq.
    replace (0 <=? len l) with true by lia.
    rewrite <- app_assoc. cbn [app]. rewrite rd_middle. cbn [bind].
    rewrite eqb_u8. change (u8 x00) with 0.
    destruct (u8 c =? 0) eqn:E.
    + destruct fuel as [|fuel]; [lia|].
      specialize (IH (c :: rest) fuel ltac:(lia)). exact IH.
    + reflexivity.
Qed.

(** The code and the plain backward scan agree on every buffer. *)
Lemma find_tls13_content_end_scan (data : list byte) :
  find_tls13_content_end data = Ret (scan_result (backward_scan data)).
Proof.
  unfold find_tls13_content_end, backward_scan.
  destruct (len data =? 0) eqn:E0.
  - apply Z.eqb_eq in E0. apply len_zero in E0. subst. reflexivity.
  - apply Z.eqb_neq in E0.
    assert (Hscan :
      (i <- scan_zeros (Z.to_nat (len data)) data (len data - 1) ;;
       if i <? 0 then Ret (-1, None)
       else ct <- rd data i ;; Ret (i, Some ct)) =
      Ret (scan_result (backward_scan_from (rev data) (len data - 1)))).
    { pose proof (scan_zeros_backward data [] (Z.to_nat (len data))) as Hs.
      rewrite app_nil_r in Hs. rewrite Hs by (unfold len; lia). cbn [bind].
      destruct (backward_scan_from (rev data) (len data - 1)) as [[j b]|] eqn:Eb.
      - destruct (backward_scan_from_found _ _ _ Eb) as (Hj & Hn & _).
        cbn [scan_result fst]. replace (j <? 0) with false by lia.
        rewrite rd_in by lia. cbn [bind]. rewrite Hn. reflexivity.
      - reflexivity. }
    destruct (8 <=? len data) eqn:E8; [|exact Hscan].
    destruct data as [|c data _] using rev_ind; [rewrite len_nil in E0; lia|].
    rewrite len_app, len_cons, len_nil in *.
    replace (len data + (1 + 0) - 1) with (len data) in * by lia.
    rewrite rd_middle. cbn [bind].
    destruct (u8 c =? 0) eqn:Ec; cbn [negb bind]; [exact Hscan|].
    rewrite rev_app_distr. cbn [rev app backward_scan_from].
    rewrite eqb_u8. change (u8 x00) with 0. rewrite Ec. reflexivity.
Qed.

(** The scan of [content || ct || zeros]. *)
Lemma backward_scan_padded (content : list byte) (ct : byte) (n : nat) :
  ct <> x00 ->
  backward_scan (content ++ ct :: repeat x00 n) = Some (len content, ct).
Proof.
  intros Hct. unfold backward_scan.
  rewrite rev_app_distr. cbn [rev]. rewrite rev_repeat.
  rewrite len_app, len_cons, len_repeat.
  rewrite <- app_assoc. cbn [app].
  replace (len content + (1 + Z.of_nat n) - 1) with (len content + Z.of_nat n) by lia.
  induction n as [|n IH].
  - cbn [repeat app backward_scan_from].
    destruct (Byte.eqb ct x00) eqn:E; [apply Byte.byte_dec_bl in E; contradiction|].
    f_equal. f_equal. lia.
  - cbn [repeat app backward_scan_from]. cbn [Byte.eqb].
    replace (len content + Z.of_nat (S n) - 1) with (len content + Z.of_nat n) by lia.
    exact IH.
Qed.

(** A buffer of zeros has nothing to find. *)
Lemma backward_scan_from_zeros (r : list byte) (i : Z) :
  Forall (fun b => b = x00) r -> backward_scan_from r i = None.
Proof.
  intros H. revert i. induction H as [|b r Hb _ IH]; intros i.
  - reflexivity.
  - subst b. cbn. apply IH.
Qed.

Lemma backward_scan_from_none (r : list byte) (i : Z) :
  backward_scan_from r i = None -> Forall (fun b => b = x00) r.
Proof.
  revert i. induction r as [|b r IH]; intros i H.
  - constructor.
  - cbn in H. destruct (Byte.eqb b x00) eqn:E; [|discriminate].
    constructor; [apply Byte.byte_dec_bl; exact E | eapply IH; exact H].
Qed.

Lemma backward_scan_none_iff (data : list byte) :
  backward_scan data = None <-> Forall (fun b => b = x00) data.
Proof.
  unfold backward_scan. split; intros H.
  - apply backward_scan_from_none in H.
    rewrite <- (rev_involutive data). apply Forall_rev. exact H.
  - apply backward_scan_from_zeros. apply Forall_rev. exact H.
Qed.

Lemma tls13_unwrap_content_scan (data : list byte) :
  tls13_unwrap_content data = Ret (scan_result (backward_scan data)).
Proof.
  unfold tls13_unwrap_content.
  destruct (len data =? 0) eqn:E0.
  - apply Z.eqb_eq in E0. apply len_zero in E0. subst. reflexivity.
  - rewrite find_tls13_content_end_scan. cbn [bind].
    destruct (backward_scan data) as [[j b]|] eqn:Eb; [|reflexivity].
    unfold backward_scan in Eb. apply backward_scan_from_found in Eb.
    cbn [scan_result]. replace (j <? 0) with false by lia. reflexivity.
Qed.

End ContentEnd.

(** C7: on every buffer [find_tls13_content_end], fast path included,
    returns the index and the content-type byte that the plain backward
    scan for the last non-zero byte finds, and -1 when the scan finds
    none. *)
Theorem find_tls13_content_end_refines_scan (data : list byte) :
  find_tls13_content_end data =
  Ret (match backward_scan data with
       | Some (i, ct) => (i, Some ct)
       | None => (-1, None)
       end).
Proof.
  exact (find_tls13_content_end_scan data).
Qed.

(** C6: [tls13_unwrap_content] applied to [content || contentType || n
    zero bytes], [contentType] in 1..255, returns the length of [content]
    and stores [contentType]; on every buffer it returns, and it returns
    -1 exactly when the buffer is empty or holds zero bytes only. *)
Theorem tls13_unwrap_content_roundtrip :
  (forall (content : list byte) (ct : byte) (n : nat),
      1 <= u8 ct <= 255 ->
      tls13_unwrap_content (content ++ ct :: repeat x00 n)
      = Ret (len content, Some ct)) /\
  (forall data : list byte,
      exists r, tls13_unwrap_content data = Ret r /\
        (fst r = -1 <-> data = [] \/ Forall (fun b => b = x00) data)).
Proof.
  split.
  - intros content ct n Hct.
    rewrite tls13_unwrap_content_scan, backward_scan_padded; [reflexivity|].
    intros ->. change (u8 x00) with 0 in Hct. lia.
  - intros data. rewrite tls13_unwrap_content_scan.
    eexists; split; [reflexivity|].
    destruct (backward_scan data) as [[j b]|] eqn:Eb; cbn [scan_result fst].
    + split.
      * intros ->. unfold backward_scan in Eb.
        apply backward_scan_from_found in Eb. lia.
      * intros [-> | Hz]; [discriminate|].
        apply backward_scan_none_iff in Hz. congruence.
    + split; [|reflexivity]. intros _. right.
      apply backward_scan_none_iff. exact Eb.
Qed.

(** C6 on three content bytes, content type 23 and two bytes of padding,
    and on a buffer of zeros. *)
Lemma tls13_unwrap_content_roundtrip_witness :
  tls13_unwrap_content ([x01; x02; x03] ++ x17 :: repeat x00 2) = Ret (3, Some x17).
Proof.
  apply (proj1 tls13_unwrap_content_roundtrip [x01; x02; x03] x17 2%nat).
  vm_compute. split; discriminate.
Defined.

(** ** Buffers written front to back *)
Section BufferFacts.

Lemma store_app (w tail src : list byte) :
  len src <= len tail ->
  store (w ++ tail) (len w) src = Ret (w ++ src ++ skipn (List.length src) tail).
Proof.
  intros H. unfold store. rewrite len_app.
  pose proof (len_nonneg w).
  replace (0 <=? len w) with true by lia.
  replace (len w + len src <=? len w + len tail) with true by lia.
  cbn [andb]. f_equal.
  replace (Z.to_nat (len w)) with (List.length w + 0)%nat by (unfold len; lia).
  rewrite firstn_app_2. cbn [firstn]. rewrite app_nil_r.
  replace (Z.to_nat (len w + len src)) with (List.length w + List.length src)%nat
    by (unfold len; lia).
  rewrite skipn_app.
  rewrite skipn_all2 by lia. cbn [app].
  do 3 f_equal. lia.
Qed.

Lemma store_app_out (w tail src : list byte) :
  len tail < len src -> store (w ++ tail) (len w) src = OutOfBounds.
Proof.
  intros H. unfold store. rewrite len_app.
  pose proof (len_nonneg w).
  replace (len w + len src <=? len w + len tail) with false by lia.
  rewrite andb_false_r. reflexivity.
Qed.

Lemma wr_app (w tail : list byte) (b : byte) :
  1 <= len tail -> wr (w ++ tail) (len w) b = Ret (w ++ b :: skipn 1 tail).
Proof.
  intros H. unfold wr. rewrite store_app; [reflexivity | rewrite len_cons, len_nil; lia].
Qed.

Lemma slice_app (p q : list byte) (n : Z) :
  0 <= n <= len q -> slice (p ++ q) (len p) n = Ret (firstn (Z.to_nat n) q).
Proof.
  intros H. unfold slice. rewrite len_app.
  pose proof (len_nonneg p).
  replace (0 <=? len p) with true by lia.
  replace (0 <=? n) with true by lia.
  replace (len p + n <=? len p + len q) with true by lia.
  cbn [andb]. f_equal.
  replace (Z.to_nat (len p)) with (List.length p + 0)%nat by (unfold len; lia).
  rewrite skipn_app. rewrite skipn_all2 by lia.
  replace (List.length p + 0 - List.length p)%nat with 0%nat by lia.
  reflexivity.
Qed.

Lemma slice_whole_prefix (p q : list byte) :
  slice (p ++ q) 0 (len p) = Ret p.
Proof.
  unfold slice. rewrite len_app.
  pose proof (len_nonneg p). pose proof (len_nonneg q).
  replace (0 <=? len p) with true by lia.
  replace (0 + len p <=? len p + len q) with true by lia.
  change (0 <=? 0) with true. cbn [andb]. f_equal.
  change (Z.to_nat 0) with 0%nat. cbn [skipn].
  replace (Z.to_nat (len p)) with (List.length p + 0)%nat by (unfold len; lia).
  rewrite firstn_app_2. cbn [firstn]. apply app_nil_r.
Qed.

Lemma len_firstn (p : list byte) (n : Z) :
  0 <= n <= len p -> len (firstn (Z.to_nat n) p) = n.
Proof.
  intros H. unfold len in *. rewrite length_firstn. lia.
Qed.

Lemma len_skipn (p : list byte) (n : nat) :
  len (skipn n p) = len p - Z.min (Z.of_nat n) (len p).
Proof.
  unfold len. rewrite length_skipn. lia.
Qed.

End BufferFacts.

Section QueryFacts.

Lemma join_labels_snoc (done : list (list byte)) (l : list byte) :
  join_labels (done ++ [l]) =
  match done with
  | [] => l
  | _ => join_labels done ++ dot :: l
  end.
Proof.
  induction done as [|d ds IH]; [reflexivity|].
  destruct ds as [|d' ds]; [reflexivity|].
  change (join_labels ((d :: d' :: ds) ++ [l]))
    with (d ++ dot :: join_labels ((d' :: ds) ++ [l])).
  rewrite IH.
  change (join_labels (d :: d' :: ds)) with (d ++ dot :: join_labels (d' :: ds)).
  rewrite <- app_assoc. reflexivity.
Qed.

Lemma join_labels_pos (d : list byte) (ds : list (list byte)) :
  label_ok d -> 1 <= len (join_labels (d :: ds)).
Proof.
  unfold label_ok. intros H.
  destruct ds; cbn [join_labels]; [lia|].
  rewrite len_app. match goal with |- _ <= _ + len ?x => pose proof (len_nonneg x) end. lia.
Qed.

Lemma join_labels_empty (done : list (list byte)) :
  Forall label_ok done -> len (join_labels done) = 0 -> done = [].
Proof.
  intros H E. destruct done as [|d ds]; [reflexivity|].
  inversion H; subst. pose proof (join_labels_pos d ds ltac:(assumption)). lia.
Qed.

(** A length byte without the two top bits is at most 63. *)
Lemma label_length_bits (b : byte) : Z.land (u8 b) 192 = 0 -> u8 b <= 63.
Proof.
  destruct b; cbv; intros H; first [discriminate H | intros C; discriminate C].
Qed.

(** A length of at most 63 has the two top bits clear. *)
Lemma label_length_low (z : Z) : 0 <= z <= 63 -> Z.land z 192 = 0.
Proof.
  intros H. apply Z.bits_inj'. intros n Hn. rewrite Z.land_spec, Z.bits_0.
  destruct (Z_lt_le_dec n 6).
  - assert (Hc : Z.testbit 192 n = false).
    { assert (n = 0 \/ n = 1 \/ n = 2 \/ n = 3 \/ n = 4 \/ n = 5) as Hk by lia.
      destruct Hk as [->|[->|[->|[->|[->| ->]]]]]; reflexivity. }
    rewrite Hc. apply andb_false_r.
  - assert (Hz : Z.testbit z n = false).
    { destruct (Z.eq_dec z 0) as [->|]; [apply Z.bits_0|].
      apply Z.bits_above_log2; [lia|].
      assert (Z.log2 z < 6) by (apply Z.log2_lt_pow2; [lia|]; change (2 ^ 6) with 64; lia).
      lia. }
    rewrite Hz. reflexivity.
Qed.

Lemma skipn_tail (o : list byte) (n k : nat) :
  skipn k (skipn n o) = skipn (n + k) o.
Proof. rewrite skipn_skipn. f_equal. lia. Qed.

(** The code after the loop, on a buffer that holds [w] so far. *)
Lemma finish_query_spec (cap odl offset : Z) (data w o0 : list byte) :
  0 <= offset -> len w <= cap -> len o0 = cap + 1 ->
  exists r,
    finish_query data (w ++ skipn (List.length w) o0) odl offset (len w) = Ret r /\
    (q_ret r = 1 ->
       len w <> 0 /\ q_outDomainLen r = len w /\
       q_outDomain r = w ++ x00 :: skipn (S (List.length w)) o0).
Proof.
  intros Hoff Hw Ho. unfold finish_query.
  destruct (len w =? 0) eqn:E0.
  - eexists; split; [reflexivity|]. cbn. discriminate.
  - rewrite wr_app by (rewrite len_skipn; unfold len in *; lia).
    cbn [bind]. rewrite skipn_tail.
    replace (List.length w + 1)%nat with (S (List.length w)) by lia.
    destruct (offset + 2 >? len data) eqn:E2.
    + eexists; split; [reflexivity|]. cbn. discriminate.
    + rewrite !rd_in by lia. cbn [bind].
      eexists; split; [reflexivity|]. cbn. intros _.
      apply Z.eqb_neq in E0. repeat split. exact E0.
Qed.

(** The QNAME loop: it returns, and when the call succeeds the bytes it
    walked are the wire form of the labels it wrote. *)
Lemma qname_loop_spec (cap odl : Z) (o0 : list byte) (fuel : nat) :
  len o0 = cap + 1 ->
  forall pre suf done,
  (List.length suf <= fuel)%nat ->
  Forall label_ok done ->
  len (join_labels done) <= cap ->
  exists r,
    qname_loop fuel (pre ++ suf)
               (join_labels done ++ skipn (List.length (join_labels done)) o0)
               odl cap (len pre) (len (join_labels done)) = Ret r /\
    (q_ret r = 1 ->
     exists more rest,
       suf = encode_qname more ++ rest /\ Forall label_ok more /\
       done ++ more <> [] /\
       q_outDomainLen r = len (join_labels (done ++ more)) /\
       len (join_labels (done ++ more)) <= cap /\
       q_outDomain r = join_labels (done ++ more) ++ x00 ::
           skipn (S (List.length (join_labels (done ++ more)))) o0 /\
       q_outQType r <> None).
Proof.
  intros Ho. induction fuel as [|fuel IH]; intros pre suf done Hf Hdone Hcap.
  - destruct suf; [|cbn in Hf; lia]. cbn [qname_loop].
    rewrite app_nil_r. replace (len pre <? len pre) with false by lia.
    destruct (finish_query_spec cap odl (len pre) pre (join_labels done) o0
                  (len_nonneg pre) Hcap Ho)
      as (r & Hr & Hs).
    exists r. split; [exact Hr|]. intros H1. exfalso.
    unfold finish_query in Hr.
    destruct (len (join_labels done) =? 0); [injection Hr as <-; discriminate|].
    destruct (wr _ _ _); cbn [bind] in Hr; try discriminate.
    replace (len pre + 2 >? len pre) with true in Hr by lia.
    injection Hr as <-. discriminate.
  - destruct suf as [|b suf].
    + cbn [qname_loop].
      rewrite app_nil_r. replace (len pre <? len pre) with false by lia.
      destruct (finish_query_spec cap odl (len pre) pre (join_labels done) o0
                  (len_nonneg pre) Hcap Ho)
        as (r & Hr & Hs).
      exists r. split; [exact Hr|]. intros H1. exfalso.
      unfold finish_query in Hr.
      destruct (len (join_labels done) =? 0); [injection Hr as <-; discriminate|].
      destruct (wr _ _ _); cbn [bind] in Hr; try discriminate.
      replace (len pre + 2 >? len pre) with true in Hr by lia.
      injection Hr as <-. discriminate.
    + cbn [qname_loop]. cbn [List.length] in Hf.
      pose proof (len_nonneg pre) as Hpre. pose proof (len_nonneg suf) as Hsuf.
      pose proof (u8_range b) as Hb.
      replace (len pre <? len (pre ++ b :: suf)) with true
        by (rewrite len_app, len_cons; lia).
      rewrite rd_middle. cbn [bind].
      destruct (u8 b =? 0) eqn:Eb.
      { (* the zero-length label *)
        apply Z.eqb_eq in Eb. apply u8_zero in Eb. subst b.
        destruct (finish_query_spec cap odl (len pre + 1) (pre ++ x00 :: suf)
                    (join_labels done) o0 ltac:(lia) Hcap Ho) as (r & Hr & Hs).
        exists r. split; [exact Hr|]. intros H1.
        destruct (Hs H1) as (Hne & Hlen & Hout).
        exists [], suf. rewrite app_nil_r.
        repeat split; try assumption; try constructor.
        - intros ->. apply Hne. reflexivity.
        - unfold finish_query in Hr.
          destruct (len (join_labels done) =? 0); [injection Hr as <-; discriminate|].
          destruct (wr _ _ _); cbn [bind] in Hr; try discriminate.
          destruct (_ >? _); [injection Hr as <-; discriminate|].
          destruct (rd _ _); cbn [bind] in Hr; try discriminate.
          destruct (rd _ _); cbn [bind] in Hr; try discriminate.
          injection Hr as <-. cbn. discriminate. }
      destruct (negb (Z.land (u8 b) 192 =? 0)) eqn:Ec.
      { eexists; split; [reflexivity|]. cbn. discriminate. }
      destruct (len pre + 1 + u8 b >? len (pre ++ b :: suf)) eqn:El.
      { eexists; split; [reflexivity|]. cbn. discriminate. }
      rewrite len_app, len_cons in El.
      destruct ((0 <? len (join_labels done)) && (len (join_labels done) >=? cap)) eqn:Ed.
      { eexists; split; [reflexivity|]. cbn. discriminate. }
      apply Z.eqb_neq in Eb. apply negb_false_iff, Z.eqb_eq in Ec.
      assert (Hn : 1 <= u8 b <= 63) by (pose proof (label_length_bits b Ec); lia).
      set (label := firstn (Z.to_nat (u8 b)) suf).
      assert (Hlab : len label = u8 b) by (apply len_firstn; lia).
      assert (Hsplit : suf = label ++ skipn (Z.to_nat (u8 b)) suf)
        by (symmetry; apply firstn_skipn).
      assert (Hok : label_ok label) by (unfold label_ok; lia).
      (* the bytes behind the length byte *)
      assert (Hslice : slice (pre ++ b :: suf) (len pre + 1) (u8 b) = Ret label).
      { replace (pre ++ b :: suf) with ((pre ++ [b]) ++ suf)
          by (rewrite <- app_assoc; reflexivity).
        replace (len pre + 1) with (len (pre ++ [b]))
          by (rewrite len_app, len_cons, len_nil; lia).
        apply slice_app. lia. }
      pose proof (join_labels_snoc done label) as Hsnoc.
      assert (Hdone' : Forall label_ok (done ++ [label])).
      { apply Forall_app. split; [assumption|]. constructor; [assumption|constructor]. }
      (* the state after the label is the state of a call on one label more *)
      assert (Hstep : forall w',
        w' = join_labels (done ++ [label]) ->
        len w' <= cap ->
        exists r,
          qname_loop fuel (pre ++ b :: suf) (w' ++ skipn (List.length w') o0)
                     odl cap (len pre + 1 + u8 b) (len w') = Ret r /\
          (q_ret r = 1 ->
           exists more rest,
             b :: suf = encode_qname more ++ rest /\ Forall label_ok more /\
             done ++ more <> [] /\
             q_outDomainLen r = len (join_labels (done ++ more)) /\
             len (join_labels (done ++ more)) <= cap /\
             q_outDomain r = join_labels (done ++ more) ++ x00 ::
               skipn (S (List.length (join_labels (done ++ more)))) o0 /\
             q_outQType r <> None)).
      { intros w' -> Hcap'.
        destruct (IH (pre ++ b :: label) (skipn (Z.to_nat (u8 b)) suf) (done ++ [label]))
          as (r & Hr & Hs); try assumption.
        { rewrite length_skipn. lia. }
        exists r. split.
        - rewrite <- Hr. f_equal.
          + rewrite <- app_assoc. cbn [app]. rewrite <- Hsplit. reflexivity.
          + rewrite len_app, len_cons. lia.
        - intros H1. destruct (Hs H1) as (more & rest & Hsuf2 & Hmore & _ & Hrest).
          exists (label :: more), rest.
          rewrite <- app_assoc in Hrest. cbn [app] in Hrest.
          split; [|split; [|split]].
          + cbn [encode_qname app]. rewrite Hlab, to_u8_u8. f_equal.
            rewrite <- app_assoc, <- Hsuf2. exact Hsplit.
          + constructor; assumption.
          + intros Habs. apply app_eq_nil in Habs. destruct Habs. discriminate.
          + exact Hrest. }
      destruct (0 <? len (join_labels done)) eqn:Epos.
      * (* a dot, then the label *)
        cbn [andb] in Ed. 
        rewrite wr_app by (rewrite len_skipn; unfold len in *; lia).
        cbn [bind].
        destruct (len (join_labels done) + 1 + u8 b >? cap) eqn:Efit.
        { eexists; split; [reflexivity|]. cbn. discriminate. }
        rewrite Hslice. cbn [bind].
        assert (Hw' : join_labels (done ++ [label]) = join_labels done ++ dot :: label).
        { rewrite Hsnoc. destruct done; [cbn in Epos; lia | reflexivity]. }
        replace (join_labels done ++ dot :: skipn 1 (skipn (List.length (join_labels done)) o0))
          with ((join_labels done ++ [dot]) ++ skipn (List.length (join_labels done ++ [dot])) o0).
        2:{ rewrite <- app_assoc. cbn [app]. rewrite skipn_tail, length_app. reflexivity. }
        replace (len (join_labels done) + 1) with (len (join_labels done ++ [dot]))
          by (rewrite len_app, len_cons, len_nil; lia).
        rewrite store_app.
        2:{ rewrite len_skipn, length_app. cbn [List.length]. unfold len in *. lia. }
        cbn [bind]. rewrite skipn_tail.
        specialize (Hstep (join_labels done ++ dot :: label) (eq_sym Hw')).
        destruct Hstep as (r & Hr & Hs).
        { rewrite len_app, len_cons. lia. }
        exists r. split; [|exact Hs].
        rewrite <- Hr. f_equal.
        -- rewrite <- !app_assoc. cbn [app].
           replace (List.length (join_labels done ++ [dot]) + List.length label)%nat
             with (List.length (join_labels done ++ dot :: label)); [reflexivity|].
           rewrite !length_app. cbn [List.length]. lia.
        -- rewrite !len_app, !len_cons, len_nil. lia.
      * (* the first label *)
        assert (Hnil : done = []).
        { apply join_labels_empty; [assumption|].
          pose proof (len_nonneg (join_labels done)). lia. }
        subst done. cbn [join_labels app List.length skipn bind].
        cbn [join_labels app] in Hstep.
        rewrite len_nil. cbn [Z.add].
        destruct (u8 b >? cap) eqn:Efit.
        { eexists; split; [reflexivity|]. cbn. discriminate. }
        rewrite Hslice. cbn [bind].
        pose proof (store_app [] o0 label) as Hst. cbn [app] in Hst.
        rewrite len_nil in Hst. rewrite Hst by lia.
        cbn [bind].
        specialize (Hstep label eq_refl).
        destruct Hstep as (r & Hr & Hs); [lia|].
        exists r. split; [|exact Hs].
        rewrite <- Hr. f_equal. lia.
Qed.

End QueryFacts.

(** [parse_dns_query_ext] returns on every input, and a successful call
    has read the wire form of the labels whose dotted text it stored. *)
Lemma parse_dns_query_ext_spec (data outDomain : list byte) :
  exists r,
    parse_dns_query_ext data outDomain = Ret r /\
    (q_ret r = 1 ->
     exists labels rest,
       skipn 12 data = encode_qname labels ++ rest /\
       Forall label_ok labels /\ labels <> [] /\
       q_outDomainLen r = len (join_labels labels) /\
       len (join_labels labels) <= len outDomain - 1 /\
       q_outDomain r = join_labels labels ++ x00 ::
           skipn (S (List.length (join_labels labels))) outDomain /\
       q_outQType r <> None).
Proof.
  unfold parse_dns_query_ext.
  destruct ((len data <? 12) || (len outDomain =? 0)) eqn:E.
  - eexists; split; [reflexivity|]. cbn. discriminate.
  - apply orb_false_iff in E. destruct E as [E12 E0].
    rewrite !rd_in by lia. cbn [bind].
    destruct (be16 _ _ =? 0).
    + eexists; split; [reflexivity|]. cbn. discriminate.
    + pose proof (qname_loop_spec (len outDomain - 1) (len outDomain) outDomain
                    (List.length data) ltac:(lia)
                    (firstn 12 data) (skipn 12 data) []) as H.
      cbn [join_labels app List.length] in H.
      change (skipn 0 outDomain) with outDomain in H.
      rewrite firstn_skipn, len_nil in H.
      replace (len (firstn 12 data)) with 12 in H
        by (symmetry; apply (len_firstn data 12); lia).
      pose proof (len_nonneg outDomain).
      apply H; [rewrite length_skipn; lia | apply Forall_nil | lia].
Qed.

(** C10: [parse_dns_query_ext] reads [*outDomainLen] as the capacity of
    [outDomain] and writes the length of the text back.  With capacity 0 it
    fails at once.  When it succeeds, the bytes after the header are the
    wire form of some labels followed by other bytes, the buffer holds the
    labels joined by dots, at most capacity - 1 bytes, then a NUL, then the
    bytes it held before, and [*outDomainLen] is the length of the joined
    text without the NUL. *)
Theorem parse_dns_query_ext_capacity :
  (forall data : list byte,
      parse_dns_query_ext data [] = Ret (mk_query_result 0 [] 0 None)) /\
  (forall (data outDomain : list byte) (r : query_result),
      parse_dns_query_ext data outDomain = Ret r ->
      q_ret r = 1 ->
      exists (labels : list (list byte)) (rest : list byte),
        skipn 12 data = encode_qname labels ++ rest /\
        Forall label_ok labels /\ labels <> [] /\
        q_outDomainLen r = len (join_labels labels) /\
        len (join_labels labels) <= len outDomain - 1 /\
        q_outDomain r = join_labels labels ++ x00 ::
            skipn (S (List.length (join_labels labels))) outDomain).
Proof.
  split.
  - intros data. unfold parse_dns_query_ext. rewrite len_nil.
    rewrite orb_true_r. reflexivity.
  - intros data outDomain r Hr H1.
    destruct (parse_dns_query_ext_spec data outDomain) as (r' & Hr' & Hs).
    rewrite Hr in Hr'. injection Hr' as <-.
    destruct (Hs H1) as (labels & rest & A & B & C & D & E & F & _).
    exists labels, rest. repeat split; assumption.
Qed.

(** C10 on the query for [example.com] and a buffer of 16 bytes. *)
Lemma parse_dns_query_ext_capacity_witness :
  exists (labels : list (list byte)) (rest : list byte),
    skipn 12 example_query = encode_qname labels ++ rest /\
    Forall label_ok labels /\ labels <> [] /\
    11 = len (join_labels labels) /\
    len (join_labels labels) <= len (repeat xff 16) - 1 /\
    cstr "example.com" ++ x00 :: repeat xff 4 =
    join_labels labels ++ x00 ::
        skipn (S (List.length (join_labels labels))) (repeat xff 16).
Proof.
  apply (proj2 parse_dns_query_ext_capacity example_query (repeat xff 16)
           (mk_query_result 1 (cstr "example.com" ++ x00 :: repeat xff 4) 11 (Some 1)));
    reflexivity.
Defined.

(** C5 on the code: for the 18-byte query whose QNAME is the lone pointer
    [C0 0C], the NODATA response is 17 bytes long; the last byte of QCLASS
    is not copied. *)
Lemma generate_dns_response_pointer_17 :
  generate_dns_response pointer_query None 1 (repeat x00 18) =
  Ret (17, [x12; x34; x85; x80; x00; x01; x00; x00; x00; x00; x00; x00;
            xc0; x0c; x00; x01; x00; x00]).
Proof. reflexivity. Qed.

(** ** Big-endian fields *)

Section FieldFacts.

Lemma lor_disjoint (x y n : Z) :
  0 <= n -> x mod 2 ^ n = 0 -> 0 <= y < 2 ^ n -> Z.lor x y = x + y.
Proof.
  intros Hn Hx Hy.
  assert (Hland : Z.land x y = 0).
  { apply Z.bits_inj'. intros k Hk. rewrite Z.land_spec, Z.bits_0.
    destruct (Z_lt_le_dec k n) as [Hlt|Hge].
    - rewrite <- (Z.mod_pow2_bits_low x n k) by lia. rewrite Hx, Z.bits_0. reflexivity.
    - rewrite <- (Z.mod_small y (2 ^ n)) by lia.
      rewrite Z.mod_pow2_bits_high by lia. apply andb_false_r. }
  rewrite <- Z.lxor_lor by exact Hland.
  symmetry. apply Z.add_nocarry_lxor. exact Hland.
Qed.

Lemma be16_value (hi lo : byte) : be16 hi lo = u8 hi * 256 + u8 lo.
Proof.
  unfold be16, to_u16.
  pose proof (u8_range hi). pose proof (u8_range lo).
  rewrite Z.shiftl_mul_pow2 by lia. change (2 ^ 8) with 256.
  rewrite Z.mod_small by lia.
  apply (lor_disjoint _ _ 8); [lia | | change (2 ^ 8) with 256; lia].
  change (2 ^ 8) with 256. apply Z.mod_mul. lia.
Qed.


Lemma be32_value (a b c d : byte) :
  be32 a b c d = u8 a * 16777216 + u8 b * 65536 + u8 c * 256 + u8 d.
Proof.
  unfold be32, to_u32.
  pose proof (u8_range a). pose proof (u8_range b).
  pose proof (u8_range c). pose proof (u8_range d).
  rewrite !Z.shiftl_mul_pow2 by lia.
  change (2 ^ 24) with 16777216. change (2 ^ 16) with 65536. change (2 ^ 8) with 256.
  rewrite !Z.mod_small by lia.
  rewrite (lor_disjoint (u8 a * 16777216) (u8 b * 65536) 24);
    [ | lia | change (2 ^ 24) with 16777216; apply Z.mod_mul; lia
        | change (2 ^ 24) with 16777216; lia ].
  rewrite (lor_disjoint _ (u8 c * 256) 16);
    [ | lia | | change (2 ^ 16) with 65536; lia ].
  2:{ change (2 ^ 16) with 65536.
      replace (u8 a * 16777216 + u8 b * 65536) with ((u8 a * 256 + u8 b) * 65536) by lia.
      apply Z.mod_mul. lia. }
  apply (lor_disjoint _ _ 8); [lia | | change (2 ^ 8) with 256; lia].
  change (2 ^ 8) with 256.
  replace (u8 a * 16777216 + u8 b * 65536 + u8 c * 256)
    with ((u8 a * 65536 + u8 b * 256 + u8 c) * 256) by lia.
  apply Z.mod_mul. lia.
Qed.

Lemma be32_range (a b c d : byte) : 0 <= be32 a b c d < 4294967296.
Proof.
  rewrite be32_value.
  pose proof (u8_range a). pose proof (u8_range b).
  pose proof (u8_range c). pose proof (u8_range d). lia.
Qed.

Lemma be16_enc16 (v : Z) :
  0 <= v < 65536 -> be16 (to_u8 (Z.shiftr v 8)) (to_u8 v) = v.
Proof.
  intros Hv. rewrite be16_value, !u8_to_u8.
  rewrite Z.shiftr_div_pow2 by lia. change (2 ^ 8) with 256.
  assert (0 <= v / 256 < 256) by (split; [apply Z.div_pos | apply Z.div_lt_upper_bound]; lia).
  rewrite (Z.mod_small (v / 256)) by lia.
  pose proof (Z.div_mod v 256 ltac:(lia)). lia.
Qed.

Lemma be32_enc32 (v : Z) :
  0 <= v < 4294967296 ->
  be32 (to_u8 (Z.shiftr v 24)) (to_u8 (Z.shiftr v 16)) (to_u8 (Z.shiftr v 8)) (to_u8 v) = v.
Proof.
  intros Hv. rewrite be32_value, !u8_to_u8.
  rewrite !Z.shiftr_div_pow2 by lia.
  change (2 ^ 24) with 16777216. change (2 ^ 16) with 65536. change (2 ^ 8) with 256.
  assert (0 <= v / 16777216 < 256)
    by (split; [apply Z.div_pos | apply Z.div_lt_upper_bound]; lia).
  rewrite (Z.mod_small (v / 16777216)) by lia.
  pose proof (Z.div_mod v 256 ltac:(lia)).
  pose proof (Z.div_mod (v / 256) 256 ltac:(lia)).
  pose proof (Z.div_mod (v / 256 / 256) 256 ltac:(lia)).
  rewrite !Z.div_div in * by lia.
  change (256 * 256) with 65536 in *. change (65536 * 256) with 16777216 in *.
  pose proof (Z.mod_pos_bound v 256 ltac:(lia)).
  pose proof (Z.mod_pos_bound (v / 256) 256 ltac:(lia)).
  pose proof (Z.mod_pos_bound (v / 65536) 256 ltac:(lia)).
  pose proof (Z.mod_small (v / 16777216) 256 ltac:(lia)).
  lia.
Qed.

End FieldFacts.

(** ** Reading through a buffer given piece by piece *)

Section ReadFacts.

Lemma rd_head (b : byte) (q : list byte) (i : Z) : i = 0 -> rd (b :: q) i = Ret b.
Proof.
  intros ->. apply (rd_middle [] q b).
Qed.

Lemma rd_skip (p q : list byte) (i : Z) :
  len p <= i -> rd (p ++ q) i = rd q (i - len p).
Proof.
  intros H. replace i with (len p + (i - len p)) at 1 by lia.
  apply rd_app_r. lia.
Qed.

Lemma rd_cons (b : byte) (q : list byte) (i : Z) :
  0 < i -> rd (b :: q) i = rd q (i - 1).
Proof.
  intros H. apply (rd_skip [b] q i). rewrite len_cons, len_nil. lia.
Qed.

Lemma slice_skip (p q : list byte) (off n : Z) :
  len p <= off -> slice (p ++ q) off n = slice q (off - len p) n.
Proof.
  intros H. unfold slice. rewrite len_app.
  pose proof (len_nonneg p).
  replace (0 <=? off) with true by lia.
  replace (0 <=? off - len p) with true by lia.
  replace (off + n <=? len p + len q) with (off - len p + n <=? len q) by lia.
  destruct (_ && _); [|reflexivity]. f_equal. f_equal.
  replace (Z.to_nat off) with (List.length p + Z.to_nat (off - len p))%nat
    by (unfold len in *; lia).
  rewrite skipn_app. rewrite skipn_all2 by lia. cbn [app].
  f_equal. lia.
Qed.

Lemma slice_cons (b : byte) (q : list byte) (off n : Z) :
  0 < off -> slice (b :: q) off n = slice q (off - 1) n.
Proof.
  intros H. apply (slice_skip [b] q off n). rewrite len_cons, len_nil. lia.
Qed.

Lemma slice_head (k q : list byte) (off n : Z) :
  off = 0 -> n = len k -> slice (k ++ q) off n = Ret k.
Proof.
  intros -> ->. apply slice_whole_prefix.
Qed.

End ReadFacts.

Ltac rd_step :=
  first [ rewrite rd_head by lia
        | rewrite rd_cons by lia
        | rewrite rd_skip by lia ].

Ltac rd_next := repeat rd_step; cbn [bind].

(** ** The ServerHello parser *)

Section ServerHelloFacts.

Lemma len_enc16 (v : Z) : len (enc16 v) = 2.
Proof. reflexivity. Qed.

Lemma len_extension (t : Z) (d : list byte) : len (extension t d) = 4 + len d.
Proof.
  unfold extension. rewrite !len_app, !len_enc16. lia.
Qed.

Lemma len_extensions_ge (es : list (Z * list byte)) :
  4 * Z.of_nat (List.length es) <= len (extensions es).
Proof.
  induction es as [|e es IH]; [cbn; lia|].
  unfold extensions in *. cbn [flat_map List.length].
  rewrite len_app, len_extension. pose proof (len_nonneg (snd e)). lia.
Qed.

Lemma walk_extensions_finds (cs : option Z) (key after rest : list byte) :
  len key = 32 ->
  forall (before : list (Z * list byte)) (fuel : nat) (pre : list byte),
  (List.length before < fuel)%nat ->
  Forall other_extension before ->
  walk_extensions fuel
    (pre ++ (extensions before ++ extension 0x0033 (x25519_share key) ++ after) ++ rest)
    cs (len pre)
    (len pre + len (extensions before ++ extension 0x0033 (x25519_share key) ++ after))
  = Ret (mk_sh_result 1 cs (Some key)).
Proof.
  intros Hkey. induction before as [|[t d] before IH]; intros fuel pre Hf Hok.
  - destruct fuel as [|fuel]; [cbn in Hf; lia|].
    cbn [walk_extensions extensions flat_map app].
    pose proof (len_nonneg pre). pose proof (len_nonneg after). pose proof (len_nonneg rest).
    rewrite !len_app, len_extension.
    assert (Hshare : len (x25519_share key) = 36)
      by (unfold x25519_share; rewrite !len_app, !len_enc16; lia).
    rewrite Hshare.
    replace (len pre + 4 <=? len pre + (4 + 36 + len after)) with true by lia.
    unfold extension, x25519_share. rewrite !len_app, !len_enc16, Hkey.
    unfold enc16. rewrite <- !app_assoc. cbn [app].
    rd_next. rd_next. rd_next. rd_next.
    rewrite !be16_enc16 by lia.
    change (51 =? 51) with true. cbv iota.
    replace (len pre + 4 + 4 >? _) with false by lia.
    change ((29 =? 29) && (32 =? 32)) with true. cbv iota.
    replace (len pre + 4 + 4 + 32 >? _) with false by lia.
    rewrite slice_skip by lia.
    do 8 (rewrite slice_cons by lia).
    rewrite slice_head by lia.
    reflexivity.
  - destruct fuel as [|fuel]; [cbn in Hf; lia|]. cbn [List.length] in Hf.
    inversion Hok as [|? ? [Ht [Hne Hd]] Hok']; subst. cbn [fst snd] in *.
    cbn [walk_extensions].
    pose proof (len_nonneg pre). pose proof (len_nonneg after). pose proof (len_nonneg rest).
    pose proof (len_nonneg d).
    change (extensions ((t, d) :: before))
      with (extension t d ++ extensions before).
    rewrite <- (app_assoc (extension t d)).
    specialize (IH fuel (pre ++ extension t d) ltac:(lia) Hok').
    rewrite len_app, len_extension in IH.
    set (T := extensions before ++ extension 51 (x25519_share key) ++ after) in *.
    pose proof (len_nonneg T) as Hl.
    rewrite <- !app_assoc in IH.
    rewrite <- !app_assoc.
    rewrite (len_app (extension t d)), len_extension.
    replace (len pre + 4 <=? _) with true by lia.
    unfold extension, enc16 in *.
    rewrite <- !app_assoc in *. cbn [app] in *.
    rd_next. rd_next. rd_next. rd_next.
    rewrite !be16_enc16 by lia.
    replace (t =? 51) with false by lia.
    rewrite <- IH. f_equal; lia.
Qed.

Lemma len_tls_record (ct v1 v2 : byte) (body : list byte) :
  len (tls_record ct v1 v2 body) = 5 + len body.
Proof.
  unfold tls_record. rewrite !len_cons, len_app, len_enc16. lia.
Qed.

Lemma len_server_hello (hsLen version random sessionId : list byte) (cs : Z)
    (comp : byte) (exts : list byte) :
  len (server_hello hsLen version random sessionId cs comp exts) =
  1 + len hsLen + len version + len random + 1 + len sessionId + 2 + 1 + 2 + len exts.
Proof.
  unfold server_hello.
  repeat first [rewrite len_cons | rewrite len_app | rewrite len_enc16]. lia.
Qed.

Section HelloBody.

Variables (hsLen version random sessionId : list byte) (cipherSuite : Z)
          (compression : byte) (before : list (Z * list byte))
          (key after : list byte).

Hypothesis HhsLen : len hsLen = 3.
Hypothesis Hversion : len version = 2.
Hypothesis Hrandom : len random = 32.
Hypothesis Hsid : len sessionId <= 255.
Hypothesis Hcs : 0 <= cipherSuite < 65536.
Hypothesis Hbefore : Forall other_extension before.
Hypothesis Hkey : len key = 32.

Let exts : list byte :=
  extensions before ++ extension 0x0033 (x25519_share key) ++ after.

Hypothesis Hexts : len exts < 65536.

Let hello : list byte :=
  server_hello hsLen version random sessionId cipherSuite compression exts.

Lemma server_hello_body_finds (pre rest : list byte) :
  server_hello_body (pre ++ hello ++ rest) (len pre)
  = Ret (mk_sh_result 1 (Some cipherSuite) (Some key)).
Proof.
  unfold server_hello_body.
  pose proof (len_nonneg pre). pose proof (len_nonneg rest).
  pose proof (len_nonneg sessionId). pose proof (len_nonneg exts) as Hexts0.
  pose proof (len_extensions_ge before) as Hn.
  assert (Hlen : len (pre ++ hello ++ rest)
                 = len pre + 44 + len sessionId + len exts + len rest).
  { rewrite !len_app. unfold hello. rewrite len_server_hello. lia. }
  rewrite Hlen.
  assert (Hel : 4 * Z.of_nat (List.length before) + 40 <= len exts).
  { unfold exts. rewrite !len_app, len_extension.
    change (len (x25519_share key)) with (len (enc16 29 ++ enc16 32 ++ key)).
    rewrite !len_app, !len_enc16.
    pose proof (len_nonneg (extensions before)). pose proof (len_nonneg after). lia. }
  replace (len pre + 1 + 3 + 2 + 32 >=? _) with false by lia.
  (* the bytes up to the extensions, one cell at a time *)
  assert (Hdata : pre ++ hello ++ rest =
    (pre ++ x02 :: hsLen ++ version ++ random) ++
    to_u8 (len sessionId) :: sessionId ++
    to_u8 (Z.shiftr cipherSuite 8) :: to_u8 cipherSuite :: compression ::
    to_u8 (Z.shiftr (len exts) 8) :: to_u8 (len exts) :: exts ++ rest).
  { unfold hello, server_hello, enc16.
    repeat (rewrite <- app_assoc; cbn [app]). reflexivity. }
  rewrite Hdata.
  set (P := pre ++ x02 :: hsLen ++ version ++ random).
  assert (HP : len P = len pre + 38).
  { unfold P. rewrite len_app, len_cons, !len_app. lia. }
  rd_next. rewrite u8_small by lia.
  replace (len pre + 1 + 3 + 2 + 32 + (1 + len sessionId) + 2 >? _) with false by lia.
  rd_next. rd_next. rewrite be16_enc16 by lia.
  replace (len pre + 1 + 3 + 2 + 32 + (1 + len sessionId) + 3 + 2 >? _) with false by lia.
  rd_next. rd_next. rewrite be16_enc16 by lia.
  replace (_ + 2 + len exts >? _) with false by lia.
  (* the walk starts where the extensions start *)
  set (Q := P ++ to_u8 (len sessionId) :: sessionId ++
            to_u8 (Z.shiftr cipherSuite 8) :: to_u8 cipherSuite :: compression ::
            [to_u8 (Z.shiftr (len exts) 8); to_u8 (len exts)]).
  assert (HQ : len Q = len pre + 44 + len sessionId).
  { unfold Q. rewrite len_app, len_cons, len_app, !len_cons, len_nil. lia. }
  replace (P ++ to_u8 (len sessionId) :: sessionId ++
            to_u8 (Z.shiftr cipherSuite 8) :: to_u8 cipherSuite :: compression ::
            to_u8 (Z.shiftr (len exts) 8) :: to_u8 (len exts) :: exts ++ rest)
    with (Q ++ exts ++ rest).
  2:{ unfold Q. repeat (rewrite <- app_assoc; cbn [app]). reflexivity. }
  replace (len pre + 1 + 3 + 2 + 32 + (1 + len sessionId) + 3 + 2) with (len Q) by lia.
  apply walk_extensions_finds; [exact Hkey | | exact Hbefore].
  rewrite !length_app. fold exts. unfold len in *. lia.
Qed.

End HelloBody.

Lemma len_handshake_records_ge (rs : list (byte * byte * list byte)) :
  5 * Z.of_nat (List.length rs) <= len (handshake_records rs).
Proof.
  induction rs as [|[[v1 v2] body] rs IH]; [cbn; lia|].
  unfold handshake_records in *. cbn [flat_map List.length].
  rewrite len_app, len_tls_record. pose proof (len_nonneg body). lia.
Qed.

(** The record loop passes over Handshake records that are not a
    ServerHello and parses the ServerHello behind them. *)
Lemma record_loop_finds (v1 v2 : byte) (hello rest : list byte) (r : sh_result) :
  1 <= len hello < 65536 ->
  hd x00 hello = x02 ->
  (forall pre, server_hello_body (pre ++ hello ++ rest) (len pre) = Ret r) ->
  forall (passed : list (byte * byte * list byte)) (fuel : nat) (pre : list byte),
  (List.length passed < fuel)%nat ->
  Forall passed_record passed ->
  record_loop fuel
    (pre ++ handshake_records passed ++ tls_record x16 v1 v2 hello ++ rest) (len pre)
  = Ret r.
Proof.
  intros Hhello Hhd Hbody.
  induction passed as [|[[w1 w2] body] passed IH]; intros fuel pre Hf Hok.
  - destruct fuel as [|fuel]; [cbn in Hf; lia|].
    cbn [record_loop handshake_records flat_map app].
    pose proof (len_nonneg pre). pose proof (len_nonneg rest).
    rewrite !len_app, len_tls_record.
    replace (len pre + 5 <? _) with true by lia.
    unfold tls_record, enc16. rewrite <- ?app_assoc. cbn [app].
    rd_next. change (u8 x16 =? 22) with true. cbn [negb].
    rd_next. rd_next. rewrite be16_enc16 by lia.
    replace (len pre + 5 + len hello >? _) with false
      by (rewrite ?len_cons, ?len_app; lia).
    destruct hello as [|h hello']; [rewrite len_nil in Hhello; lia|].
    cbn [hd] in Hhd. subst h. cbn [app].
    rd_next. change (u8 x02 =? 2) with true. cbn [negb].
    set (P := pre ++ [x16; v1; v2; to_u8 (Z.shiftr (len (x02 :: hello')) 8);
                      to_u8 (len (x02 :: hello'))]).
    assert (HP : len P = len pre + 5) by (unfold P; rewrite len_app; reflexivity).
    specialize (Hbody P). rewrite HP in Hbody.
    rewrite <- Hbody. f_equal.
    unfold P. rewrite <- app_assoc. reflexivity.
  - destruct fuel as [|fuel]; [cbn in Hf; lia|]. cbn [List.length] in Hf.
    inversion Hok as [|? ? Hrec Hok']; subst.
    unfold passed_record in Hrec. cbv beta iota in Hrec. destruct Hrec as [Hb Hh].
    cbn [record_loop].
    change (handshake_records ((w1, w2, body) :: passed))
      with (tls_record x16 w1 w2 body ++ handshake_records passed).
    specialize (IH fuel (pre ++ tls_record x16 w1 w2 body) ltac:(lia) Hok').
    rewrite len_app, len_tls_record in IH.
    set (T := handshake_records passed ++ tls_record x16 v1 v2 hello ++ rest) in *.
    rewrite <- ?app_assoc in IH.
    rewrite <- ?app_assoc. fold T.
    pose proof (len_nonneg pre). pose proof (len_nonneg T).
    rewrite !len_app, len_tls_record.
    replace (len pre + 5 <? _) with true by lia.
    unfold tls_record, enc16 in *. rewrite <- ?app_assoc in *. cbn [app] in *.
    rd_next. change (u8 x16 =? 22) with true. cbn [negb].
    rd_next. rd_next. rewrite be16_enc16 by lia.
    replace (len pre + 5 + len body >? _) with false
      by (rewrite ?len_cons, ?len_app; lia).
    destruct body as [|h body']; [rewrite len_nil in Hb; lia|].
    cbn [hd] in Hh. cbn [app] in *.
    rd_next.
    replace (u8 h =? 2) with false.
    2:{ symmetry. apply Z.eqb_neq. intros E. apply Hh. apply u8_inj. exact E. }
    cbn [negb]. rewrite <- IH. f_equal. lia.
Qed.

End ServerHelloFacts.

(** C4, as the code has it: Handshake records whose body starts with a
    handshake type other than ServerHello are passed over, and the
    ServerHello record behind them yields its cipher suite and its X25519
    key share, when that share is the first [key_share] extension of the
    ServerHello (the extensions [before] it have other types), whatever
    bytes follow the share and whatever follows the record; a record of
    any other content type at the front ends the parse with the return
    value 0. *)
Theorem parse_server_hello_passes_handshake_records :
  (forall (passed : list (byte * byte * list byte)) (v1 v2 : byte)
          (hsLen version random sessionId : list byte) (cipherSuite : Z)
          (compression : byte) (before : list (Z * list byte))
          (key after rest : list byte),
      Forall passed_record passed ->
      len hsLen = 3 -> len version = 2 -> len random = 32 ->
      len sessionId <= 255 ->
      0 <= cipherSuite < 65536 ->
      Forall other_extension before ->
      len key = 32 ->
      len (server_hello hsLen version random sessionId cipherSuite compression
             (extensions before ++ extension 0x0033 (x25519_share key) ++ after))
        < 65536 ->
      parse_server_hello
        (handshake_records passed ++
         tls_record x16 v1 v2
           (server_hello hsLen version random sessionId cipherSuite compression
              (extensions before ++ extension 0x0033 (x25519_share key) ++ after))
         ++ rest)
      = Ret (mk_sh_result 1 (Some cipherSuite) (Some key))) /\
  (forall (contentType : byte) (rest : list byte),
      u8 contentType <> 0x16 ->
      parse_server_hello (contentType :: rest) = Ret (mk_sh_result 0 None None)).
Proof.
  split.
  - intros passed v1 v2 hsLen version random sessionId cipherSuite compression
           before key after rest Hpassed HhsLen Hversion Hrandom Hsid Hcs Hbefore
           Hkey Hlen.
    unfold parse_server_hello.
    set (exts := extensions before ++ extension 51 (x25519_share key) ++ after) in *.
    set (hello := server_hello hsLen version random sessionId cipherSuite
                    compression exts) in *.
    assert (Hexts : len exts < 65536 /\ 1 <= len hello).
    { unfold hello in *. rewrite len_server_hello in *.
      pose proof (len_nonneg sessionId). pose proof (len_nonneg exts). lia. }
    destruct Hexts as [Hexts Hpos].
    pose proof (record_loop_finds v1 v2 hello rest
                  (mk_sh_result 1 (Some cipherSuite) (Some key))
                  (conj Hpos Hlen) eq_refl) as H.
    assert (Hbody : forall pre,
               server_hello_body (pre ++ hello ++ rest) (len pre)
               = Ret (mk_sh_result 1 (Some cipherSuite) (Some key))).
    { intros pre. unfold hello, exts. apply server_hello_body_finds; assumption. }
    specialize (H Hbody passed
                  (List.length (handshake_records passed
                                  ++ tls_record x16 v1 v2 hello ++ rest)) []).
    cbn [app len List.length] in H. apply H; [|exact Hpassed].
    pose proof (len_handshake_records_ge passed).
    rewrite !length_app. pose proof (len_tls_record x16 v1 v2 hello).
    pose proof (len_nonneg hello). unfold len in *. lia.
  - intros contentType rest Hct.
    unfold parse_server_hello. cbn [List.length record_loop].
    destruct (0 + 5 <? len (contentType :: rest)); [|reflexivity].
    rewrite rd_head by reflexivity. cbn [bind].
    replace (u8 contentType =? 22) with false by (symmetry; apply Z.eqb_neq; exact Hct).
    reflexivity.
Qed.

Lemma parse_server_hello_passes_handshake_records_witness :
  parse_server_hello
    (handshake_records [(x03, x03, [x01; x00; x00; x00])] ++
     tls_record x16 x03 x03 example_hello ++ [xff])
  = Ret (mk_sh_result 1 (Some 0x1302) (Some example_key)).
Proof.
  apply (proj1 parse_server_hello_passes_handshake_records
           [(x03, x03, [x01; x00; x00; x00])] x03 x03
           [x00; x00; x56] [x03; x03] (repeat x11 32) [] 0x1302 x00
           [(0x002b, [x03; x04])] example_key [] [xff]).
  - repeat constructor; vm_compute; congruence.
  - reflexivity.
  - reflexivity.
  - reflexivity.
  - vm_compute. discriminate.
  - split; vm_compute; congruence.
  - repeat constructor; vm_compute; congruence.
  - reflexivity.
  - vm_compute. reflexivity.
Defined.

Lemma parse_server_hello_stops_at_other_record :
  parse_server_hello (tls_record x16 x03 x03 example_hello)
    = Ret (mk_sh_result 1 (Some 0x1302) (Some example_key)) /\
  parse_server_hello (change_cipher_spec ++ tls_record x16 x03 x03 example_hello)
    = Ret (mk_sh_result 0 None None).
Proof.
  split; vm_compute; reflexivity.
Qed.

(** An X25519 key share behind a [key_share] extension for another group
    is not found: behind the secp256r1 share the walk has added the 4
    bytes of group and key length and then adds the whole extension
    length, which takes it 4 bytes into the next extension.  With the two
    extensions in the other order the parse succeeds. *)
Lemma parse_server_hello_misses_later_key_share :
  parse_server_hello
    (tls_record x16 x03 x03
       (hello_with (extension 0x0033 p256_share
                      ++ extension 0x0033 (x25519_share example_key))))
    = Ret (mk_sh_result 0 (Some 0x1302) None) /\
  parse_server_hello
    (tls_record x16 x03 x03
       (hello_with (extension 0x0033 (x25519_share example_key)
                      ++ extension 0x0033 p256_share)))
    = Ret (mk_sh_result 1 (Some 0x1302) (Some example_key)).
Proof.
  split; vm_compute; reflexivity.
Qed.

(** ** The GeoIP lookup *)

Lemma to_int_small (z : Z) : - 2147483648 <= z <= INT_MAX -> to_int z = z.
Proof.
  unfold to_int, INT_MAX. intros H. rewrite Z.mod_small; lia.
Qed.

Section SearchFacts.

Variable db : list byte.
Variable ip : Z.

Hypothesis Hholds : holds_entries db.
Hypothesis Hsmall : len db <= INT_MAX.

Lemma db_count_small : 0 <= db_count db /\ db_count db * 10 <= INT_MAX - 8.
Proof.
  unfold holds_entries in Hholds. unfold db_count in *.
  pose proof (be32_range (byte_at db 4) (byte_at db 5) (byte_at db 6) (byte_at db 7)).
  lia.
Qed.

Lemma rd_entry (k j : Z) :
  0 <= k < db_count db -> 0 <= j <= 9 ->
  rd db (8 + k * 10 + j) = Ret (byte_at db (8 + k * 10 + j)).
Proof.
  intros Hk Hj. unfold holds_entries in Hholds. apply rd_in. lia.
Qed.

(** The midpoint, computed in [int]s, is the midpoint. *)
Lemma mid_int (lo hi : Z) :
  0 <= lo -> lo <= hi -> hi < db_count db ->
  to_int (lo + Z.quot (to_int (hi - lo)) 2) = lo + (hi - lo) / 2 /\
  lo <= lo + (hi - lo) / 2 <= hi.
Proof.
  intros Hlo Hle Hhi. pose proof db_count_small as [_ Hc]. unfold INT_MAX in *.
  rewrite (to_int_small (hi - lo)) by (unfold INT_MAX; lia).
  rewrite Z.quot_div_nonneg by lia.
  assert (0 <= (hi - lo) / 2 <= hi - lo).
  { split; [apply Z.div_pos; lia | apply Z.div_le_upper_bound; lia]. }
  rewrite to_int_small by (unfold INT_MAX; lia). lia.
Qed.

Lemma search_start (fuel : nat) (lo hi best mid : Z) :
  0 <= mid < db_count db ->
  (e0 <- rd db (8 + to_int (mid * 10)) ;;
   e1 <- rd db (8 + to_int (mid * 10) + 1) ;;
   e2 <- rd db (8 + to_int (mid * 10) + 2) ;;
   e3 <- rd db (8 + to_int (mid * 10) + 3) ;;
   if be32 e0 e1 e2 e3 <=? ip
   then search fuel db ip (to_int (mid + 1)) hi mid
   else search fuel db ip lo (to_int (mid - 1)) best)
  = if entry_start db mid <=? ip
    then search fuel db ip (mid + 1) hi mid
    else search fuel db ip lo (mid - 1) best.
Proof.
  intros Hmid. pose proof db_count_small as [_ Hc]. unfold INT_MAX in *.
  rewrite (to_int_small (mid * 10)) by (unfold INT_MAX; lia).
  rewrite (to_int_small (mid + 1)) by (unfold INT_MAX; lia).
  rewrite (to_int_small (mid - 1)) by (unfold INT_MAX; lia).
  pose proof (rd_entry mid 0 Hmid ltac:(lia)) as R0. rewrite Z.add_0_r in R0.
  rewrite R0, !rd_entry by lia. cbn [bind].
  unfold entry_start. reflexivity.
Qed.

(** The search returns an index of the table or -1, whatever the table holds. *)
Lemma search_returns (fuel : nat) :
  forall lo hi best,
  0 <= lo -> -1 <= hi < db_count db -> hi - lo + 1 <= Z.of_nat fuel ->
  -1 <= best < db_count db ->
  exists b, search fuel db ip lo hi best = Ret b /\ -1 <= b < db_count db.
Proof.
  induction fuel as [|fuel IH]; intros lo hi best Hlo Hhi Hf Hbest.
  - cbn [search]. replace (lo <=? hi) with false by lia.
    exists best. split; [reflexivity | exact Hbest].
  - cbn [search]. destruct (lo <=? hi) eqn:E.
    + apply Z.leb_le in E.
      destruct (mid_int lo hi Hlo E ltac:(lia)) as [Hmid Hrange].
      rewrite Hmid. rewrite search_start by lia.
      destruct (_ <=? ip); apply IH; lia.
    + exists best. split; [reflexivity | exact Hbest].
Qed.

Hypothesis Hsorted : sorted_by_start db.

(** The search returns the last entry that starts at or below [ip]. *)
Lemma search_finds_last (fuel : nat) :
  forall lo hi best b,
  0 <= lo -> -1 <= hi < db_count db -> lo <= hi + 1 ->
  best = lo - 1 ->
  (forall k, 0 <= k < lo -> entry_start db k <= ip) ->
  (forall k, hi < k < db_count db -> ip < entry_start db k) ->
  search fuel db ip lo hi best = Ret b ->
  -1 <= b < db_count db /\
  (forall k, 0 <= k <= b -> entry_start db k <= ip) /\
  (forall k, b < k < db_count db -> ip < entry_start db k).
Proof.
  induction fuel as [|fuel IH]; intros lo hi best b Hlo Hhi Hle Hbest Hbelow Habove Hs.
  - cbn [search] in Hs. destruct (lo <=? hi) eqn:E; [discriminate|].
    apply Z.leb_gt in E. injection Hs as <-. subst best.
    repeat split; try lia; intros k Hk; [apply Hbelow | apply Habove]; lia.
  - cbn [search] in Hs. destruct (lo <=? hi) eqn:E.
    + apply Z.leb_le in E.
      destruct (mid_int lo hi Hlo E ltac:(lia)) as [Hmid Hrange].
      rewrite Hmid in Hs. rewrite search_start in Hs by lia.
      set (mid := lo + (hi - lo) / 2) in *.
      destruct (entry_start db mid <=? ip) eqn:Em.
      * apply Z.leb_le in Em.
        apply (IH (mid + 1) hi mid b); try lia; try assumption.
        intros k Hk. destruct (Z.eq_dec k mid) as [->|Hne]; [exact Em|].
        pose proof (Hsorted k mid ltac:(lia) ltac:(lia) ltac:(lia)). lia.
      * apply Z.leb_gt in Em.
        apply (IH lo (mid - 1) best b); try lia; try assumption.
        intros k Hk. destruct (Z.eq_dec k mid) as [->|Hne]; [exact Em|].
        pose proof (Hsorted mid k ltac:(lia) ltac:(lia) ltac:(lia)). lia.
    + apply Z.leb_gt in E. injection Hs as <-. subst best.
      repeat split; try lia; intros k Hk; [apply Hbelow | apply Habove]; lia.
Qed.

End SearchFacts.

Section LookupFacts.

Variable inet_pton : string -> option (byte * byte * byte * byte).

Lemma db_count_range (db : list byte) : 0 <= db_count db < 4294967296.
Proof. unfold db_count. apply be32_range. Qed.

(** A blob of eight bytes or more, cell by cell. *)
Lemma eight_bytes (db : list byte) :
  8 <= len db ->
  exists a b c d e f g h rest, db = a :: b :: c :: d :: e :: f :: g :: h :: rest.
Proof.
  intros H.
  do 8 (destruct db as [|? db]; [cbn in H; lia|]).
  repeat eexists.
Qed.

(** Without the magic bytes the lookup answers 0. *)
Lemma geoip_lookup_no_magic (db : list byte) (s : string) :
  ~ has_magic db -> geoip_lookup inet_pton (Some db) (Some s) = Ret 0.
Proof.
  intros Hm. unfold geoip_lookup.
  destruct (len db <? 8) eqn:E8; [reflexivity|].
  destruct (eight_bytes db ltac:(lia)) as (a & b & c & d & e & f & g & h & rest & ->).
  rd_next. destruct (Byte.eqb a x47) eqn:Ea; [|reflexivity]. cbn [negb].
  rd_next. destruct (Byte.eqb b x45) eqn:Eb; [|reflexivity]. cbn [negb].
  rd_next. destruct (Byte.eqb c x4f) eqn:Ec; [|reflexivity]. cbn [negb].
  rd_next. destruct (Byte.eqb d x31) eqn:Ed; [|reflexivity]. cbn [negb].
  exfalso. apply Hm. unfold has_magic, magic. cbn [firstn].
  apply Byte.byte_dec_bl in Ea, Eb, Ec, Ed. subst. reflexivity.
Qed.

(** With the magic bytes the lookup reads the count and goes on. *)
Lemma geoip_lookup_magic (db : list byte) (s : string) :
  8 <= len db -> has_magic db ->
  geoip_lookup inet_pton (Some db) (Some s) =
  if len db <? 8 + db_count db * 10 then Ret 0
  else
    match inet_pton s with
    | None => Ret 0
    | Some addr =>
        let ip := ntohl addr in
        let hi := to_int (to_int (db_count db) - 1) in
        best <- search (Z.to_nat (hi + 1)) db ip 0 hi (-1) ;;
        if best <? 0 then Ret 0
        else
          let e := 8 + to_int (best * 10) in
          e4 <- rd db (e + 4) ;;
          e5 <- rd db (e + 5) ;;
          e6 <- rd db (e + 6) ;;
          e7 <- rd db (e + 7) ;;
          let endIP := be32 e4 e5 e6 e7 in
          if ip >? endIP then Ret 0
          else
            e8 <- rd db (e + 8) ;;
            e9 <- rd db (e + 9) ;;
            Ret (be16 e8 e9)
    end.
Proof.
  intros H8 Hm. unfold geoip_lookup.
  replace (len db <? 8) with false by lia.
  destruct (eight_bytes db H8) as (a & b & c & d & e & f & g & h & rest & Hdb).
  assert (Hcount : db_count db = be32 e f g h) by (subst db; reflexivity).
  rewrite Hcount.
  unfold has_magic, magic in Hm. rewrite Hdb in Hm. cbn [firstn] in Hm.
  injection Hm as -> -> -> ->.
  rewrite !rd_in by lia. cbn [bind].
  replace (nth (Z.to_nat 0) db x00) with x47 by (rewrite Hdb; reflexivity).
  replace (nth (Z.to_nat 1) db x00) with x45 by (rewrite Hdb; reflexivity).
  replace (nth (Z.to_nat 2) db x00) with x4f by (rewrite Hdb; reflexivity).
  replace (nth (Z.to_nat 3) db x00) with x31 by (rewrite Hdb; reflexivity).
  replace (nth (Z.to_nat 4) db x00) with e by (rewrite Hdb; reflexivity).
  replace (nth (Z.to_nat 5) db x00) with f by (rewrite Hdb; reflexivity).
  replace (nth (Z.to_nat 6) db x00) with g by (rewrite Hdb; reflexivity).
  replace (nth (Z.to_nat 7) db x00) with h by (rewrite Hdb; reflexivity).
  reflexivity.
Qed.

(** The lookup on a sorted table of non-overlapping ranges. *)
Lemma geoip_lookup_sorted (db : list byte) (s : string)
    (addr : byte * byte * byte * byte) :
  has_magic db -> holds_entries db -> len db <= INT_MAX ->
  sorted_by_start db -> non_overlapping db ->
  inet_pton s = Some addr ->
  (forall k, covers db k (ntohl addr) ->
     geoip_lookup inet_pton (Some db) (Some s) = Ret (entry_code db k)) /\
  ((forall k, ~ covers db k (ntohl addr)) ->
     geoip_lookup inet_pton (Some db) (Some s) = Ret 0).
Proof.
  intros Hm Hholds Hsmall Hsorted Hdisj Hs.
  pose proof (db_count_small db Hholds Hsmall) as [Hc0 Hc].
  assert (H8 : 8 <= len db) by (unfold holds_entries in Hholds; lia).
  rewrite (geoip_lookup_magic db s H8 Hm), Hs.
  unfold holds_entries in Hholds.
  replace (len db <? 8 + db_count db * 10) with false by lia.
  cbv zeta. unfold INT_MAX in *.
  rewrite (to_int_small (db_count db)) by (unfold INT_MAX; lia).
  rewrite (to_int_small (db_count db - 1)) by (unfold INT_MAX; lia).
  set (ip := ntohl addr).
  destruct (search_returns db ip Hholds Hsmall (Z.to_nat (db_count db - 1 + 1))
              0 (db_count db - 1) (-1)) as (b & Hb & Hrange); try lia.
  rewrite Hb. cbn [bind].
  destruct (search_finds_last db ip Hholds Hsmall Hsorted
              (Z.to_nat (db_count db - 1 + 1)) 0 (db_count db - 1) (-1) b
              ltac:(lia) ltac:(lia) ltac:(lia) eq_refl
              ltac:(intros; lia) ltac:(intros; lia) Hb)
    as (_ & Hbelow & Habove).
  (* an entry that covers [ip] is the entry the search found *)
  assert (Hunique : forall k, covers db k ip -> k = b).
  { intros k [Hk [Hks Hke]].
    destruct (Z_lt_le_dec b k) as [Hlt|Hge].
    - specialize (Habove k ltac:(lia)). lia.
    - destruct (Z.eq_dec k b) as [->|Hne]; [reflexivity|].
      pose proof (Hdisj k b ltac:(lia) ltac:(lia) ltac:(lia)).
      specialize (Hbelow b ltac:(lia)). lia. }
  destruct (b <? 0) eqn:Eb.
  - split; [|reflexivity].
    intros k Hk. pose proof (Hunique k Hk). destruct Hk as [Hk _]. lia.
  - apply Z.ltb_ge in Eb.
    rewrite (to_int_small (b * 10)) by (unfold INT_MAX; lia).
    rewrite !(rd_entry db Hholds b) by lia. cbn [bind].
    fold (entry_end db b).
    destruct (ip >? entry_end db b) eqn:Ee.
    + split; [|reflexivity].
      intros k Hk. pose proof (Hunique k Hk). subst k.
      destruct Hk as [_ [_ Hke]]. lia.
    + cbn [bind]. fold (entry_code db b). split.
      * intros k Hk. rewrite (Hunique k Hk). reflexivity.
      * intros Hnone. exfalso. apply (Hnone b). split; [lia|].
        split; [apply Hbelow; lia | lia].
Qed.

End LookupFacts.

(** C3, as the code has it: for a blob of at most [INT_MAX] bytes that
    starts with ["GEO1"], holds the [count] entries it announces and whose
    entries ascend by [startIP] with non-overlapping ranges, and for a
    string that [inet_pton] reads as an IPv4 address, [geoip_lookup]
    returns the country code of the entry whose range covers the
    host-order address, and 0 when no entry covers it; a wrong magic, a
    buffer shorter than 8 + count*10, or a string that [inet_pton] does not
    read yields 0. *)
Theorem geoip_lookup_covering_entry
    (inet_pton : string -> option (byte * byte * byte * byte))
    (db : list byte) (s : string) :
  (has_magic db -> holds_entries db -> len db <= INT_MAX ->
   sorted_by_start db -> non_overlapping db ->
   forall addr, inet_pton s = Some addr ->
     (forall k, covers db k (ntohl addr) ->
        geoip_lookup inet_pton (Some db) (Some s) = Ret (entry_code db k)) /\
     ((forall k, ~ covers db k (ntohl addr)) ->
        geoip_lookup inet_pton (Some db) (Some s) = Ret 0)) /\
  (~ has_magic db -> geoip_lookup inet_pton (Some db) (Some s) = Ret 0) /\
  (len db < 8 \/ ~ holds_entries db ->
     geoip_lookup inet_pton (Some db) (Some s) = Ret 0) /\
  (inet_pton s = None -> geoip_lookup inet_pton (Some db) (Some s) = Ret 0).
Proof.
  split; [|split; [|split]].
  - intros Hm Hholds Hsmall Hsorted Hdisj addr Hs.
    apply geoip_lookup_sorted; assumption.
  - apply geoip_lookup_no_magic.
  - intros Hshort.
    destruct (Z_lt_le_dec (len db) 8) as [H8|H8].
    + unfold geoip_lookup. replace (len db <? 8) with true by lia. reflexivity.
    + destruct Hshort as [?|Hholds]; [lia|].
      assert (Hdec : has_magic db \/ ~ has_magic db).
      { unfold has_magic. destruct (list_eq_dec Byte.byte_eq_dec (firstn 4 db) magic);
          [left|right]; assumption. }
      destruct Hdec as [Hm|Hm]; [|apply geoip_lookup_no_magic; exact Hm].
      rewrite (geoip_lookup_magic inet_pton db s H8 Hm).
      unfold holds_entries in Hholds.
      replace (len db <? 8 + db_count db * 10) with true by lia. reflexivity.
  - intros Hs.
    destruct (Z_lt_le_dec (len db) 8) as [H8|H8].
    + unfold geoip_lookup. replace (len db <? 8) with true by lia. reflexivity.
    + assert (Hdec : has_magic db \/ ~ has_magic db).
      { unfold has_magic. destruct (list_eq_dec Byte.byte_eq_dec (firstn 4 db) magic);
          [left|right]; assumption. }
      destruct Hdec as [Hm|Hm]; [|apply geoip_lookup_no_magic; exact Hm].
      rewrite (geoip_lookup_magic inet_pton db s H8 Hm), Hs.
      destruct (_ <? _); reflexivity.
Qed.

(** ** Tables built from entries *)

Section EncodeFacts.

Lemma length_encode_entry (e : Z * Z * Z) : List.length (encode_entry e) = 10%nat.
Proof. destruct e as [[s e] c]. reflexivity. Qed.

Lemma length_flat_map_entries (es : list (Z * Z * Z)) :
  List.length (flat_map encode_entry es) = (10 * List.length es)%nat.
Proof.
  induction es as [|e es IH]; [reflexivity|].
  cbn [flat_map List.length]. rewrite length_app, length_encode_entry, IH. lia.
Qed.

Lemma len_encode_db (es : list (Z * Z * Z)) :
  len (encode_db es) = 8 + 10 * Z.of_nat (List.length es).
Proof.
  unfold encode_db, len. rewrite !length_app, length_flat_map_entries.
  cbn [List.length magic enc32]. lia.
Qed.

Lemma has_magic_encode_db (es : list (Z * Z * Z)) : has_magic (encode_db es).
Proof. reflexivity. Qed.

Lemma db_count_encode_db (es : list (Z * Z * Z)) :
  Z.of_nat (List.length es) < 4294967296 ->
  db_count (encode_db es) = Z.of_nat (List.length es).
Proof.
  intros H. unfold db_count, byte_at, encode_db, magic, enc32. cbn [app].
  change (Z.to_nat 4) with 4%nat. change (Z.to_nat 5) with 5%nat.
  change (Z.to_nat 6) with 6%nat. change (Z.to_nat 7) with 7%nat.
  cbn [nth]. apply be32_enc32. lia.
Qed.

(** Byte [j] of entry [k] of the table. *)
Lemma nth_flat_map_entries (es : list (Z * Z * Z)) (k j : nat) (e : Z * Z * Z) :
  nth_error es k = Some e -> (j < 10)%nat ->
  nth (10 * k + j) (flat_map encode_entry es) x00 = nth j (encode_entry e) x00.
Proof.
  revert k. induction es as [|e0 es IH]; intros k Hk Hj.
  - destruct k; discriminate.
  - cbn [flat_map]. destruct k as [|k].
    + injection Hk as ->. rewrite app_nth1 by (rewrite length_encode_entry; lia).
      reflexivity.
    + cbn [nth_error] in Hk.
      rewrite app_nth2 by (rewrite length_encode_entry; lia).
      rewrite length_encode_entry.
      replace (10 * S k + j - 10)%nat with (10 * k + j)%nat by lia.
      apply IH; assumption.
Qed.

Lemma byte_at_encode_db (es : list (Z * Z * Z)) (k : nat) (j : Z) (e : Z * Z * Z) :
  nth_error es k = Some e -> 0 <= j < 10 ->
  byte_at (encode_db es) (8 + Z.of_nat k * 10 + j)
  = nth (Z.to_nat j) (encode_entry e) x00.
Proof.
  intros Hk Hj. unfold byte_at, encode_db. rewrite app_assoc.
  rewrite app_nth2 by (cbn [List.length magic enc32 app]; lia).
  replace (Z.to_nat (8 + Z.of_nat k * 10 + j) - List.length (magic ++ enc32 (Z.of_nat (List.length es))))%nat
    with (10 * k + Z.to_nat j)%nat by (cbn [List.length magic enc32 app]; lia).
  apply nth_flat_map_entries; [exact Hk | lia].
Qed.

(** The fields read back from the table are the fields of the entry. *)
Lemma entry_fields_encode_db (es : list (Z * Z * Z)) (k : nat) (s e c : Z) :
  nth_error es k = Some (s, e, c) ->
  0 <= s < 4294967296 -> 0 <= e < 4294967296 -> 0 <= c < 65536 ->
  entry_start (encode_db es) (Z.of_nat k) = s /\
  entry_end (encode_db es) (Z.of_nat k) = e /\
  entry_code (encode_db es) (Z.of_nat k) = c.
Proof.
  intros Hk Hs He Hc. unfold entry_start, entry_end, entry_code. cbv zeta.
  pose proof (byte_at_encode_db es k 0 _ Hk ltac:(lia)) as B0.
  rewrite Z.add_0_r in B0. rewrite B0.
  rewrite !(byte_at_encode_db es k _ _ Hk) by lia.
  unfold encode_entry, enc32. cbn [app].
  change (Z.to_nat 0) with 0%nat. change (Z.to_nat 1) with 1%nat.
  change (Z.to_nat 2) with 2%nat. change (Z.to_nat 3) with 3%nat.
  change (Z.to_nat 4) with 4%nat. change (Z.to_nat 5) with 5%nat.
  change (Z.to_nat 6) with 6%nat. change (Z.to_nat 7) with 7%nat.
  change (Z.to_nat 8) with 8%nat. change (Z.to_nat 9) with 9%nat.
  cbn [nth].
  rewrite !be32_enc32 by lia. rewrite be16_enc16 by lia. repeat split.
Qed.

End EncodeFacts.

Section DiagonalFacts.

Variable n : nat.
Hypothesis Hn : Z.of_nat n < 4294967296.

Lemma diagonal_count : db_count (diagonal_db n) = Z.of_nat n.
Proof.
  unfold diagonal_db. rewrite db_count_encode_db; rewrite length_map, length_seq; lia.
Qed.

Lemma diagonal_fields (k : Z) :
  0 <= k < Z.of_nat n ->
  entry_start (diagonal_db n) k = k /\
  entry_end (diagonal_db n) k = k /\
  entry_code (diagonal_db n) k = 0x4141.
Proof.
  intros Hk. rewrite <- (Z2Nat.id k) at 1 3 5 by lia.
  replace k with (Z.of_nat (Z.to_nat k)) at 2 4 by lia.
  unfold diagonal_db. apply entry_fields_encode_db; try lia.
  rewrite nth_error_map.
  rewrite (nth_error_nth' _ 0%nat) by (rewrite length_seq; lia).
  rewrite seq_nth by lia. reflexivity.
Qed.

Lemma diagonal_well_formed :
  has_magic (diagonal_db n) /\ holds_entries (diagonal_db n) /\
  sorted_by_start (diagonal_db n) /\ non_overlapping (diagonal_db n).
Proof.
  split; [reflexivity|]. split; [|split].
  - unfold holds_entries. rewrite diagonal_count. unfold diagonal_db.
    rewrite len_encode_db, length_map, length_seq. lia.
  - intros i j Hi Hij Hj. rewrite diagonal_count in Hj.
    destruct (diagonal_fields i ltac:(lia)) as (-> & _ & _).
    destruct (diagonal_fields j ltac:(lia)) as (-> & _ & _). lia.
  - intros i j Hi Hij Hj. rewrite diagonal_count in Hj.
    destruct (diagonal_fields i ltac:(lia)) as (_ & -> & _).
    destruct (diagonal_fields j ltac:(lia)) as (-> & _ & _). lia.
Qed.

End DiagonalFacts.

(** On a table of 2^31 + 1 entries the count, read as an [int], is
    negative: the search loop is not entered and the lookup answers 0,
    although entry 1 covers the address. *)
Lemma geoip_lookup_diagonal_overflow (n : nat) :
  Z.of_nat n = 2147483649 ->
  geoip_lookup inet_pton4 (Some (diagonal_db n)) (Some "0.0.0.1"%string) = Ret 0.
Proof.
  intros Hn.
  destruct (diagonal_well_formed n ltac:(lia)) as (Hm & Hholds & _ & _).
  pose proof (diagonal_count n ltac:(lia)) as Hcount.
  unfold holds_entries in Hholds. rewrite Hcount, Hn in Hholds.
  rewrite Hn in Hcount.
  generalize dependent (diagonal_db n). intros db Hm Hholds Hcount.
  rewrite (geoip_lookup_magic inet_pton4 db _ ltac:(lia) Hm).
  rewrite Hcount.
  replace (len db <? 8 + 2147483649 * 10) with false by lia.
  change (inet_pton4 "0.0.0.1") with (Some (x00, x00, x00, x01)).
  cbv zeta.
  change (to_int (to_int 2147483649 - 1)) with (-2147483648).
  change (Z.to_nat (-2147483648 + 1)) with 0%nat.
  cbn [search]. change (0 <=? -2147483648) with false. cbn [bind].
  reflexivity.
Qed.

(** C3 as stated fails: [huge_db] starts with ["GEO1"], holds the
    2^31 + 1 entries it announces, ascending and non-overlapping, and its
    entry 1 covers the address 0.0.0.1 with the code 0x4141; the lookup of
    ["0.0.0.1"] returns 0. *)
Lemma geoip_lookup_huge_table_misses :
  has_magic huge_db /\ holds_entries huge_db /\
  sorted_by_start huge_db /\ non_overlapping huge_db /\
  inet_pton4 "0.0.0.1" = Some (x00, x00, x00, x01) /\
  covers huge_db 1 (ntohl (x00, x00, x00, x01)) /\
  entry_code huge_db 1 = 0x4141 /\
  geoip_lookup inet_pton4 (Some huge_db) (Some "0.0.0.1"%string) = Ret 0.
Proof.
  assert (Hn : Z.of_nat (Z.to_nat 2147483649) = 2147483649) by (apply Z2Nat.id; lia).
  unfold huge_db.
  destruct (diagonal_well_formed _ ltac:(rewrite Hn; lia)) as (Hm & Hholds & Hsorted & Hdisj).
  destruct (diagonal_fields _ ltac:(rewrite Hn; lia) 1 ltac:(rewrite Hn; lia))
    as (Hs & He & Hc).
  refine (conj Hm (conj Hholds (conj Hsorted (conj Hdisj
            (conj eq_refl (conj _ (conj Hc _))))))).
  - unfold covers. rewrite diagonal_count by (rewrite Hn; lia).
    rewrite Hs, He, Hn. change (ntohl (x00, x00, x00, x01)) with 1. lia.
  - apply geoip_lookup_diagonal_overflow. exact Hn.
Qed.

(** C3 on the specification's boundary table and the address 0.0.0.11. *)
Lemma geoip_lookup_covering_entry_witness :
  geoip_lookup inet_pton4 (Some boundary_db) (Some "0.0.0.11"%string) = Ret 0x4242.
Proof.
  assert (Hcount : db_count boundary_db = 3) by reflexivity.
  assert (Hfields : forall k, 0 <= k < 3 ->
            (k = 0 /\ entry_start boundary_db k = 1 /\ entry_end boundary_db k = 10) \/
            (k = 1 /\ entry_start boundary_db k = 11 /\ entry_end boundary_db k = 20) \/
            (k = 2 /\ entry_start boundary_db k = 100 /\ entry_end boundary_db k = 200)).
  { intros k Hk. assert (k = 0 \/ k = 1 \/ k = 2) as [->|[->| ->]] by lia;
      [left | right; left | right; right]; repeat split. }
  apply (proj1 (proj1 (geoip_lookup_covering_entry inet_pton4 boundary_db "0.0.0.11")
                  eq_refl
                  ltac:(unfold holds_entries; rewrite Hcount; vm_compute; discriminate)
                  ltac:(vm_compute; discriminate)
                  ltac:(intros i j Hi Hij Hj; rewrite Hcount in Hj;
                        destruct (Hfields i ltac:(lia)) as [(-> & -> & _)|[(-> & -> & _)|(-> & -> & _)]];
                        destruct (Hfields j ltac:(lia)) as [(-> & -> & _)|[(-> & -> & _)|(-> & -> & _)]];
                        lia)
                  ltac:(intros i j Hi Hij Hj; rewrite Hcount in Hj;
                        destruct (Hfields i ltac:(lia)) as [(-> & _ & ->)|[(-> & _ & ->)|(-> & _ & ->)]];
                        destruct (Hfields j ltac:(lia)) as [(-> & -> & _)|[(-> & -> & _)|(-> & -> & _)]];
                        lia)
                  (x00, x00, x00, x0b) eq_refl) 1).
  split; [rewrite Hcount; lia | vm_compute; split; discriminate].
Defined.

(** ** Every access stays inside the buffer *)

Section AccessFacts.

Lemma slice_in (p : list byte) (off n : Z) :
  0 <= off -> 0 <= n -> off + n <= len p ->
  exists l, slice p off n = Ret l /\ len l = n /\
    l = firstn (Z.to_nat n) (skipn (Z.to_nat off) p).
Proof.
  intros Ho Hn Hl. unfold slice.
  replace (0 <=? off) with true by lia.
  replace (0 <=? n) with true by lia.
  replace (off + n <=? len p) with true by lia.
  cbn [andb]. eexists; split; [reflexivity|]. split; [|reflexivity].
  unfold len in *. rewrite length_firstn, length_skipn. lia.
Qed.

Lemma store_in (p : list byte) (off : Z) (src : list byte) :
  0 <= off -> off + len src <= len p ->
  exists p', store p off src = Ret p' /\ len p' = len p.
Proof.
  intros Ho Hl. unfold store.
  replace (0 <=? off) with true by lia.
  replace (off + len src <=? len p) with true by lia.
  cbn [andb]. eexists; split; [reflexivity|].
  unfold len in *. rewrite !length_app, length_firstn, length_skipn. lia.
Qed.

Lemma wr_in (p : list byte) (i : Z) (b : byte) :
  0 <= i < len p -> exists p', wr p i b = Ret p' /\ len p' = len p.
Proof.
  intros H. unfold wr. apply store_in; [lia|]. rewrite len_cons, len_nil. lia.
Qed.

End AccessFacts.

(** A computation that returns, followed by one that returns, returns. *)
Lemma bind_returns {A B : Type} (c : outcome A) (k : A -> outcome B)
    (Q : A -> Prop) (P : B -> Prop) :
  (exists a, c = Ret a /\ Q a) ->
  (forall a, Q a -> exists r, k a = Ret r /\ P r) ->
  exists r, bind c k = Ret r /\ P r.
Proof.
  intros (a & -> & Ha) Hk. exact (Hk a Ha).
Qed.




(** Split on the test of the first conditional of the goal. *)
Ltac case_if :=
  match goal with
  | |- context [if ?c then _ else _] =>
      let E := fresh "E" in destruct c eqn:E
  end.

Section ReturnFacts.






(** [generate_dns_response] *)
Lemma skip_qname_returns (queryData : list byte) (fuel : nat) :
  forall offset,
  0 <= offset -> len queryData - offset <= Z.of_nat fuel ->
  exists o, skip_qname fuel queryData offset = Ret o /\ offset <= o.
Proof.
  induction fuel as [|fuel IH]; intros offset H0 Hf.
  - cbn [skip_qname]. replace (offset <? len queryData) with false by lia.
    eexists; split; [reflexivity | lia].
  - cbn [skip_qname]. destruct (offset <? len queryData) eqn:E;
      [|eexists; split; [reflexivity | lia]].
    rewrite rd_in by lia. cbn [bind].
    pose proof (u8_range (nth (Z.to_nat offset) queryData x00)).
    destruct (_ =? 0); [eexists; split; [reflexivity | lia]|].
    destruct (negb _); [eexists; split; [reflexivity | lia]|].
    destruct (IH (offset + 1 + u8 (nth (Z.to_nat offset) queryData x00))) as (o & Ho & Hle);
      try lia.
    exists o. split; [exact Ho | lia].
Qed.

End ReturnFacts.

Section ResponseFacts.




End ResponseFacts.

Section LookupReturns.

Variable inet_pton : string -> option (byte * byte * byte * byte).


End LookupReturns.




(** ** Inputs cut short *)

Section CutShort.










End CutShort.



(** Lengths that are not compared with the buffer: [parse_tls_header]
    hands out the length 65535 of a header with nothing behind it, and
    [parse_server_hello] succeeds on an 89-byte record whose handshake
    length and [key_share] extension length reach far behind its end. *)
Lemma parsers_accept_overlong_lengths :
  parse_tls_header [x16; x03; x01; xff; xff] = Ret (Some (x16, 65535)) /\
  len (tls_record x16 x03 x03 overlong_hello) = 89 /\
  parse_server_hello (tls_record x16 x03 x03 overlong_hello)
    = Ret (mk_sh_result 1 (Some 0x1302) (Some example_key)).
Proof.
  repeat split; vm_compute; reflexivity.
Qed.



(** ** HKDF *)

Section BlockFacts.

(** [blocks h L] is the least number of [h]-byte blocks that hold [L] bytes. *)
Lemma blocks_bounds (h L : nat) :
  (0 < h)%nat ->
  (L <= blocks h L * h)%nat /\ (blocks h L * h < L + h)%nat.
Proof.
  intros Hh. unfold blocks.
  pose proof (Nat.div_mod_eq (L + h - 1) h) as Hd.
  pose proof (Nat.mod_upper_bound (L + h - 1) h ltac:(lia)) as Hm.
  nia.
Qed.

Lemma blocks_unique (h L i : nat) :
  (0 < h)%nat -> (i * h < L)%nat -> (L <= S i * h)%nat -> blocks h L = S i.
Proof.
  intros Hh Hlo Hhi. destruct (blocks_bounds h L Hh) as [Hb1 Hb2]. nia.
Qed.

Lemma blocks_zero (h : nat) : (0 < h)%nat -> blocks h 0 = 0%nat.
Proof.
  intros Hh. destruct (blocks_bounds h 0 Hh) as [_ Hb]. nia.
Qed.

Lemma blocks_mono (h L' L : nat) : (L' <= L)%nat -> (blocks h L' <= blocks h L)%nat.
Proof.
  intros H. unfold blocks. apply Nat.Div0.div_le_mono. lia.
Qed.

End BlockFacts.

Lemma digest_len_pos (alg : CCHmacAlgorithm) : 32 <= digest_len alg <= 48.
Proof.
  destruct alg; unfold digest_len, CC_SHA256_DIGEST_LENGTH, CC_SHA384_DIGEST_LENGTH; lia.
Qed.

Lemma to_u8_mod (z : Z) : to_u8 (z mod 256) = to_u8 z.
Proof.
  apply u8_inj. rewrite !u8_to_u8. apply Z.mod_mod. lia.
Qed.

Lemma to_u8_next (z : Z) : to_u8 (u8 (to_u8 z) + 1) = to_u8 (z + 1).
Proof.
  apply u8_inj. rewrite !u8_to_u8. apply Z.add_mod_idemp_l. lia.
Qed.

Lemma to_u8_land (z : Z) : to_u8 (Z.land z 255) = to_u8 z.
Proof.
  change 255 with (Z.ones 8). rewrite Z.land_ones by lia.
  change (2 ^ 8) with 256. apply to_u8_mod.
Qed.

Lemma buf_all (p : list byte) (n : Z) : len p <= n -> buf p n = p.
Proof.
  intros H. unfold buf. apply firstn_all2. unfold len in H. lia.
Qed.

Lemma buf_app (w tail : list byte) (n : Z) : n = len w -> buf (w ++ tail) n = w.
Proof.
  intros ->. unfold buf, len. rewrite Nat2Z.id.
  rewrite firstn_app, firstn_all, Nat.sub_diag. cbn [firstn]. apply app_nil_r.
Qed.

Section ExpandFacts.

Variable CCHmac : CCHmacAlgorithm -> list byte -> list byte -> list byte.

Hypothesis CCHmac_len :
  forall alg key data, len (CCHmac alg key data) = digest_len alg.

Variables (alg : CCHmacAlgorithm) (prk info : list byte).

Let h : Z := digest_len alg.
Let hn : nat := Z.to_nat (digest_len alg).

Lemma len_T (i : nat) : len (T CCHmac alg prk info (S i)) = h.
Proof. cbn [T]. apply CCHmac_len. Qed.

Lemma len_T_concat (n : nat) :
  len (T_concat CCHmac alg prk info n) = Z.of_nat n * h.
Proof.
  induction n as [|n IH]; [reflexivity|].
  cbn [T_concat]. rewrite len_app, IH, len_T. lia.
Qed.

Lemma T_concat_le (n' n : nat) :
  (n' <= n)%nat ->
  exists rest, T_concat CCHmac alg prk info n = T_concat CCHmac alg prk info n' ++ rest.
Proof.
  induction 1 as [|n Hle [rest IH]].
  - exists []. symmetry. apply app_nil_r.
  - cbn [T_concat]. rewrite IH. eexists. rewrite <- app_assoc. reflexivity.
Qed.

Lemma len_HKDF_Expand (L : nat) :
  len (HKDF_Expand CCHmac alg hn prk info L) = Z.of_nat L.
Proof.
  unfold HKDF_Expand, len. rewrite length_firstn.
  pose proof (len_T_concat (blocks hn L)) as Hl. unfold len in Hl.
  pose proof (digest_len_pos alg).
  destruct (blocks_bounds hn L ltac:(unfold hn; lia)) as [Hb _].
  unfold h in Hl. unfold hn in *. nia.
Qed.

(** The loop has nothing to do once [offset] reaches [length]. *)
Lemma hkdf_expand_loop_exit (fuel : nat) (hash_len length : Z)
    (t : list byte) (t_len offset : Z) (counter : byte) (out : list byte) :
  length <= offset ->
  hkdf_expand_loop CCHmac fuel alg hash_len prk info length t t_len offset counter out
  = Ret out.
Proof.
  intros H. destruct fuel; cbn [hkdf_expand_loop];
    replace (offset <? length) with false by lia; reflexivity.
Qed.

(** After [i] rounds the loop holds [T(i)], the counter [i + 1] and the
    [i] blocks written; from there it ends with the truncated expansion. *)
Lemma hkdf_expand_loop_spec (L : Z) :
  0 <= L -> L + h <= INT_MAX ->
  forall (fuel i : nat),
  Z.of_nat i * h < L ->
  L - Z.of_nat i * h <= Z.of_nat fuel ->
  hkdf_expand_loop CCHmac fuel alg h prk info L
    (T CCHmac alg prk info i) (match i with O => 0 | S _ => h end)
    (Z.of_nat i * h) (to_u8 (Z.of_nat i + 1)) (T_concat CCHmac alg prk info i)
  = Ret (HKDF_Expand CCHmac alg hn prk info (Z.to_nat L)).
Proof.
  intros HL Hmax. pose proof (digest_len_pos alg) as Hh. fold h in Hh.
  unfold INT_MAX in Hmax.
  induction fuel as [|fuel IH]; intros i Hi Hf; [lia|].
  cbn [hkdf_expand_loop].
  replace (Z.of_nat i * h <? L) with true by lia.
  (* the block of this round *)
  assert (Hblock :
    CCHmacFinal CCHmac
      (CCHmacUpdate
         (CCHmacUpdate
            (if 0 <? match i with O => 0 | S _ => h end
             then CCHmacUpdate (CCHmacInit alg prk)
                    (buf (T CCHmac alg prk info i) match i with O => 0 | S _ => h end)
             else CCHmacInit alg prk) info)
         [to_u8 (Z.of_nat i + 1)])
    = T CCHmac alg prk info (S i)).
  { cbn [T]. replace (Z.of_nat (S i)) with (Z.of_nat i + 1) by lia.
    destruct i as [|i].
    - reflexivity.
    - replace (0 <? h) with true by lia.
      rewrite buf_all by (rewrite len_T; lia).
      unfold CCHmacFinal, CCHmacUpdate, CCHmacInit. cbn [ctx_alg ctx_key ctx_data app].
      rewrite <- app_assoc. reflexivity. }
  rewrite Hblock.
  pose proof (len_T i) as HlenT. pose proof (len_T_concat i) as HlenC.
  rewrite (to_int_small (Z.of_nat i * h + h)) by (unfold INT_MAX; lia).
  rewrite to_u8_next.
  replace (Z.of_nat i + 1 + 1) with (Z.of_nat (S i) + 1) by lia.
  destruct (Z.of_nat i * h + h >? L) eqn:Elast.
  - (* the last, truncated block *)
    rewrite (to_int_small (L - Z.of_nat i * h)) by (unfold INT_MAX; lia).
    rewrite (to_int_small (Z.of_nat i * h + (L - Z.of_nat i * h))) by (unfold INT_MAX; lia).
    rewrite hkdf_expand_loop_exit by lia.
    f_equal. unfold HKDF_Expand.
    rewrite (blocks_unique hn (Z.to_nat L) i) by (unfold hn; fold h; nia).
    cbn [T_concat]. rewrite firstn_app.
    rewrite firstn_all2 by (unfold len in HlenC; nia).
    f_equal. unfold buf. f_equal. unfold len in HlenC. nia.
  - rewrite (to_int_small (Z.of_nat i * h + h)) by (unfold INT_MAX; lia).
    rewrite buf_all by lia.
    change (T_concat CCHmac alg prk info i ++ T CCHmac alg prk info (S i))
      with (T_concat CCHmac alg prk info (S i)).
    replace (Z.of_nat i * h + h) with (Z.of_nat (S i) * h) by lia.
    destruct (Z.eq_dec (Z.of_nat (S i) * h) L) as [Heq|Hne].
    + rewrite hkdf_expand_loop_exit by lia.
      f_equal. unfold HKDF_Expand.
      rewrite (blocks_unique hn (Z.to_nat L) i) by (unfold hn; fold h; nia).
      symmetry. apply firstn_all2.
      pose proof (len_T_concat (S i)) as HlenS. unfold len in HlenS. lia.
    + apply (IH (S i)); lia.
Qed.

(** [hkdf_expand] computes the counter-based expansion. *)
Lemma hkdf_expand_spec (L : Z) :
  0 <= L <= 255 * h ->
  hkdf_expand CCHmac alg h prk info L
  = Ret (HKDF_Expand CCHmac alg hn prk info (Z.to_nat L)).
Proof.
  intros HL. pose proof (digest_len_pos alg) as Hh. fold h in Hh.
  unfold hkdf_expand.
  destruct (Z.eq_dec L 0) as [->|Hne].
  - rewrite hkdf_expand_loop_exit by lia.
    unfold HKDF_Expand. reflexivity.
  - apply (hkdf_expand_loop_spec L ltac:(lia) ltac:(unfold INT_MAX; lia)
             (Z.to_nat L) 0%nat); lia.
Qed.

(** A shorter expansion is the front of a longer one. *)
Lemma HKDF_Expand_prefix (L' L : nat) :
  (L' <= L)%nat ->
  HKDF_Expand CCHmac alg hn prk info L'
  = firstn L' (HKDF_Expand CCHmac alg hn prk info L).
Proof.
  intros Hle. unfold HKDF_Expand.
  rewrite firstn_firstn, Nat.min_l by exact Hle.
  destruct (T_concat_le (blocks hn L') (blocks hn L) (blocks_mono hn L' L Hle))
    as [rest ->].
  rewrite firstn_app.
  pose proof (len_T_concat (blocks hn L')) as Hl. unfold len in Hl.
  pose proof (digest_len_pos alg).
  destruct (blocks_bounds hn L' ltac:(unfold hn; lia)) as [Hb _].
  replace (L' - List.length (T_concat CCHmac alg prk info (blocks hn L')))%nat
    with 0%nat by (unfold h, hn in *; nia).
  cbn [firstn]. symmetry. apply app_nil_r.
Qed.

End ExpandFacts.

(** The stand-in MAC has the length of the digest. *)
Lemma length_toy_stream (n : nat) (seed : Z) : List.length (toy_stream n seed) = n.
Proof.
  revert seed. induction n as [|n IH]; intros seed; [reflexivity|].
  cbn [toy_stream List.length]. rewrite IH. reflexivity.
Qed.

Lemma toy_hmac_len (alg : CCHmacAlgorithm) (key data : list byte) :
  len (toy_hmac alg key data) = digest_len alg.
Proof.
  unfold toy_hmac, len. rewrite length_toy_stream.
  pose proof (digest_len_pos alg). lia.
Qed.

(** C8: for [L' <= L], both positive and within the expansion bound of
    255 blocks, [hkdf_expand] to [L'] bytes returns the first [L'] bytes of
    what it returns to [L] bytes; and what it returns to [L] bytes is the
    counter-based expansion [T(1) || T(2) || ...], truncated to [L]. *)
Theorem hkdf_expand_prefix
    (CCHmac : CCHmacAlgorithm -> list byte -> list byte -> list byte)
    (alg : CCHmacAlgorithm) (prk info : list byte) (L' L : Z) :
  (forall a key data, len (CCHmac a key data) = digest_len a) ->
  0 < L' -> L' <= L -> L <= 255 * digest_len alg ->
  exists okm,
    hkdf_expand CCHmac alg (digest_len alg) prk info L = Ret okm /\
    okm = firstn (Z.to_nat L)
            (T_concat CCHmac alg prk info
               (blocks (Z.to_nat (digest_len alg)) (Z.to_nat L))) /\
    len okm = L /\
    hkdf_expand CCHmac alg (digest_len alg) prk info L'
      = Ret (firstn (Z.to_nat L') okm).
Proof.
  intros Hlen HL' Hle HL.
  exists (HKDF_Expand CCHmac alg (Z.to_nat (digest_len alg)) prk info (Z.to_nat L)).
  split; [apply hkdf_expand_spec; [exact Hlen | lia]|].
  split; [reflexivity|].
  split; [rewrite len_HKDF_Expand by exact Hlen; lia|].
  rewrite hkdf_expand_spec by (try exact Hlen; lia).
  f_equal. apply HKDF_Expand_prefix; [exact Hlen | lia].
Qed.

(** C8 with the stand-in MAC: 20 bytes are the front of 70 bytes. *)
Lemma hkdf_expand_prefix_witness :
  exists okm,
    hkdf_expand toy_hmac kCCHmacAlgSHA256 (digest_len kCCHmacAlgSHA256)
                [x01; x02; x03] [x04; x05] 70 = Ret okm /\
    okm = firstn (Z.to_nat 70)
            (T_concat toy_hmac kCCHmacAlgSHA256 [x01; x02; x03] [x04; x05]
               (blocks (Z.to_nat (digest_len kCCHmacAlgSHA256)) (Z.to_nat 70))) /\
    len okm = 70 /\
    hkdf_expand toy_hmac kCCHmacAlgSHA256 (digest_len kCCHmacAlgSHA256)
                [x01; x02; x03] [x04; x05] 20
      = Ret (firstn (Z.to_nat 20) okm).
Proof.
  apply (hkdf_expand_prefix toy_hmac kCCHmacAlgSHA256 [x01; x02; x03] [x04; x05] 20 70).
  - exact toy_hmac_len.
  - reflexivity.
  - vm_compute. discriminate.
  - vm_compute. discriminate.
Defined.

(** ** The [info] array and the key schedule *)

Section InfoFacts.

Lemma store_seq (w tail src : list byte) (off : Z) :
  off = len w -> len src <= len tail ->
  store (w ++ tail) off src = Ret ((w ++ src) ++ skipn (List.length src) tail).
Proof.
  intros -> H. rewrite store_app by exact H. rewrite <- app_assoc. reflexivity.
Qed.

Lemma wr_seq (w tail : list byte) (b : byte) (off : Z) :
  off = len w -> 1 <= len tail ->
  wr (w ++ tail) off b = Ret ((w ++ [b]) ++ skipn 1 tail).
Proof.
  intros Hoff H. unfold wr. apply store_seq; [exact Hoff|].
  rewrite len_cons, len_nil. lia.
Qed.

End InfoFacts.

(** Lengths of buffers built by appending and skipping. *)
Ltac lens :=
  repeat first [ rewrite len_app | rewrite len_cons | rewrite len_nil
               | rewrite len_skipn | rewrite len_repeat ];
  unfold len in *; cbn [List.length];
  change (List.length (cstr "tls13 ")) with 6%nat in *; lia.

Section ScheduleFacts.

Variable CCHmac : CCHmacAlgorithm -> list byte -> list byte -> list byte.
Variable CC_SHA256 : list byte -> list byte.
Variable CC_SHA384 : list byte -> list byte.

Hypothesis CCHmac_len :
  forall alg key data, len (CCHmac alg key data) = digest_len alg.
Hypothesis CC_SHA256_len : forall data, len (CC_SHA256 data) = 32.
Hypothesis CC_SHA384_len : forall data, len (CC_SHA384 data) = 48.

(** [hkdf_expand_label] fills [info] as the specification lays it out. *)
Lemma hkdf_expand_label_spec (alg : CCHmacAlgorithm) (secret : list byte)
    (label : string) (context : list byte) (L : Z) :
  0 <= L <= 255 * digest_len alg ->
  len (cstr label) + len context + 10 <= 256 ->
  hkdf_expand_label CCHmac alg (digest_len alg) secret label context L
  = Ret (HKDF_Expand_Label CCHmac alg (Z.to_nat (digest_len alg)) secret label
           context (Z.to_nat L)).
Proof.
  intros HL Hfit. pose proof (digest_len_pos alg) as Hh.
  pose proof (len_nonneg (cstr label)) as Hlab. pose proof (len_nonneg context) as Hctx.
  unfold hkdf_expand_label. cbv zeta.
  rewrite !(to_int_small (len (cstr label))) by (unfold INT_MAX; lia).
  rewrite (to_int_small (6 + len (cstr label))) by (unfold INT_MAX; lia).
  rewrite to_u8_land.
  change (repeat x00 256) with (@nil byte ++ repeat x00 256).
  rewrite wr_seq by lens. cbn [bind].
  rewrite wr_seq by lens. cbn [bind].
  rewrite wr_seq by lens. cbn [bind].
  rewrite store_seq by lens. cbn [bind].
  rewrite store_seq by lens. cbn [bind].
  rewrite wr_seq by lens. cbn [bind].
  assert (Hinfo : forall w, w ++ [to_u8 (len context)] ++ context =
                    ((((([] ++ [to_u8 (Z.shiftr L 8)]) ++ [to_u8 L]) ++
                        [to_u8 (6 + len (cstr label))]) ++ cstr "tls13 ") ++
                      cstr label) ++ [to_u8 (len context)] ++ context ->
            w ++ [to_u8 (len context)] ++ context
            = label_info label context (Z.to_nat L)).
  { intros w ->. unfold label_info, enc16. rewrite Z2Nat.id by lia.
    rewrite len_app. change (len (cstr "tls13 ")) with 6.
    rewrite <- !app_assoc. reflexivity. }
  destruct (0 <? len context) eqn:Ec.
  - rewrite store_seq by lens. cbn [bind].
    rewrite (to_int_small (len context)) by (unfold INT_MAX; lia).
    rewrite buf_app by lens.
    rewrite hkdf_expand_spec by (try exact CCHmac_len; lia).
    unfold HKDF_Expand_Label. do 2 f_equal.
    rewrite <- (Hinfo _ eq_refl). rewrite <- !app_assoc. reflexivity.
  - assert (context = []) by (apply len_zero; lia). subst context.
    cbn [bind]. rewrite buf_app by lens.
    rewrite hkdf_expand_spec by (try exact CCHmac_len; lia).
    unfold HKDF_Expand_Label. do 2 f_equal.
    rewrite <- (Hinfo _ eq_refl). rewrite <- !app_assoc. reflexivity.
Qed.

(** The parameters of a suite: the hash length is the digest length of the
    algorithm, and the key length is 16 or 32. *)
Lemma get_suite_params_lens (cs : Z) (alg : CCHmacAlgorithm) (hash_len key_len : Z) :
  get_suite_params cs = (alg, hash_len, key_len) ->
  hash_len = digest_len alg /\ 0 <= key_len <= 32 /\
  sha_hash CC_SHA256 CC_SHA384 cs = (fun data =>
    Hash CC_SHA256 CC_SHA384 alg (buf data (to_CC_LONG (len data)))).
Proof.
  unfold get_suite_params, sha_hash.
  destruct (cs =? TLS_AES_256_GCM_SHA384); intros [= <- <- <-];
    (split; [reflexivity | split; [lia | reflexivity]]).
Qed.

Lemma len_Hash (alg : CCHmacAlgorithm) (data : list byte) :
  len (Hash CC_SHA256 CC_SHA384 alg data) = digest_len alg.
Proof. destruct alg; cbn [Hash digest_len]; auto. Qed.

Lemma to_CC_LONG_small (n : Z) : 0 <= n < 4294967296 -> to_CC_LONG n = n.
Proof. intros H. unfold to_CC_LONG, to_u32. apply Z.mod_small. lia. Qed.

(** Below [2^32] bytes, [sha_hash] is the hash of the whole message. *)
Lemma sha_hash_spec (cs : Z) (alg : CCHmacAlgorithm) (hash_len key_len : Z)
    (messages : list byte) :
  get_suite_params cs = (alg, hash_len, key_len) ->
  len messages < 4294967296 ->
  sha_hash CC_SHA256 CC_SHA384 cs messages = Hash CC_SHA256 CC_SHA384 alg messages.
Proof.
  intros Hs Hm. destruct (get_suite_params_lens _ _ _ _ Hs) as (_ & _ & ->).
  pose proof (len_nonneg messages).
  rewrite to_CC_LONG_small by lia. rewrite buf_all by lia. reflexivity.
Qed.

Lemma derive_secret_spec (cs : Z) (alg : CCHmacAlgorithm) (hash_len key_len : Z)
    (secret : list byte) (label : string) (messages : list byte) :
  get_suite_params cs = (alg, hash_len, key_len) ->
  len messages < 4294967296 ->
  len (cstr label) <= 198 ->
  derive_secret CCHmac CC_SHA256 CC_SHA384 cs alg hash_len secret label messages
  = Ret (Derive_Secret CCHmac CC_SHA256 CC_SHA384 alg (Z.to_nat hash_len) secret
           label messages).
Proof.
  intros Hs Hm Hlab. unfold derive_secret. cbv zeta.
  rewrite (sha_hash_spec _ _ _ _ _ Hs Hm).
  destruct (get_suite_params_lens _ _ _ _ Hs) as (-> & _ & _).
  pose proof (digest_len_pos alg) as Hh.
  pose proof (len_Hash alg messages) as Hlen.
  rewrite buf_all by lia.
  rewrite hkdf_expand_label_spec by lia. reflexivity.
Qed.

Lemma len_Derive_Secret (alg : CCHmacAlgorithm) (secret : list byte)
    (label : string) (messages : list byte) :
  len (Derive_Secret CCHmac CC_SHA256 CC_SHA384 alg (Z.to_nat (digest_len alg))
         secret label messages) = digest_len alg.
Proof.
  unfold Derive_Secret, HKDF_Expand_Label.
  rewrite len_HKDF_Expand by exact CCHmac_len.
  pose proof (digest_len_pos alg). lia.
Qed.

Lemma buf_zero (alg : CCHmacAlgorithm) :
  buf (repeat x00 48) (digest_len alg) = repeat x00 (Z.to_nat (digest_len alg)).
Proof. destruct alg; reflexivity. Qed.

Lemma hkdf_extract_spec (alg : CCHmacAlgorithm) (salt ikm : list byte) :
  hkdf_extract CCHmac alg (digest_len alg) salt ikm
  = HKDF_Extract CCHmac alg (Z.to_nat (digest_len alg)) salt ikm.
Proof.
  unfold hkdf_extract, HKDF_Extract. destruct salt as [|b salt].
  - rewrite len_nil. cbn [Z.eqb]. cbv zeta. rewrite buf_zero. reflexivity.
  - rewrite len_cons. pose proof (len_nonneg salt).
    destruct (1 + len salt =? 0) eqn:E; [lia | reflexivity].
Qed.

(** The whole pipeline, for transcripts below [2^32] bytes. *)
Lemma tls13_derive_handshake_keys_spec (cs : Z) (alg : CCHmacAlgorithm)
    (hash_len key_len : Z) (shared_secret transcript : list byte) :
  get_suite_params cs = (alg, hash_len, key_len) ->
  len transcript < 4294967296 ->
  tls13_derive_handshake_keys CCHmac CC_SHA256 CC_SHA384 cs shared_secret transcript
  = Ret (DeriveHandshakeKeys CCHmac CC_SHA256 CC_SHA384 alg (Z.to_nat hash_len)
           (Z.to_nat key_len) shared_secret transcript).
Proof.
  intros Hs Ht. unfold tls13_derive_handshake_keys. rewrite Hs. cbv zeta.
  destruct (get_suite_params_lens _ _ _ _ Hs) as (Hh & Hk & _).
  pose proof (digest_len_pos alg) as Hd.
  assert (Hlab : forall l, In l ["derived"; "c hs traffic"; "s hs traffic"]%string ->
                           len (cstr l) <= 198).
  { intros l [<-|[<-|[<-|[]]]]; vm_compute; discriminate. }
  subst hash_len. rewrite buf_zero.
  rewrite hkdf_extract_spec, (buf_all (HKDF_Extract _ _ _ _ _)).
  2:{ unfold HKDF_Extract. rewrite CCHmac_len. lia. }
  rewrite (derive_secret_spec _ _ _ _ _ _ _ Hs) by (rewrite ?len_nil; auto with datatypes; lia).
  cbn [bind].
  rewrite (buf_all (Derive_Secret _ _ _ _ _ _ _ _)) by (rewrite len_Derive_Secret; lia).
  rewrite hkdf_extract_spec, (buf_all (HKDF_Extract _ _ _ _ _)).
  2:{ unfold HKDF_Extract. destruct (Derive_Secret _ _ _ _ _ _ _ _); rewrite CCHmac_len; lia. }
  rewrite !(derive_secret_spec _ _ _ _ _ _ _ Hs) by (auto with datatypes; lia).
  cbn [bind].
  rewrite !(buf_all (Derive_Secret _ _ _ _ _ _ _ _)) by (rewrite len_Derive_Secret; lia).
  rewrite !hkdf_expand_label_spec by (rewrite ?len_nil; try (vm_compute; discriminate); lia).
  cbn [bind]. reflexivity.
Qed.

End ScheduleFacts.

Lemma toy_sha256_len (data : list byte) : len (toy_sha256 data) = 32.
Proof. unfold toy_sha256, len. rewrite length_toy_stream. reflexivity. Qed.

Lemma toy_sha384_len (data : list byte) : len (toy_sha384 data) = 48.
Proof. unfold toy_sha384, len. rewrite length_toy_stream. reflexivity. Qed.

Lemma length_sha_len (n : nat) (data : list byte) :
  len (length_sha n data) = Z.of_nat n.
Proof. unfold length_sha, len. rewrite length_toy_stream. reflexivity. Qed.

(** C2: for a transcript below [2^32] bytes, [tls13_derive_handshake_keys]
    returns 0 and stores exactly the composition of the specification:
    the early secret extracted from a zero salt and zero input keying
    material of the hash length, the derived secret over the empty
    transcript, the handshake secret extracted from it and the shared
    secret, the client and server handshake traffic secrets derived over
    the transcript, and from each of them a key of the suite's key length
    and an iv of 12 bytes by Expand-Label with the empty context, where
    Expand-Label's info is the 16-bit length, the length byte of the full
    label, [tls13 ] and the label, the length byte of the context, and the
    context.  The MAC and the digests are those of CommonCrypto, of which
    only the output lengths are used. *)
Theorem tls13_derive_handshake_keys_composition
    (CCHmac : CCHmacAlgorithm -> list byte -> list byte -> list byte)
    (CC_SHA256 CC_SHA384 : list byte -> list byte)
    (cipher_suite : Z) (shared_secret transcript : list byte)
    (alg : CCHmacAlgorithm) (hash_len key_len : Z) :
  (forall a key data, len (CCHmac a key data) = digest_len a) ->
  (forall data, len (CC_SHA256 data) = CC_SHA256_DIGEST_LENGTH) ->
  (forall data, len (CC_SHA384 data) = CC_SHA384_DIGEST_LENGTH) ->
  get_suite_params cipher_suite = (alg, hash_len, key_len) ->
  len transcript < 4294967296 ->
  tls13_derive_handshake_keys CCHmac CC_SHA256 CC_SHA384
    cipher_suite shared_secret transcript
  = Ret (DeriveHandshakeKeys CCHmac CC_SHA256 CC_SHA384 alg
           (Z.to_nat hash_len) (Z.to_nat key_len) shared_secret transcript).
Proof.
  intros Hmac H256 H384 Hs Ht.
  apply tls13_derive_handshake_keys_spec; assumption.
Qed.

(** C2 with the stand-in primitives, for each of the two suites. *)
Lemma tls13_derive_handshake_keys_composition_witness :
  tls13_derive_handshake_keys toy_hmac toy_sha256 toy_sha384
    TLS_AES_256_GCM_SHA384 [x0a; x0b; x0c] [x01; x02; x03; x04]
  = Ret (DeriveHandshakeKeys toy_hmac toy_sha256 toy_sha384 kCCHmacAlgSHA384
           (Z.to_nat 48) (Z.to_nat 32) [x0a; x0b; x0c] [x01; x02; x03; x04])
  /\
  tls13_derive_handshake_keys toy_hmac toy_sha256 toy_sha384
    TLS_AES_128_GCM_SHA256 [x0a; x0b; x0c] [x01; x02; x03; x04]
  = Ret (DeriveHandshakeKeys toy_hmac toy_sha256 toy_sha384 kCCHmacAlgSHA256
           (Z.to_nat 32) (Z.to_nat 16) [x0a; x0b; x0c] [x01; x02; x03; x04]).
Proof.
  split.
  - apply (tls13_derive_handshake_keys_composition toy_hmac toy_sha256 toy_sha384
             TLS_AES_256_GCM_SHA384 [x0a; x0b; x0c] [x01; x02; x03; x04]
             kCCHmacAlgSHA384 48 32).
    + exact toy_hmac_len.
    + exact toy_sha256_len.
    + exact toy_sha384_len.
    + reflexivity.
    + reflexivity.
  - apply (tls13_derive_handshake_keys_composition toy_hmac toy_sha256 toy_sha384
             TLS_AES_128_GCM_SHA256 [x0a; x0b; x0c] [x01; x02; x03; x04]
             kCCHmacAlgSHA256 32 16).
    + exact toy_hmac_len.
    + exact toy_sha256_len.
    + exact toy_sha384_len.
    + reflexivity.
    + reflexivity.
Defined.

(** ** A transcript of [2^32] bytes *)

Section LongTranscript.

Variable CCHmac : CCHmacAlgorithm -> list byte -> list byte -> list byte.
Variable CC_SHA256 : list byte -> list byte.
Variable CC_SHA384 : list byte -> list byte.

(** At [2^32] bytes the length passed to the digest is 0. *)
Lemma sha_hash_wraps (cs : Z) (messages : list byte) :
  len messages = 4294967296 ->
  sha_hash CC_SHA256 CC_SHA384 cs messages = sha_hash CC_SHA256 CC_SHA384 cs [].
Proof.
  intros H. unfold sha_hash. rewrite H, len_nil.
  change (to_CC_LONG 4294967296) with 0. change (to_CC_LONG 0) with 0.
  unfold buf. change (Z.to_nat 0) with O. rewrite !firstn_O. reflexivity.
Qed.

(** The transcript enters the pipeline through [sha_hash] only. *)
Lemma tls13_derive_handshake_keys_hash (cs : Z) (shared_secret t1 t2 : list byte) :
  sha_hash CC_SHA256 CC_SHA384 cs t1 = sha_hash CC_SHA256 CC_SHA384 cs t2 ->
  tls13_derive_handshake_keys CCHmac CC_SHA256 CC_SHA384 cs shared_secret t1
  = tls13_derive_handshake_keys CCHmac CC_SHA256 CC_SHA384 cs shared_secret t2.
Proof.
  intros H. unfold tls13_derive_handshake_keys, derive_secret.
  destruct (get_suite_params cs) as [[alg hash_len] key_len]. cbv zeta.
  rewrite H. reflexivity.
Qed.

Lemma tls13_derive_handshake_keys_wraps (cs : Z) (shared_secret transcript : list byte) :
  len transcript = 4294967296 ->
  tls13_derive_handshake_keys CCHmac CC_SHA256 CC_SHA384 cs shared_secret transcript
  = tls13_derive_handshake_keys CCHmac CC_SHA256 CC_SHA384 cs shared_secret [].
Proof.
  intros H. apply tls13_derive_handshake_keys_hash, sha_hash_wraps, H.
Qed.

(** The client traffic secret of the specification's pipeline. *)
Lemma DeriveHandshakeKeys_client_secret (alg : CCHmacAlgorithm)
    (hashLength keyLength : nat) (sharedSecret transcript : list byte) :
  out_client_traffic_secret
    (DeriveHandshakeKeys CCHmac CC_SHA256 CC_SHA384 alg hashLength keyLength
       sharedSecret transcript)
  = HKDF_Expand_Label CCHmac alg hashLength
      (HKDF_Extract CCHmac alg hashLength
         (Derive_Secret CCHmac CC_SHA256 CC_SHA384 alg hashLength
            (HKDF_Extract CCHmac alg hashLength [] (repeat x00 hashLength))
            "derived" [])
         sharedSecret)
      "c hs traffic" (Hash CC_SHA256 CC_SHA384 alg transcript) hashLength.
Proof. reflexivity. Qed.

End LongTranscript.

Lemma len_long_transcript : len long_transcript = 4294967296.
Proof.
  unfold long_transcript. rewrite len_repeat. apply Z2Nat.id. discriminate.
Qed.

(** With a digest that tells lengths apart, the keys of a transcript of
    [2^32] bytes are not those of the specification. *)
Lemma long_transcript_diverges (transcript : list byte) :
  len transcript = 4294967296 ->
  tls13_derive_handshake_keys toy_hmac (length_sha 32) (length_sha 48)
    TLS_AES_128_GCM_SHA256 [] transcript
  <> Ret (DeriveHandshakeKeys toy_hmac (length_sha 32) (length_sha 48)
            kCCHmacAlgSHA256 32 16 [] transcript).
Proof.
  intros H Heq.
  rewrite tls13_derive_handshake_keys_wraps in Heq by exact H.
  apply (f_equal (fun o => match o with
                           | Ret k => out_client_traffic_secret k
                           | _ => []
                           end)) in Heq.
  cbv beta iota in Heq.
  rewrite DeriveHandshakeKeys_client_secret in Heq.
  unfold Hash, length_sha in Heq. rewrite H in Heq.
  vm_compute in Heq. discriminate Heq.
Qed.

(** C2 does not hold for every transcript: at [2^32] bytes the code hashes
    no byte of the transcript, and the keys are those of the empty
    transcript and not those of the specification's pipeline. *)
Lemma tls13_derive_handshake_keys_long_transcript :
  len long_transcript = 4294967296 /\
  tls13_derive_handshake_keys toy_hmac (length_sha 32) (length_sha 48)
    TLS_AES_128_GCM_SHA256 [] long_transcript
  = tls13_derive_handshake_keys toy_hmac (length_sha 32) (length_sha 48)
      TLS_AES_128_GCM_SHA256 [] [] /\
  tls13_derive_handshake_keys toy_hmac (length_sha 32) (length_sha 48)
    TLS_AES_128_GCM_SHA256 [] long_transcript
  <> Ret (DeriveHandshakeKeys toy_hmac (length_sha 32) (length_sha 48)
            kCCHmacAlgSHA256 32 16 [] long_transcript).
Proof.
  pose proof len_long_transcript as H.
  exact (conj H
          (conj (tls13_derive_handshake_keys_wraps _ _ _ _ _ _ H)
                (long_transcript_diverges long_transcript H))).
Qed.

(** ** The record nonce *)

Section NonceFacts.

(** The byte [b ^ (uint8_t)v]. *)
Let x (b : byte) (v : Z) : byte := to_u8 (Z.lxor (u8 b) (u8 (to_u8 v))).

Lemma lxor_u8_range (a b : Z) :
  0 <= a < 256 -> 0 <= b < 256 -> 0 <= Z.lxor a b < 256.
Proof.
  intros Ha Hb. split; [apply Z.lxor_nonneg; lia|].
  destruct (Z.eq_dec (Z.lxor a b) 0) as [->|Hn]; [lia|].
  assert (0 < Z.lxor a b) by (pose proof (proj2 (Z.lxor_nonneg a b)); lia).
  change 256 with (2 ^ 8). apply Z.log2_lt_pow2; [assumption|].
  pose proof (Z.log2_lxor a b ltac:(lia) ltac:(lia)) as Hl.
  assert (Z.log2 a < 8).
  { destruct (Z.eq_dec a 0) as [->|]; [cbn; lia|]. apply Z.log2_lt_pow2; lia. }
  assert (Z.log2 b < 8).
  { destruct (Z.eq_dec b 0) as [->|]; [cbn; lia|]. apply Z.log2_lt_pow2; lia. }
  lia.
Qed.

Lemma lxor_cancel (a m n : Z) : Z.lxor a m = Z.lxor a n -> m = n.
Proof.
  intros H. apply (f_equal (Z.lxor a)) in H.
  rewrite <- !Z.lxor_assoc, !Z.lxor_nilpotent, !Z.lxor_0_l in H. exact H.
Qed.

Lemma u8_x (b : byte) (v : Z) : u8 (x b v) = Z.lxor (u8 b) (v mod 256).
Proof.
  unfold x. rewrite !u8_to_u8. apply Z.mod_small.
  apply lxor_u8_range; [pose proof (u8_range b); lia|].
  apply Z.mod_pos_bound. lia.
Qed.

(** Applying the same mask twice gives the byte back. *)
Lemma x_x (b : byte) (v : Z) : x (x b v) v = b.
Proof.
  apply u8_inj. rewrite !u8_x.
  rewrite Z.lxor_assoc, Z.lxor_nilpotent, Z.lxor_0_r. reflexivity.
Qed.

Lemma x_inj (b : byte) (v w : Z) : x b v = x b w -> v mod 256 = w mod 256.
Proof.
  intros H. apply (f_equal u8) in H. rewrite !u8_x in H.
  exact (lxor_cancel _ _ _ H).
Qed.

Lemma xor_byte_at (pre post : list byte) (b : byte) (i v : Z) :
  i = len pre ->
  xor_byte (pre ++ b :: post) i v = Ret (pre ++ x b v :: post).
Proof.
  intros ->. unfold xor_byte. rewrite rd_middle. cbn [bind].
  rewrite wr_app by (rewrite len_cons; pose proof (len_nonneg post); lia).
  reflexivity.
Qed.

Lemma xor_byte_out (nonce : list byte) (i v : Z) :
  len nonce <= i -> xor_byte nonce i v = OutOfBounds.
Proof.
  intros H. unfold xor_byte. rewrite rd_out by lia. reflexivity.
Qed.

(** The eight updates on a nonce of at least 12 bytes. *)
Lemma xor_nonce_with_seq_bytes (n0 n1 n2 n3 n4 n5 n6 n7 n8 n9 n10 n11 : byte)
    (tail : list byte) (s : Z) :
  xor_nonce_with_seq
    (n0 :: n1 :: n2 :: n3 :: n4 :: n5 :: n6 :: n7 :: n8 :: n9 :: n10 :: n11 :: tail) s
  = Ret (n0 :: n1 :: n2 :: n3 ::
         x n4 (Z.shiftr s 56) :: x n5 (Z.shiftr s 48) ::
         x n6 (Z.shiftr s 40) :: x n7 (Z.shiftr s 32) ::
         x n8 (Z.shiftr s 24) :: x n9 (Z.shiftr s 16) ::
         x n10 (Z.shiftr s 8) :: x n11 s :: tail).
Proof.
  unfold xor_nonce_with_seq.
  repeat match goal with
  | |- context [xor_byte ?l ?i ?v] =>
      let k := eval cbv in (Z.to_nat i) in
      let pre := eval cbv [firstn] in (firstn k l) in
      match eval cbv [skipn] in (skipn k l) with
      | ?b :: ?post =>
          let E := fresh "E" in
          pose proof (xor_byte_at pre post b i v eq_refl) as E;
          cbn [app] in E; rewrite E; clear E; cbn [bind]
      end
  end.
  reflexivity.
Qed.

(** A buffer of at least 12 bytes, taken apart. *)
Lemma twelve_bytes (p : list byte) :
  12 <= len p ->
  exists n0 n1 n2 n3 n4 n5 n6 n7 n8 n9 n10 n11 tail,
    p = n0 :: n1 :: n2 :: n3 :: n4 :: n5 :: n6 :: n7 :: n8 :: n9 :: n10 :: n11 :: tail.
Proof.
  intros H.
  do 12 (destruct p as [|? p]; [exfalso; rewrite ?len_cons, ?len_nil in H; lia|]).
  repeat eexists.
Qed.

(** A bit of [s] is a bit of one of its bytes. *)
Lemma testbit_byte (s k j : Z) :
  0 <= k -> 0 <= j < 8 ->
  Z.testbit s (k + j) = Z.testbit (Z.shiftr s k mod 256) j.
Proof.
  intros Hk Hj. change 256 with (2 ^ 8).
  rewrite Z.mod_pow2_bits_low by lia.
  rewrite Z.shiftr_spec by lia. f_equal. lia.
Qed.

(** A 64-bit value is given by its eight bytes. *)
Lemma eight_bytes_inj (s t : Z) :
  0 <= s < 2 ^ 64 -> 0 <= t < 2 ^ 64 ->
  (forall k, In k [0; 8; 16; 24; 32; 40; 48; 56] ->
     Z.shiftr s k mod 256 = Z.shiftr t k mod 256) ->
  s = t.
Proof.
  intros Hs Ht H. apply Z.bits_inj'. intros n Hn.
  destruct (Z_lt_le_dec n 64) as [Hlt|Hge].
  - assert (Hk : exists k, In k [0; 8; 16; 24; 32; 40; 48; 56] /\ 0 <= n - k < 8).
    { destruct (Z_lt_le_dec n 8); [exists 0; cbn; lia|].
      destruct (Z_lt_le_dec n 16); [exists 8; cbn; lia|].
      destruct (Z_lt_le_dec n 24); [exists 16; cbn; lia|].
      destruct (Z_lt_le_dec n 32); [exists 24; cbn; lia|].
      destruct (Z_lt_le_dec n 40); [exists 32; cbn; lia|].
      destruct (Z_lt_le_dec n 48); [exists 40; cbn; lia|].
      destruct (Z_lt_le_dec n 56); [exists 48; cbn; lia|].
      exists 56; cbn; lia. }
    destruct Hk as (k & Hin & Hj).
    assert (0 <= k) by (cbn in Hin; lia).
    replace n with (k + (n - k)) by lia.
    rewrite !testbit_byte by lia. rewrite (H k Hin). reflexivity.
  - assert (Hhi : forall u, 0 <= u < 2 ^ 64 -> Z.testbit u n = false).
    { intros u Hu. destruct (Z.eq_dec u 0) as [->|]; [apply Z.bits_0|].
      apply Z.bits_above_log2; [lia|].
      assert (Z.log2 u < 64) by (apply Z.log2_lt_pow2; lia). lia. }
    rewrite !Hhi by assumption. reflexivity.
Qed.

Lemma x_zero (b : byte) : x b 0 = b.
Proof. apply u8_inj. rewrite u8_x. change (0 mod 256) with 0. apply Z.lxor_0_r. Qed.

Lemma xor_byte_ret (p r : list byte) (i v : Z) :
  xor_byte p i v = Ret r -> 0 <= i < len p /\ len r = len p.
Proof.
  unfold xor_byte.
  destruct (Z_lt_le_dec i 0); [rewrite rd_out by lia; discriminate|].
  destruct (Z_lt_le_dec i (len p)); [|rewrite rd_out by lia; discriminate].
  rewrite rd_in by lia. cbn [bind].
  destruct (wr_in p i (to_u8 (Z.lxor (u8 (nth (Z.to_nat i) p x00)) (u8 (to_u8 v)))))
    as (p' & -> & Hl); [lia|].
  intros [= <-]. split; [lia | exact Hl].
Qed.

Lemma xor_byte_fuel (p : list byte) (i v : Z) : xor_byte p i v <> NoFuel.
Proof.
  unfold xor_byte, wr, store, rd.
  destruct (_ && _); cbn [bind]; [|discriminate].
  destruct (_ && _); discriminate.
Qed.

(** The call returns on a nonce of 12 bytes or more only. *)
Lemma xor_nonce_with_seq_ret (nonce r : list byte) (s : Z) :
  xor_nonce_with_seq nonce s = Ret r -> 12 <= len nonce.
Proof.
  unfold xor_nonce_with_seq.
  repeat match goal with
  | |- bind (xor_byte ?p ?i ?v) _ = _ -> _ =>
      let E := fresh "E" in
      destruct (xor_byte p i v) eqn:E; cbn [bind]; try discriminate;
      apply xor_byte_ret in E
  end.
  intros Elast. apply xor_byte_ret in Elast. lia.
Qed.

End NonceFacts.

(** X1: on a nonce of 12 bytes or more, [xor_nonce_with_seq] with the same
    sequence number twice gives the nonce back. *)
Theorem xor_nonce_with_seq_involutive (nonce : list byte) (seqNum : Z) :
  12 <= len nonce ->
  exists r, xor_nonce_with_seq nonce seqNum = Ret r /\
            xor_nonce_with_seq r seqNum = Ret nonce.
Proof.
  intros H.
  destruct (twelve_bytes nonce H)
    as (n0 & n1 & n2 & n3 & n4 & n5 & n6 & n7 & n8 & n9 & n10 & n11 & tail & ->).
  eexists. split; [apply xor_nonce_with_seq_bytes|].
  rewrite xor_nonce_with_seq_bytes, !x_x. reflexivity.
Qed.

Lemma xor_nonce_with_seq_involutive_witness :
  exists r,
    xor_nonce_with_seq [x00; x01; x02; x03; x04; x05; x06; x07; x08; x09; x0a; x0b]
                       0x0102030405060708 = Ret r /\
    xor_nonce_with_seq r 0x0102030405060708
    = Ret [x00; x01; x02; x03; x04; x05; x06; x07; x08; x09; x0a; x0b].
Proof.
  apply (xor_nonce_with_seq_involutive
           [x00; x01; x02; x03; x04; x05; x06; x07; x08; x09; x0a; x0b]
           0x0102030405060708).
  vm_compute. discriminate.
Defined.

(** X2: on the same nonce of 12 bytes or more, two 64-bit sequence
    numbers that differ give nonces that differ. *)
Theorem xor_nonce_with_seq_injective (nonce : list byte) (s t : Z) :
  12 <= len nonce ->
  0 <= s < 2 ^ 64 -> 0 <= t < 2 ^ 64 ->
  s <> t ->
  xor_nonce_with_seq nonce s <> xor_nonce_with_seq nonce t.
Proof.
  intros H Hs Ht Hne.
  destruct (twelve_bytes nonce H)
    as (n0 & n1 & n2 & n3 & n4 & n5 & n6 & n7 & n8 & n9 & n10 & n11 & tail & ->).
  rewrite !xor_nonce_with_seq_bytes.
  intros [= E4 E5 E6 E7 E8 E9 E10 E11]. apply Hne.
  apply x_inj in E4, E5, E6, E7, E8, E9, E10, E11.
  apply eight_bytes_inj; try assumption.
  intros k [<-|[<-|[<-|[<-|[<-|[<-|[<-|[<-|[]]]]]]]]]; assumption.
Qed.

Lemma xor_nonce_with_seq_injective_witness :
  xor_nonce_with_seq (repeat x00 12) 1 <> xor_nonce_with_seq (repeat x00 12) 256.
Proof.
  apply (xor_nonce_with_seq_injective (repeat x00 12) 1 256).
  - vm_compute. discriminate.
  - split; [discriminate | reflexivity].
  - split; [discriminate | reflexivity].
  - discriminate.
Defined.

(** X3: [xor_nonce_with_seq] needs a nonce of 12 bytes: on a shorter one
    it leaves the buffer.  On 12 bytes or more it keeps the length, the
    first four bytes and every byte from index 12 on, and the sequence
    number 0 leaves the nonce as it is. *)
Theorem xor_nonce_with_seq_frame (nonce : list byte) (seqNum : Z) :
  (len nonce < 12 -> xor_nonce_with_seq nonce seqNum = OutOfBounds) /\
  (12 <= len nonce ->
   xor_nonce_with_seq nonce 0 = Ret nonce /\
   exists r, xor_nonce_with_seq nonce seqNum = Ret r /\
             len r = len nonce /\
             firstn 4 r = firstn 4 nonce /\
             skipn 12 r = skipn 12 nonce).
Proof.
  split.
  - intros H. unfold xor_nonce_with_seq.
    repeat match goal with
    | |- bind (xor_byte ?p ?i ?v) _ = _ =>
        let E := fresh "E" in
        destruct (xor_byte p i v) eqn:E; cbn [bind];
        [ apply xor_byte_ret in E
        | reflexivity
        | exfalso; exact (xor_byte_fuel _ _ _ E) ]
    end.
    apply xor_byte_out. lia.
  - intros H.
    destruct (twelve_bytes nonce H)
      as (n0 & n1 & n2 & n3 & n4 & n5 & n6 & n7 & n8 & n9 & n10 & n11 & tail & ->).
    split.
    + rewrite xor_nonce_with_seq_bytes. rewrite !Z.shiftr_0_l, !x_zero. reflexivity.
    + eexists. split; [apply xor_nonce_with_seq_bytes|].
      split; [rewrite !len_cons; reflexivity|]. split; reflexivity.
Qed.

(** ** Copying and framing *)

Section FramingFacts.

Lemma slice_front (p : list byte) (n : Z) :
  0 <= n <= len p -> slice p 0 n = Ret (firstn (Z.to_nat n) p).
Proof.
  intros H. apply (slice_app [] p n H).
Qed.

Lemma slice_short (p : list byte) (off n : Z) :
  len p < off + n -> slice p off n = OutOfBounds.
Proof.
  intros H. unfold slice.
  replace (off + n <=? len p) with false by lia.
  rewrite andb_false_r. reflexivity.
Qed.

Lemma store_front (p src : list byte) :
  len src <= len p -> store p 0 src = Ret (src ++ skipn (List.length src) p).
Proof.
  intros H. apply (store_app [] p src H).
Qed.

Lemma store_short (p src : list byte) (off : Z) :
  len p < off + len src -> store p off src = OutOfBounds.
Proof.
  intros H. unfold store.
  replace (off + len src <=? len p) with false by lia.
  rewrite andb_false_r. reflexivity.
Qed.

Lemma firstn_app_exact (p q : list byte) : firstn (List.length p) (p ++ q) = p.
Proof.
  rewrite firstn_app, Nat.sub_diag, firstn_all. cbn [firstn]. apply app_nil_r.
Qed.

Lemma skipn_app_exact (p q : list byte) : skipn (List.length p) (p ++ q) = q.
Proof.
  rewrite skipn_app, Nat.sub_diag, skipn_all. reflexivity.
Qed.

End FramingFacts.

(** X4: [copy_payload] with [length] bytes available in both buffers puts
    the first [length] bytes of [src] at the front of [dst] and keeps the
    rest and the length of [dst]; when one of the two buffers is shorter
    than [length] the copy leaves it. *)
Theorem copy_payload_copies (dst src : list byte) (length : Z) :
  0 <= length ->
  (length <= len src -> length <= len dst ->
   exists r, copy_payload dst src length = Ret r /\
             len r = len dst /\
             firstn (Z.to_nat length) r = firstn (Z.to_nat length) src /\
             skipn (Z.to_nat length) r = skipn (Z.to_nat length) dst) /\
  (len src < length \/ len dst < length ->
   copy_payload dst src length = OutOfBounds).
Proof.
  intros Hn. split.
  - intros Hs Hd. unfold copy_payload.
    rewrite slice_front by lia. cbn [bind].
    assert (Hl : len (firstn (Z.to_nat length) src) = length)
      by (apply len_firstn; lia).
    assert (Hl' : List.length (firstn (Z.to_nat length) src) = Z.to_nat length)
      by (unfold len in Hl; lia).
    rewrite store_front by lia.
    set (bytes := firstn (Z.to_nat length) src) in *.
    eexists. split; [reflexivity|].
    split; [rewrite len_app, len_skipn, Hl, Hl'; lia|].
    rewrite <- Hl'. rewrite firstn_app_exact, skipn_app_exact.
    split; reflexivity.
  - intros [Hs|Hd]; unfold copy_payload.
    + rewrite slice_short by lia. reflexivity.
    + destruct (Z_lt_le_dec (len src) length).
      * rewrite slice_short by lia. reflexivity.
      * rewrite slice_front by lia. cbn [bind].
        apply store_short. rewrite len_firstn by lia. lia.
Qed.

Lemma copy_payload_copies_witness :
  (3 <= len [x01; x02; x03; x04] -> 3 <= len (repeat xff 5) ->
   exists r, copy_payload (repeat xff 5) [x01; x02; x03; x04] 3 = Ret r /\
             len r = len (repeat xff 5) /\
             firstn (Z.to_nat 3) r = firstn (Z.to_nat 3) [x01; x02; x03; x04] /\
             skipn (Z.to_nat 3) r = skipn (Z.to_nat 3) (repeat xff 5)) /\
  (len [x01; x02; x03; x04] < 3 \/ len (repeat xff 5) < 3 ->
   copy_payload (repeat xff 5) [x01; x02; x03; x04] 3 = OutOfBounds).
Proof.
  apply (copy_payload_copies (repeat xff 5) [x01; x02; x03; x04] 3).
  discriminate.
Defined.

(** X5: [frame_udp_payload] with a 16-bit [len], [len] bytes of payload
    and room for [2 + len] bytes writes the length, high byte first, and
    then the payload: the two bytes read back as [len], the next [len]
    bytes are the payload, and the rest and the length of [out] are kept.
    Without room for [2 + len] bytes the call leaves [out]. *)
Theorem frame_udp_payload_layout (out payload : list byte) (plen : Z) :
  0 <= plen < 65536 ->
  plen <= len payload ->
  (2 + plen <= len out ->
   exists r hi lo,
     frame_udp_payload out payload plen = Ret r /\
     len r = len out /\
     rd r 0 = Ret hi /\ rd r 1 = Ret lo /\ be16 hi lo = plen /\
     slice r 2 plen = slice payload 0 plen /\
     skipn (Z.to_nat (2 + plen)) r = skipn (Z.to_nat (2 + plen)) out) /\
  (len out < 2 + plen -> frame_udp_payload out payload plen = OutOfBounds).
Proof.
  intros Hp Hpay. split.
  - intros Hout. unfold frame_udp_payload.
    assert (Hl : len (firstn (Z.to_nat plen) payload) = plen)
      by (apply len_firstn; lia).
    assert (Hl' : List.length (firstn (Z.to_nat plen) payload) = Z.to_nat plen)
      by (unfold len in Hl; lia).
    change out with ([] ++ out) at 1.
    rewrite wr_seq by lens. cbn [bind].
    rewrite wr_seq by lens. cbn [bind].
    rewrite slice_front by lia. cbn [bind].
    set (bytes := firstn (Z.to_nat plen) payload) in *.
    rewrite store_seq by lens.
    rewrite !skipn_tail. cbn [app Nat.add].
    eexists _, _, _. split; [reflexivity|].
    split; [lens|].
    split; [apply rd_head; reflexivity|].
    split; [rewrite rd_cons by lia; apply rd_head; reflexivity|].
    rewrite to_u8_land.
    split; [apply be16_enc16; lia|].
    split.
    + rewrite !slice_cons by lia.
      rewrite slice_head by lia. reflexivity.
    + replace (Z.to_nat (2 + plen)) with (S (S (Z.to_nat plen))) by lia.
      cbn [skipn]. rewrite <- Hl'. apply skipn_app_exact.
  - intros Hout. unfold frame_udp_payload, wr.
    destruct (Z_lt_le_dec (len out) 1).
    { rewrite (store_short out) by (rewrite len_cons, len_nil; lia). reflexivity. }
    destruct (store_in out 0 [to_u8 (Z.shiftr plen 8)]) as (o1 & -> & Hl1);
      [lia | rewrite len_cons, len_nil; lia |].
    cbn [bind].
    destruct (Z_lt_le_dec (len out) 2).
    { rewrite (store_short o1) by (rewrite len_cons, len_nil; lia). reflexivity. }
    destruct (store_in o1 1 [to_u8 (Z.land plen 255)]) as (o2 & -> & Hl2);
      [lia | rewrite len_cons, len_nil; lia |].
    cbn [bind]. rewrite slice_front by lia. cbn [bind].
    apply store_short. rewrite len_firstn by lia. lia.
Qed.

Lemma frame_udp_payload_layout_witness :
  (2 + 3 <= len (repeat xff 6) ->
   exists r hi lo,
     frame_udp_payload (repeat xff 6) [x0a; x0b; x0c] 3 = Ret r /\
     len r = len (repeat xff 6) /\
     rd r 0 = Ret hi /\ rd r 1 = Ret lo /\ be16 hi lo = 3 /\
     slice r 2 3 = slice [x0a; x0b; x0c] 0 3 /\
     skipn (Z.to_nat (2 + 3)) r = skipn (Z.to_nat (2 + 3)) (repeat xff 6)) /\
  (len (repeat xff 6) < 2 + 3 ->
   frame_udp_payload (repeat xff 6) [x0a; x0b; x0c] 3 = OutOfBounds).
Proof.
  apply (frame_udp_payload_layout (repeat xff 6) [x0a; x0b; x0c] 3).
  - split; [discriminate | reflexivity].
  - discriminate.
Defined.

(** ** Record headers and inner plaintexts *)

(** X6: of a stream that starts with a TLS record whose body is shorter
    than [2^16] bytes, [parse_tls_header] reports "need more data" on a
    prefix of fewer than 5 bytes, and on every longer prefix the content
    type of the record and the length of its body, whether or not the body
    has arrived. *)
Theorem parse_tls_header_of_record (contentType v1 v2 : byte)
    (body rest : list byte) (n : nat) :
  len body < 65536 ->
  ((n < 5)%nat ->
   parse_tls_header (firstn n (tls_record contentType v1 v2 body ++ rest))
   = Ret None) /\
  ((5 <= n)%nat ->
   parse_tls_header (firstn n (tls_record contentType v1 v2 body ++ rest))
   = Ret (Some (contentType, len body))).
Proof.
  intros Hb. pose proof (len_nonneg body) as Hb0. split; intros Hn.
  - unfold parse_tls_header.
    assert (len (firstn n (tls_record contentType v1 v2 body ++ rest)) < 5)
      by (unfold len; rewrite length_firstn; lia).
    replace (_ <? 5) with true by lia. reflexivity.
  - do 5 (destruct n as [|n]; [lia|]).
    unfold tls_record, enc16. cbn [app firstn].
    unfold parse_tls_header. rewrite !len_cons.
    pose proof (len_nonneg (firstn n (body ++ rest))).
    replace (_ <? 5) with false by lia.
    rd_next. rewrite be16_enc16 by lia. reflexivity.
Qed.

Lemma parse_tls_header_of_record_witness :
  ((3 < 5)%nat ->
   parse_tls_header (firstn 3 (tls_record x17 x03 x03 [x01; x02] ++ [x17]))
   = Ret None) /\
  ((5 <= 5)%nat ->
   parse_tls_header (firstn 5 (tls_record x17 x03 x03 [x01; x02] ++ [x17]))
   = Ret (Some (x17, len [x01; x02]))).
Proof.
  split.
  - apply (parse_tls_header_of_record x17 x03 x03 [x01; x02] [x17] 3).
    vm_compute. reflexivity.
  - apply (parse_tls_header_of_record x17 x03 x03 [x01; x02] [x17] 5).
    vm_compute. reflexivity.
Defined.

Section PaddingFacts.

(** What the backward scan finds splits the buffer into content, content
    type and zeros. *)
Lemma backward_scan_from_split (l : list byte) :
  forall (j : Z) (b : byte),
  backward_scan_from (rev l) (len l - 1) = Some (j, b) ->
  0 <= j < len l /\ b <> x00 /\
  l = firstn (Z.to_nat j) l ++ b :: repeat x00 (List.length l - Z.to_nat j - 1).
Proof.
  induction l as [|a l IH] using rev_ind; intros j b H.
  - discriminate H.
  - rewrite rev_app_distr in H. cbn [rev app backward_scan_from] in H.
    rewrite len_app, len_cons, len_nil in H.
    pose proof (len_nonneg l) as Hl.
    destruct (Byte.eqb a x00) eqn:Ea.
    + apply Byte.byte_dec_bl in Ea. subst a.
      replace (len l + (1 + 0) - 1 - 1) with (len l - 1) in H by lia.
      destruct (IH j b H) as (Hj & Hb & Hsplit).
      rewrite len_app, len_cons, len_nil. split; [lia|]. split; [exact Hb|].
      assert (Hjn : (Z.to_nat j < List.length l)%nat) by (unfold len in Hj; lia).
      rewrite firstn_app.
      replace (Z.to_nat j - List.length l)%nat with 0%nat by lia.
      cbn [firstn]. rewrite app_nil_r.
      rewrite length_app. cbn [List.length].
      replace (List.length l + 1 - Z.to_nat j - 1)%nat
        with (S (List.length l - Z.to_nat j - 1)) by lia.
      cbn [repeat]. rewrite repeat_cons.
      rewrite app_comm_cons, app_assoc, <- Hsplit. reflexivity.
    + injection H as <- <-.
      rewrite len_app, len_cons, len_nil. split; [lia|]. split.
      * intros ->. discriminate Ea.
      * match goal with
        | |- context [Z.to_nat ?z] =>
            replace (Z.to_nat z) with (List.length l) by (unfold len; lia)
        end.
        rewrite firstn_app_exact, length_app. cbn [List.length].
        replace (List.length l + 1 - List.length l - 1)%nat with 0%nat by lia.
        reflexivity.
Qed.

End PaddingFacts.

(** X7: when [tls13_unwrap_content] returns a length [n] that is not
    negative, it has stored a content type that is not zero, and the
    buffer is [n] bytes of content, the content type, and zero bytes up to
    its end. *)
Theorem tls13_unwrap_content_padded (data : list byte) (n : Z) (ct : option byte) :
  tls13_unwrap_content data = Ret (n, ct) ->
  0 <= n ->
  exists c,
    ct = Some c /\ c <> x00 /\ n < len data /\
    data = firstn (Z.to_nat n) data ++
           c :: repeat x00 (List.length data - Z.to_nat n - 1).
Proof.
  intros H Hn. rewrite tls13_unwrap_content_scan in H.
  unfold backward_scan in H.
  destruct (backward_scan_from (rev data) (len data - 1)) as [[j b]|] eqn:E;
    cbn [scan_result] in H; injection H as <- <-; [|lia].
  destruct (backward_scan_from_split data j b E) as (Hj & Hb & Hsplit).
  exists b. split; [reflexivity|]. split; [exact Hb|]. split; [lia | exact Hsplit].
Qed.

Lemma tls13_unwrap_content_padded_witness :
  exists c,
    Some x17 = Some c /\ c <> x00 /\ 3 < len [x01; x02; x03; x17; x00; x00] /\
    [x01; x02; x03; x17; x00; x00] =
    firstn (Z.to_nat 3) [x01; x02; x03; x17; x00; x00] ++
    c :: repeat x00 (List.length [x01; x02; x03; x17; x00; x00] - Z.to_nat 3 - 1).
Proof.
  apply (tls13_unwrap_content_padded [x01; x02; x03; x17; x00; x00] 3 (Some x17)).
  - reflexivity.
  - discriminate.
Defined.

(** ** Queries in wire form *)

(** Lengths again, with every length of the goal known not to be negative. *)
Ltac len_facts :=
  repeat match goal with
  | |- context [len ?p] =>
      lazymatch goal with
      | H : 0 <= len p |- _ => fail
      | _ => pose proof (len_nonneg p)
      end
  end.

Ltac sizes :=
  repeat first [ rewrite len_app | rewrite len_cons | rewrite len_nil
               | rewrite len_skipn | rewrite len_repeat ];
  len_facts; unfold len in *; cbn [List.length]; lia.

Section WireFacts.

Lemma encode_qname_labels (labels : list (list byte)) :
  encode_qname labels = encode_labels labels ++ [x00].
Proof.
  induction labels as [|l ls IH]; [reflexivity|].
  cbn [encode_qname encode_labels flat_map app]. rewrite IH.
  rewrite <- app_assoc. reflexivity.
Qed.

Lemma encode_labels_app (a b : list (list byte)) :
  encode_labels (a ++ b) = encode_labels a ++ encode_labels b.
Proof. unfold encode_labels. apply flat_map_app. Qed.

Lemma encode_labels_cons (l : list byte) (ls : list (list byte)) :
  encode_labels (l :: ls) = to_u8 (len l) :: l ++ encode_labels ls.
Proof. reflexivity. Qed.

Lemma len_join_snoc (done : list (list byte)) (l : list byte) :
  len (join_labels (done ++ [l])) =
  match done with
  | [] => len l
  | _ => len (join_labels done) + 1 + len l
  end.
Proof.
  rewrite join_labels_snoc. destruct done; [reflexivity|].
  rewrite len_app, len_cons. lia.
Qed.

Lemma len_join_app_ge (done ls : list (list byte)) :
  len (join_labels done) <= len (join_labels (done ++ ls)).
Proof.
  induction ls as [|l ls IH] using rev_ind.
  - rewrite app_nil_r. lia.
  - rewrite app_assoc, len_join_snoc.
    pose proof (len_nonneg l).
    destruct (done ++ ls) eqn:E; [|lia].
    apply app_eq_nil in E. destruct E as [-> ->]. cbn [join_labels]. rewrite len_nil. lia.
Qed.

End WireFacts.

Section ForwardFacts.

Variables (cap odl : Z) (o0 : list byte).
Hypothesis Ho : len o0 = cap + 1.

(** The output buffer once the labels [done] are written. *)
Let W (done : list (list byte)) : list byte :=
  join_labels done ++ skipn (List.length (join_labels done)) o0.

(** One round of the QNAME loop on a label in wire form. *)
Lemma qname_loop_label (fuel : nat) (pre l suf : list byte) (done : list (list byte)) :
  label_ok l -> Forall label_ok done ->
  len (join_labels (done ++ [l])) <= cap ->
  qname_loop (S fuel) (pre ++ to_u8 (len l) :: l ++ suf) (W done) odl cap
             (len pre) (len (join_labels done))
  = qname_loop fuel (pre ++ to_u8 (len l) :: l ++ suf) (W (done ++ [l])) odl cap
               (len pre + 1 + len l) (len (join_labels (done ++ [l]))).
Proof.
  intros Hl Hdone Hcap. unfold label_ok in Hl.
  pose proof (len_nonneg pre) as Hpre. pose proof (len_nonneg suf) as Hsuf.
  pose proof (len_nonneg (join_labels done)) as Hj.
  cbn [qname_loop].
  replace (len pre <? len (pre ++ to_u8 (len l) :: l ++ suf)) with true by lens.
  rewrite rd_middle. cbn [bind].
  rewrite u8_small by lia.
  replace (len l =? 0) with false by lia.
  rewrite label_length_low by lia. cbn [Z.eqb negb].
  replace (len pre + 1 + len l >? len (pre ++ to_u8 (len l) :: l ++ suf)) with false by lens.
  assert (Hslice : slice (pre ++ to_u8 (len l) :: l ++ suf) (len pre + 1) (len l) = Ret l).
  { replace (pre ++ to_u8 (len l) :: l ++ suf) with ((pre ++ [to_u8 (len l)]) ++ l ++ suf)
      by (rewrite <- app_assoc; reflexivity).
    rewrite slice_skip by lens.
    apply slice_head; lens. }
  rewrite len_join_snoc in Hcap.
  destruct (0 <? len (join_labels done)) eqn:Epos.
  - assert (Hne : done <> []) by (intros ->; cbn [join_labels] in Epos; rewrite len_nil in Epos; lia).
    assert (Hcap' : len (join_labels done) + 1 + len l <= cap) by (destruct done; [congruence | exact Hcap]).
    replace (len (join_labels done) >=? cap) with false by lia. cbn [andb].
    unfold W at 1. rewrite wr_seq by lens. cbn [bind].
    replace (len (join_labels done) + 1 + len l >? cap) with false by lia.
    rewrite Hslice. cbn [bind].
    rewrite store_seq by lens. cbn [bind].
    f_equal.
    + unfold W. rewrite join_labels_snoc. destruct done; [congruence|].
      rewrite <- !app_assoc. cbn [app]. rewrite !skipn_tail.
      do 3 f_equal. apply (f_equal (fun n => skipn n o0)).
      rewrite !length_app. cbn [List.length]. lia.
    + rewrite len_join_snoc. destruct done; [congruence | lia].
  - assert (Hnil : done = []).
    { apply join_labels_empty; [assumption | lia]. }
    subst done. cbn [andb]. cbn [join_labels app] in *. rewrite len_nil. cbn [bind].
    replace (0 + len l >? cap) with false by lia.
    rewrite Hslice. cbn [bind].
    unfold W. cbn [join_labels List.length skipn app].
    rewrite store_front by lia. cbn [bind].
    reflexivity.
Qed.

(** The loop walks the labels of a query in wire form one by one. *)
Lemma qname_loop_labels (ls : list (list byte)) :
  forall (fuel : nat) (pre suf : list byte) (done : list (list byte)),
  Forall label_ok ls -> Forall label_ok done ->
  len (join_labels (done ++ ls)) <= cap ->
  qname_loop (List.length ls + fuel) (pre ++ encode_labels ls ++ suf) (W done) odl cap
             (len pre) (len (join_labels done))
  = qname_loop fuel (pre ++ encode_labels ls ++ suf) (W (done ++ ls)) odl cap
               (len pre + len (encode_labels ls)) (len (join_labels (done ++ ls))).
Proof.
  induction ls as [|l ls IH]; intros fuel pre suf done Hls Hdone Hcap.
  - cbn [encode_labels flat_map List.length Nat.add app]. rewrite app_nil_r, len_nil.
    f_equal. lia.
  - inversion Hls as [|? ? Hl Hls']; subst.
    rewrite encode_labels_cons. cbn [List.length Nat.add app]. rewrite <- ?app_assoc.
    assert (Hcap1 : len (join_labels (done ++ [l])) <= cap).
    { pose proof (len_join_app_ge (done ++ [l]) ls) as H.
      rewrite <- app_assoc in H. cbn [app] in H. lia. }
    rewrite qname_loop_label by assumption.
    pose proof (IH fuel (pre ++ to_u8 (len l) :: l) suf (done ++ [l])) as H.
    rewrite <- !app_assoc in H. cbn [app] in H.
    replace (len (pre ++ to_u8 (len l) :: l)) with (len pre + 1 + len l) in H by lens.
    rewrite H.
    + f_equal. lens.
    + assumption.
    + apply Forall_app. split; [assumption|]. constructor; [assumption | constructor].
    + assumption.
Qed.

End ForwardFacts.

Section ParseFacts.

Lemma length_encode_labels_ge (ls : list (list byte)) :
  (List.length ls <= List.length (encode_labels ls))%nat.
Proof.
  induction ls as [|l ls IH]; [cbn; lia|].
  rewrite encode_labels_cons. cbn [List.length]. rewrite length_app. lia.
Qed.

Lemma app_same_length (l l' a b : list byte) :
  List.length l = List.length l' -> l ++ a = l' ++ b -> l = l' /\ a = b.
Proof.
  intros Hl H. split.
  - apply (f_equal (firstn (List.length l))) in H.
    rewrite firstn_app_exact in H. rewrite Hl, firstn_app_exact in H. exact H.
  - apply (f_equal (skipn (List.length l))) in H.
    rewrite skipn_app_exact in H. rewrite Hl, skipn_app_exact in H. exact H.
Qed.

(** A QNAME has one reading. *)
Lemma encode_qname_inj (labels : list (list byte)) :
  forall (labels' : list (list byte)) (rest rest' : list byte),
  Forall label_ok labels -> Forall label_ok labels' ->
  encode_qname labels ++ rest = encode_qname labels' ++ rest' ->
  labels = labels'.
Proof.
  induction labels as [|l ls IH]; intros [|l' ls'] rest rest' Hl Hl' H.
  - reflexivity.
  - exfalso. inversion Hl' as [|? ? Hok _]; subst. unfold label_ok in Hok.
    cbn [encode_qname app] in H. injection H as H _.
    apply (f_equal u8) in H. rewrite u8_small in H by lia. cbn in H. lia.
  - exfalso. inversion Hl as [|? ? Hok _]; subst. unfold label_ok in Hok.
    cbn [encode_qname app] in H. injection H as H _.
    apply (f_equal u8) in H. rewrite u8_small in H by lia. cbn in H. lia.
  - inversion Hl as [|? ? Hok Hls]; subst. inversion Hl' as [|? ? Hok' Hls']; subst.
    unfold label_ok in Hok, Hok'.
    cbn [encode_qname app] in H. injection H as Hb H.
    apply (f_equal u8) in Hb. rewrite !u8_small in Hb by lia.
    rewrite <- !app_assoc in H.
    destruct (app_same_length l l' _ _ ltac:(unfold len in Hb; lia) H) as [-> H'].
    f_equal. exact (IH ls' rest rest' Hls Hls' H').
Qed.

(** The QNAME loop and the code behind it return 0 or 1. *)
Lemma finish_query_ret (data o : list byte) (odl offset pos : Z) (r : query_result) :
  finish_query data o odl offset pos = Ret r -> q_ret r = 0 \/ q_ret r = 1.
Proof.
  unfold finish_query. intros H.
  repeat match type of H with
  | context [if ?c then _ else _] => destruct c
  | context [bind ?c _] => destruct c; cbn [bind] in H
  end; try discriminate; injection H as <-; cbn; auto.
Qed.

Lemma qname_loop_ret (fuel : nat) :
  forall (data o : list byte) (odl cap offset pos : Z) (r : query_result),
  qname_loop fuel data o odl cap offset pos = Ret r -> q_ret r = 0 \/ q_ret r = 1.
Proof.
  induction fuel as [|fuel IH]; intros data o odl cap offset pos r H;
    cbn [qname_loop] in H.
  - destruct (offset <? len data); [discriminate|]. exact (finish_query_ret _ _ _ _ _ _ H).
  - destruct (offset <? len data); [|exact (finish_query_ret _ _ _ _ _ _ H)].
    destruct (rd data offset) as [b| |]; cbn [bind] in H; try discriminate.
    destruct (u8 b =? 0); [exact (finish_query_ret _ _ _ _ _ _ H)|].
    destruct (negb _); [injection H as <-; cbn; auto|].
    destruct (_ >? _); [injection H as <-; cbn; auto|].
    destruct (_ && _); [injection H as <-; cbn; auto|].
    destruct (0 <? pos).
    + destruct (wr o pos dot); cbn [bind] in H; try discriminate.
      destruct (_ >? _); [injection H as <-; cbn; auto|].
      destruct (slice _ _ _); cbn [bind] in H; try discriminate.
      destruct (store _ _ _); cbn [bind] in H; try discriminate.
      exact (IH _ _ _ _ _ _ _ H).
    + cbn [bind] in H.
      destruct (_ >? _); [injection H as <-; cbn; auto|].
      destruct (slice _ _ _); cbn [bind] in H; try discriminate.
      destruct (store _ _ _); cbn [bind] in H; try discriminate.
      exact (IH _ _ _ _ _ _ _ H).
Qed.

Lemma parse_dns_query_ext_ret (data outDomain : list byte) (r : query_result) :
  parse_dns_query_ext data outDomain = Ret r -> q_ret r = 0 \/ q_ret r = 1.
Proof.
  unfold parse_dns_query_ext. intros H.
  destruct (_ || _); [injection H as <-; cbn; auto|].
  destruct (rd data 4); cbn [bind] in H; try discriminate.
  destruct (rd data 5); cbn [bind] in H; try discriminate.
  destruct (_ =? 0); [injection H as <-; cbn; auto|].
  exact (qname_loop_ret _ _ _ _ _ _ _ _ H).
Qed.

(** The call on a header and labels in wire form: the loop has walked
    the labels when it meets the byte behind them. *)
Lemma parse_dns_query_ext_labels (header : list byte) (labels : list (list byte))
    (suf outDomain : list byte) :
  len header = 12 ->
  be16 (nth 4 header x00) (nth 5 header x00) <> 0 ->
  Forall label_ok labels ->
  len (join_labels labels) < len outDomain ->
  suf <> [] ->
  exists fuel,
    parse_dns_query_ext (header ++ encode_labels labels ++ suf) outDomain
    = qname_loop (S fuel) (header ++ encode_labels labels ++ suf)
        (join_labels labels ++ skipn (List.length (join_labels labels)) outDomain)
        (len outDomain) (len outDomain - 1)
        (12 + len (encode_labels labels)) (len (join_labels labels)).
Proof.
  intros Hh Hqd Hok Hcap Hsuf.
  pose proof (len_nonneg (join_labels labels)).
  pose proof (len_nonneg (encode_labels labels)).
  pose proof (len_nonneg suf).
  unfold parse_dns_query_ext.
  replace (len (header ++ encode_labels labels ++ suf) <? 12) with false by sizes.
  replace (len outDomain =? 0) with false by lia. cbn [orb].
  rewrite !rd_app_l by lia. rewrite !rd_in by lia. cbn [bind].
  change (Z.to_nat 4) with 4%nat. change (Z.to_nat 5) with 5%nat.
  replace (_ =? 0) with false by lia.
  assert (Hfuel : exists k, List.length (header ++ encode_labels labels ++ suf)
                            = (List.length labels + S k)%nat).
  { pose proof (length_encode_labels_ge labels).
    destruct suf; [congruence|].
    exists (List.length header + (List.length (encode_labels labels) - List.length labels)
            + List.length suf)%nat.
    rewrite !length_app. cbn [List.length]. lia. }
  destruct Hfuel as (k & ->). exists k.
  pose proof (qname_loop_labels (len outDomain - 1) (len outDomain) outDomain
                ltac:(lia) labels (S k) header suf [] Hok (Forall_nil _)) as H'.
  cbn [app join_labels List.length] in H'.
  change (skipn 0 outDomain) with outDomain in H'.
  rewrite len_nil, Hh in H'. rewrite H' by lia. reflexivity.
Qed.

End ParseFacts.

(** The call on a query in wire form. *)
Lemma parse_dns_query_ext_of_query_eq (header : list byte)
    (labels : list (list byte)) (qtype qclass : Z) (rest outDomain : list byte) :
  len header = 12 ->
  be16 (nth 4 header x00) (nth 5 header x00) <> 0 ->
  labels <> [] -> Forall label_ok labels ->
  0 <= qtype < 65536 ->
  len (join_labels labels) < len outDomain ->
  parse_dns_query_ext (dns_query header labels qtype qclass rest) outDomain
  = Ret (mk_query_result 1
           (join_labels labels ++ x00 ::
              skipn (S (List.length (join_labels labels))) outDomain)
           (len (join_labels labels)) (Some qtype)).
Proof.
  intros Hh Hqd Hne Hok Hqt Hcap. unfold dns_query.
  rewrite encode_qname_labels, <- app_assoc.
  destruct (parse_dns_query_ext_labels header labels
              ([x00] ++ enc16 qtype ++ enc16 qclass ++ rest) outDomain)
    as (fuel & ->); try assumption; [discriminate|].
  pose proof (len_nonneg (encode_labels labels)) as He.
  assert (Hpos : 1 <= len (join_labels labels)).
  { destruct labels as [|d ds]; [congruence|].
    inversion Hok; subst. apply join_labels_pos. assumption. }
  unfold enc16. cbn [app qname_loop].
  replace (_ <? _) with true by sizes.
  rd_next. change (u8 x00 =? 0) with true. cbv iota.
  unfold finish_query.
  replace (_ =? 0) with false by lia.
  rewrite wr_seq by sizes. cbn [bind].
  replace (_ >? _) with false by sizes.
  rd_next.
  rewrite be16_enc16 by lia.
  rewrite <- app_assoc. cbn [app]. rewrite skipn_tail.
  replace (List.length (join_labels labels) + 1)%nat
    with (S (List.length (join_labels labels))) by lia.
  reflexivity.
Qed.

(** X8: a query in wire form, with a header of 12 bytes whose QDCOUNT
    is not zero and one label or more of 1 to 63 bytes each, parses when
    the dotted name and its NUL fit the buffer: [parse_dns_query_ext]
    returns 1, writes the labels joined by dots and a NUL, keeps the bytes
    of the buffer behind them, and stores the length of the name and the
    QTYPE. *)
Theorem parse_dns_query_ext_of_query (header : list byte)
    (labels : list (list byte)) (qtype qclass : Z) (rest outDomain : list byte) :
  len header = 12 ->
  be16 (nth 4 header x00) (nth 5 header x00) <> 0 ->
  labels <> [] -> Forall label_ok labels ->
  0 <= qtype < 65536 ->
  len (join_labels labels) < len outDomain ->
  parse_dns_query_ext (dns_query header labels qtype qclass rest) outDomain
  = Ret (mk_query_result 1
           (join_labels labels ++ x00 ::
              skipn (S (List.length (join_labels labels))) outDomain)
           (len (join_labels labels)) (Some qtype)).
Proof.
  apply parse_dns_query_ext_of_query_eq.
Qed.

Lemma parse_dns_query_ext_of_query_witness :
  parse_dns_query_ext
    (dns_query [x12; x34; x01; x00; x00; x01; x00; x00; x00; x00; x00; x00]
               [cstr "example"; cstr "com"] 28 1 [])
    (repeat xff 16)
  = Ret (mk_query_result 1
           (join_labels [cstr "example"; cstr "com"] ++ x00 ::
              skipn (S (List.length (join_labels [cstr "example"; cstr "com"])))
                    (repeat xff 16))
           (len (join_labels [cstr "example"; cstr "com"])) (Some 28)).
Proof.
  apply (parse_dns_query_ext_of_query
           [x12; x34; x01; x00; x00; x01; x00; x00; x00; x00; x00; x00]
           [cstr "example"; cstr "com"] 28 1 [] (repeat xff 16)).
  - reflexivity.
  - vm_compute. discriminate.
  - discriminate.
  - repeat constructor; vm_compute; discriminate.
  - split; [discriminate | reflexivity].
  - vm_compute. reflexivity.
Defined.

(** X9: a query in wire form does not parse when the dotted name and
    its NUL do not fit the buffer: [parse_dns_query_ext] returns 0. *)
Theorem parse_dns_query_ext_name_too_long (header : list byte)
    (labels : list (list byte)) (qtype qclass : Z) (rest outDomain : list byte) :
  len header = 12 ->
  Forall label_ok labels ->
  len outDomain <= len (join_labels labels) ->
  exists r,
    parse_dns_query_ext (dns_query header labels qtype qclass rest) outDomain = Ret r /\
    q_ret r = 0.
Proof.
  intros Hh Hok Hcap.
  destruct (parse_dns_query_ext_spec (dns_query header labels qtype qclass rest) outDomain)
    as (r & Hr & Hs).
  exists r. split; [exact Hr|].
  destruct (parse_dns_query_ext_ret _ _ _ Hr) as [H0|H1]; [exact H0|].
  exfalso. destruct (Hs H1) as (labels' & rest' & Hd & Hok' & _ & _ & Hfit & _).
  unfold dns_query in Hd.
  assert (Hsk : skipn 12 (header ++ encode_qname labels ++ enc16 qtype ++ enc16 qclass ++ rest)
                = encode_qname labels ++ enc16 qtype ++ enc16 qclass ++ rest).
  { replace 12%nat with (List.length header) by (unfold len in Hh; lia).
    apply skipn_app_exact. }
  rewrite Hsk in Hd.
  pose proof (encode_qname_inj labels labels' _ _ Hok Hok' Hd) as <-.
  lia.
Qed.

Lemma parse_dns_query_ext_name_too_long_witness :
  exists r,
    parse_dns_query_ext
      (dns_query [x12; x34; x01; x00; x00; x01; x00; x00; x00; x00; x00; x00]
                 [cstr "example"; cstr "com"] 1 1 [])
      (repeat xff 11) = Ret r /\
    q_ret r = 0.
Proof.
  apply (parse_dns_query_ext_name_too_long
           [x12; x34; x01; x00; x00; x01; x00; x00; x00; x00; x00; x00]
           [cstr "example"; cstr "com"] 1 1 [] (repeat xff 11)).
  - reflexivity.
  - repeat constructor; vm_compute; discriminate.
  - vm_compute. discriminate.
Defined.

(** X10: [parse_dns_query_ext] refuses a compression pointer in the
    QNAME: when the labels are followed by a byte with one of its two top
    bits set, it returns 0 and leaves [*outDomainLen] as it was; the labels
    in front of the pointer have been written to the buffer by then. *)
Theorem parse_dns_query_ext_rejects_pointer (header : list byte)
    (labels : list (list byte)) (b : byte) (rest outDomain : list byte) :
  len header = 12 ->
  be16 (nth 4 header x00) (nth 5 header x00) <> 0 ->
  Forall label_ok labels ->
  len (join_labels labels) < len outDomain ->
  Z.land (u8 b) 0xC0 <> 0 ->
  parse_dns_query_ext (header ++ encode_labels labels ++ b :: rest) outDomain
  = Ret (mk_query_result 0
           (join_labels labels ++ skipn (List.length (join_labels labels)) outDomain)
           (len outDomain) None).
Proof.
  intros Hh Hqd Hok Hcap Hb.
  destruct (parse_dns_query_ext_labels header labels (b :: rest) outDomain)
    as (fuel & ->); try assumption; [discriminate|].
  pose proof (len_nonneg (encode_labels labels)) as He.
  pose proof (len_nonneg rest).
  cbn [qname_loop].
  replace (_ <? _) with true by sizes.
  rd_next.
  assert (Hnz : u8 b <> 0) by (intros E; rewrite E in Hb; apply Hb; reflexivity).
  replace (u8 b =? 0) with false by lia.
  replace (Z.land (u8 b) 192 =? 0) with false by lia.
  reflexivity.
Qed.

Lemma parse_dns_query_ext_rejects_pointer_witness :
  parse_dns_query_ext
    ([x12; x34; x01; x00; x00; x01; x00; x00; x00; x00; x00; x00]
       ++ encode_labels [cstr "www"] ++ xc0 :: [x0c; x00; x01; x00; x01])
    (repeat xff 8)
  = Ret (mk_query_result 0
           (join_labels [cstr "www"] ++
              skipn (List.length (join_labels [cstr "www"])) (repeat xff 8))
           (len (repeat xff 8)) None).
Proof.
  apply (parse_dns_query_ext_rejects_pointer
           [x12; x34; x01; x00; x00; x01; x00; x00; x00; x00; x00; x00]
           [cstr "www"] xc0 [x0c; x00; x01; x00; x01] (repeat xff 8)).
  - reflexivity.
  - vm_compute. discriminate.
  - repeat constructor; vm_compute; discriminate.
  - vm_compute. reflexivity.
  - vm_compute. discriminate.
Defined.

(** ** Responses *)

Section ResponseFacts.

Lemma wr_at (pre post : list byte) (old b : byte) (i : Z) :
  i = len pre -> wr (pre ++ old :: post) i b = Ret (pre ++ b :: post).
Proof.
  intros ->. rewrite wr_app by (rewrite len_cons; pose proof (len_nonneg post); lia).
  reflexivity.
Qed.

(** The QNAME loop of [generate_dns_response] walks labels in wire form. *)
Lemma skip_qname_labels (ls : list (list byte)) :
  forall (fuel : nat) (pre suf : list byte),
  Forall label_ok ls ->
  skip_qname (List.length ls + fuel) (pre ++ encode_labels ls ++ suf) (len pre)
  = skip_qname fuel (pre ++ encode_labels ls ++ suf) (len pre + len (encode_labels ls)).
Proof.
  induction ls as [|l ls IH]; intros fuel pre suf Hls.
  - cbn [encode_labels flat_map List.length Nat.add app]. rewrite len_nil.
    f_equal. lia.
  - inversion Hls as [|? ? Hl Hls']; subst. unfold label_ok in Hl.
    rewrite encode_labels_cons. cbn [List.length Nat.add app skip_qname].
    rewrite <- ?app_assoc.
    replace (_ <? _) with true by sizes.
    rewrite rd_middle. cbn [bind].
    rewrite u8_small by lia.
    replace (len l =? 0) with false by lia.
    rewrite label_length_low by lia. cbn [Z.eqb negb].
    pose proof (IH fuel (pre ++ to_u8 (len l) :: l) suf Hls') as H.
    rewrite <- !app_assoc in H. cbn [app] in H.
    replace (len (pre ++ to_u8 (len l) :: l)) with (len pre + 1 + len l) in H by sizes.
    rewrite H. f_equal. sizes.
Qed.

(** The end of the question of a query in wire form. *)
Lemma skip_qname_of_query (header : list byte) (labels : list (list byte))
    (qtype qclass : Z) (rest : list byte) :
  len header = 12 -> Forall label_ok labels ->
  skip_qname (List.length (dns_query header labels qtype qclass rest))
             (dns_query header labels qtype qclass rest) 12
  = Ret (12 + len (encode_qname labels)).
Proof.
  intros Hh Hok. unfold dns_query.
  rewrite encode_qname_labels, <- app_assoc.
  set (suf := [x00] ++ enc16 qtype ++ enc16 qclass ++ rest).
  assert (Hfuel : exists k, List.length (header ++ encode_labels labels ++ suf)
                            = (List.length labels + S k)%nat).
  { pose proof (length_encode_labels_ge labels).
    exists (List.length header + (List.length (encode_labels labels) - List.length labels)
            + List.length (enc16 qtype ++ enc16 qclass ++ rest))%nat.
    unfold suf. rewrite !length_app. cbn [List.length]. lia. }
  destruct Hfuel as (k & ->).
  replace 12 with (len header) at 1 by lia.
  rewrite skip_qname_labels by assumption.
  unfold suf. cbn [app skip_qname].
  replace (_ <? _) with true by sizes.
  pose proof (len_nonneg (encode_labels labels)).
  rd_next. change (u8 x00 =? 0) with true. cbv iota.
  f_equal. sizes.
Qed.

End ResponseFacts.

(** The header writes of [generate_dns_response] on a buffer whose first
    12 bytes are known. *)
Ltac header_writes :=
  repeat match goal with
  | |- context [wr ?l ?i ?b] =>
      let k := eval cbv in (Z.to_nat i) in
      let pre := eval cbv [firstn] in (firstn k l) in
      match eval cbv [skipn] in (skipn k l) with
      | ?old :: ?post =>
          let E := fresh "E" in
          pose proof (wr_at pre post old b i eq_refl) as E;
          cbn [app] in E; rewrite E; clear E; cbn [bind]
      end
  end.

Lemma len_question (labels : list (list byte)) (qt qc : Z) :
  len (encode_qname labels ++ enc16 qt ++ enc16 qc) = len (encode_qname labels) + 4.
Proof. unfold enc16. sizes. Qed.

Section ResponseLayout.

Variables (header : list byte) (labels : list (list byte)) (qt qc : Z)
          (rest outBuf : list byte).
Hypothesis Hh : len header = 12.
Hypothesis Hok : Forall label_ok labels.
Hypothesis Hmax : len outBuf <= INT_MAX.

Let question : list byte := encode_qname labels ++ enc16 qt ++ enc16 qc.

(** The common start of both branches: the header and the question are
    copied and the flags and counts are set. *)
Lemma response_start (ancount : byte) (k : list byte -> outcome (Z * list byte)) :
  12 + len question <= len outBuf ->
  (question' <- slice (dns_query header labels qt qc rest) 0
                  (12 + len (encode_qname labels) + 4) ;;
   outBuf' <- store outBuf 0 question' ;;
   outBuf' <- wr outBuf' 2 x85 ;;
   outBuf' <- wr outBuf' 3 x80 ;;
   outBuf' <- wr outBuf' 6 x00 ;;
   outBuf' <- wr outBuf' 7 ancount ;;
   outBuf' <- wr outBuf' 8 x00 ;;
   outBuf' <- wr outBuf' 9 x00 ;;
   outBuf' <- wr outBuf' 10 x00 ;;
   outBuf' <- wr outBuf' 11 x00 ;;
   k outBuf')
  = k ((response_header header ancount ++ question)
         ++ skipn (Z.to_nat (12 + len question)) outBuf).
Proof.
  intros Hroom. pose proof (len_question labels qt qc) as Hq. fold question in Hq.
  assert (Hdata : dns_query header labels qt qc rest = (header ++ question) ++ rest).
  { unfold dns_query, question. rewrite <- !app_assoc. reflexivity. }
  rewrite Hdata.
  rewrite slice_head by sizes. cbn [bind].
  rewrite store_front by sizes. cbn [bind].
  replace (List.length (header ++ question)) with (Z.to_nat (12 + len question))
    by (rewrite length_app; unfold len in *; lia).
  set (tail := skipn _ outBuf).
  destruct (twelve_bytes header ltac:(lia))
    as (h0 & h1 & h2 & h3 & h4 & h5 & h6 & h7 & h8 & h9 & h10 & h11 & t & ->).
  assert (t = []) as -> by (apply len_zero; rewrite !len_cons in Hh; lia).
  clearbody tail. clear Hdata. set (Q := question) in *. clearbody Q.
  cbn [app]. header_writes. reflexivity.
Qed.

End ResponseLayout.

Section ResponseResults.

Lemma slice_all (p : list byte) : slice p 0 (len p) = Ret p.
Proof.
  pose proof (slice_whole_prefix p []) as H. rewrite app_nil_r in H. exact H.
Qed.

Lemma len_response_header (header : list byte) (ancount : byte) :
  len header = 12 -> len (response_header header ancount) = 12.
Proof.
  intros Hh.
  destruct (twelve_bytes header ltac:(lia))
    as (h0 & h1 & h2 & h3 & h4 & h5 & h6 & h7 & h8 & h9 & h10 & h11 & t & ->).
  reflexivity.
Qed.

Lemma len_dns_query (header : list byte) (labels : list (list byte))
    (qt qc : Z) (rest : list byte) :
  len (dns_query header labels qt qc rest)
  = len header + len (encode_qname labels) + 4 + len rest.
Proof. unfold dns_query, enc16. sizes. Qed.

Lemma generate_dns_response_nodata_eq (header : list byte)
    (labels : list (list byte)) (qt qc : Z) (rest : list byte)
    (fakeIP : option (list byte)) (qtype : Z) (outBuf : list byte) :
  len header = 12 -> Forall label_ok labels -> len outBuf <= INT_MAX ->
  fakeIP = None \/ (qtype <> 1 /\ qtype <> 28) ->
  12 + len (encode_qname labels) + 4 <= len outBuf ->
  generate_dns_response (dns_query header labels qt qc rest) fakeIP qtype outBuf
  = Ret (12 + len (encode_qname labels) + 4,
         response_header header x00 ++ encode_qname labels ++ enc16 qt ++ enc16 qc
           ++ skipn (Z.to_nat (12 + len (encode_qname labels) + 4)) outBuf).
Proof.
  intros Hh Hok Hmax Hno Hroom.
  pose proof (len_nonneg (encode_qname labels)) as Hq.
  pose proof (len_nonneg rest) as Hr.
  unfold generate_dns_response.
  rewrite skip_qname_of_query by assumption.
  rewrite len_dns_query.
  replace (_ <? 12) with false by lia. cbn [bind]. cbv zeta.
  replace (_ >? _) with false by lia.
  assert (Hsel : match fakeIP with
                 | Some _ => if qtype =? 1 then (4, 1)
                             else if qtype =? 28 then (16, 28) else (0, 0)
                 | None => (0, 0)
                 end = (0, 0)).
  { destruct Hno as [->|[H1 H28]]; [reflexivity|].
    destruct fakeIP; [|reflexivity].
    replace (qtype =? 1) with false by lia.
    replace (qtype =? 28) with false by lia. reflexivity. }
  rewrite Hsel. cbv iota beta.
  change (0 <? 0) with false. cbv iota.
  replace (_ <? _) with false by lia.
  rewrite (response_start header labels qt qc rest outBuf Hh x00
             (fun b => Ret (to_int (12 + len (encode_qname labels) + 4), b))).
  2:{ rewrite len_question. lia. }
  rewrite len_question.
  rewrite to_int_small by (unfold INT_MAX in *; lia).
  rewrite <- !app_assoc.
  replace (12 + (len (encode_qname labels) + 4)) with (12 + len (encode_qname labels) + 4)
    by lia.
  reflexivity.
Qed.

Lemma generate_dns_response_answer_eq (header : list byte)
    (labels : list (list byte)) (qt qc : Z) (rest ip : list byte)
    (qtype : Z) (outBuf : list byte) :
  len header = 12 -> Forall label_ok labels -> len outBuf <= INT_MAX ->
  (qtype = 1 /\ len ip = 4) \/ (qtype = 28 /\ len ip = 16) ->
  12 + len (encode_qname labels) + 4 + 12 + len ip <= len outBuf ->
  generate_dns_response (dns_query header labels qt qc rest) (Some ip) qtype outBuf
  = Ret (12 + len (encode_qname labels) + 4 + 12 + len ip,
         response_header header x01 ++ encode_qname labels ++ enc16 qt ++ enc16 qc
           ++ answer_record qtype ip
           ++ skipn (Z.to_nat (12 + len (encode_qname labels) + 4 + 12 + len ip)) outBuf).
Proof.
  intros Hh Hok Hmax Hsel Hroom.
  pose proof (len_nonneg (encode_qname labels)) as Hq.
  pose proof (len_nonneg rest) as Hr.
  unfold generate_dns_response.
  rewrite skip_qname_of_query by assumption.
  rewrite len_dns_query.
  replace (_ <? 12) with false by lia. cbn [bind]. cbv zeta.
  replace (_ >? _) with false by lia.
  assert (Hpair : (if qtype =? 1 then (4, 1)
                   else if qtype =? 28 then (16, 28) else (0, 0))
                  = (len ip, qtype)).
  { destruct Hsel as [[-> ->]|[-> ->]]; reflexivity. }
  rewrite Hpair. cbv iota beta.
  replace (0 <? len ip) with true by lia.
  replace (_ <? _) with false by lia.
  assert (Hhi : to_u8 (Z.shiftr qtype 8) = x00 /\ to_u8 (Z.shiftr (len ip) 8) = x00).
  { destruct Hsel as [[-> ->]|[-> ->]]; split; reflexivity. }
  destruct Hhi as [Ht Hl].
  pose proof (len_response_header header x01 Hh) as Hrh.
  pose proof (len_question labels qt qc) as Hlq.
  rewrite (response_start header labels qt qc rest outBuf Hh x01
             (fun b =>
                b <- wr b (12 + len (encode_qname labels) + 4 + 0) xc0 ;;
                b <- wr b (12 + len (encode_qname labels) + 4 + 1) x0c ;;
                b <- wr b (12 + len (encode_qname labels) + 4 + 2) (to_u8 (Z.shiftr qtype 8)) ;;
                b <- wr b (12 + len (encode_qname labels) + 4 + 3) (to_u8 (Z.land qtype 255)) ;;
                b <- wr b (12 + len (encode_qname labels) + 4 + 4) x00 ;;
                b <- wr b (12 + len (encode_qname labels) + 4 + 5) x01 ;;
                b <- wr b (12 + len (encode_qname labels) + 4 + 6) x00 ;;
                b <- wr b (12 + len (encode_qname labels) + 4 + 7) x00 ;;
                b <- wr b (12 + len (encode_qname labels) + 4 + 8) x00 ;;
                b <- wr b (12 + len (encode_qname labels) + 4 + 9) x01 ;;
                b <- wr b (12 + len (encode_qname labels) + 4 + 10) (to_u8 (Z.shiftr (len ip) 8)) ;;
                b <- wr b (12 + len (encode_qname labels) + 4 + 11) (to_u8 (Z.land (len ip) 255)) ;;
                rdata <- slice ip 0 (len ip) ;;
                b <- store b (12 + len (encode_qname labels) + 4 + 12) rdata ;;
                Ret (to_int (12 + len (encode_qname labels) + 4 + (12 + len ip)), b))).
  2:{ rewrite Hlq. lia. }
  cbv beta.
  set (Q := encode_qname labels ++ enc16 qt ++ enc16 qc) in *.
  set (H' := response_header header x01) in *.
  set (tail := skipn _ outBuf).
  assert (Htail : len tail = len outBuf - (12 + len Q)).
  { unfold tail. rewrite len_skipn. lia. }
  do 12 (rewrite wr_seq by sizes; cbn [bind]).
  rewrite slice_all. cbn [bind].
  rewrite store_seq by sizes. cbn [bind].
  rewrite to_int_small by (unfold INT_MAX in *; lia).
  rewrite Ht, Hl, !to_u8_land.
  f_equal. f_equal; [lia|].
  subst Q H' tail.
  rewrite (len_question labels qt qc).
  unfold answer_record, enc16. rewrite Ht, Hl.
  rewrite <- !app_assoc. cbn [app]. rewrite !skipn_tail.
  do 19 f_equal.
  apply (f_equal (fun n => skipn n outBuf)).
  unfold len in *. lia.
Qed.

End ResponseResults.

(** X11: for a query in wire form and a buffer of at most [INT_MAX]
    bytes with room for the header and the question, a call without an
    address, or for a type other than A and AAAA, writes the NODATA
    response: the ID and QDCOUNT of the query, the flags [0x8580], the
    other counts zero, and the question as it came; it returns its length
    and keeps the buffer behind it. *)
Theorem generate_dns_response_nodata (header : list byte)
    (labels : list (list byte)) (qt qc : Z) (rest : list byte)
    (fakeIP : option (list byte)) (qtype : Z) (outBuf : list byte) :
  len header = 12 -> Forall label_ok labels -> len outBuf <= INT_MAX ->
  fakeIP = None \/ (qtype <> 1 /\ qtype <> 28) ->
  12 + len (encode_qname labels) + 4 <= len outBuf ->
  generate_dns_response (dns_query header labels qt qc rest) fakeIP qtype outBuf
  = Ret (12 + len (encode_qname labels) + 4,
         response_header header x00 ++ encode_qname labels ++ enc16 qt ++ enc16 qc
           ++ skipn (Z.to_nat (12 + len (encode_qname labels) + 4)) outBuf).
Proof.
  apply generate_dns_response_nodata_eq.
Qed.

Lemma generate_dns_response_nodata_witness :
  generate_dns_response
    (dns_query [x12; x34; x01; x00; x00; x01; x00; x00; x00; x00; x00; x00]
               [cstr "example"; cstr "com"] 16 1 [])
    (Some [x5d; xb8; xd8; x22]) 16 (repeat xff 32)
  = Ret (12 + len (encode_qname [cstr "example"; cstr "com"]) + 4,
         response_header [x12; x34; x01; x00; x00; x01; x00; x00; x00; x00; x00; x00] x00
           ++ encode_qname [cstr "example"; cstr "com"] ++ enc16 16 ++ enc16 1
           ++ skipn (Z.to_nat (12 + len (encode_qname [cstr "example"; cstr "com"]) + 4))
                    (repeat xff 32)).
Proof.
  apply (generate_dns_response_nodata
           [x12; x34; x01; x00; x00; x01; x00; x00; x00; x00; x00; x00]
           [cstr "example"; cstr "com"] 16 1 [] (Some [x5d; xb8; xd8; x22]) 16
           (repeat xff 32)).
  - reflexivity.
  - repeat constructor; vm_compute; discriminate.
  - vm_compute. discriminate.
  - right. split; discriminate.
  - vm_compute. discriminate.
Defined.

(** X12: for a query in wire form, an address of 4 bytes with type A or
    of 16 bytes with type AAAA, and a buffer of at most [INT_MAX] bytes
    with room for it, the response is the header with ANCOUNT 1, the
    question as it came, and one answer record: a pointer to offset 12,
    the type, class IN, TTL 1, and the address; the call returns its
    length and keeps the buffer behind it. *)
Theorem generate_dns_response_answer (header : list byte)
    (labels : list (list byte)) (qt qc : Z) (rest ip : list byte)
    (qtype : Z) (outBuf : list byte) :
  len header = 12 -> Forall label_ok labels -> len outBuf <= INT_MAX ->
  (qtype = 1 /\ len ip = 4) \/ (qtype = 28 /\ len ip = 16) ->
  12 + len (encode_qname labels) + 4 + 12 + len ip <= len outBuf ->
  generate_dns_response (dns_query header labels qt qc rest) (Some ip) qtype outBuf
  = Ret (12 + len (encode_qname labels) + 4 + 12 + len ip,
         response_header header x01 ++ encode_qname labels ++ enc16 qt ++ enc16 qc
           ++ answer_record qtype ip
           ++ skipn (Z.to_nat (12 + len (encode_qname labels) + 4 + 12 + len ip)) outBuf).
Proof.
  apply generate_dns_response_answer_eq.
Qed.

Lemma generate_dns_response_answer_witness :
  generate_dns_response
    (dns_query [x12; x34; x01; x00; x00; x01; x00; x00; x00; x00; x00; x00]
               [cstr "example"; cstr "com"] 1 1 [])
    (Some [x5d; xb8; xd8; x22]) 1 (repeat xff 48)
  = Ret (12 + len (encode_qname [cstr "example"; cstr "com"]) + 4 + 12
           + len [x5d; xb8; xd8; x22],
         response_header [x12; x34; x01; x00; x00; x01; x00; x00; x00; x00; x00; x00] x01
           ++ encode_qname [cstr "example"; cstr "com"] ++ enc16 1 ++ enc16 1
           ++ answer_record 1 [x5d; xb8; xd8; x22]
           ++ skipn (Z.to_nat (12 + len (encode_qname [cstr "example"; cstr "com"])
                               + 4 + 12 + len [x5d; xb8; xd8; x22]))
                    (repeat xff 48)).
Proof.
  apply (generate_dns_response_answer
           [x12; x34; x01; x00; x00; x01; x00; x00; x00; x00; x00; x00]
           [cstr "example"; cstr "com"] 1 1 [] [x5d; xb8; xd8; x22] 1
           (repeat xff 48)).
  - reflexivity.
  - repeat constructor; vm_compute; discriminate.
  - vm_compute. discriminate.
  - left. split; reflexivity.
  - vm_compute. discriminate.
Defined.

Section RoundTripFacts.

Lemma qdcount_response_header (header : list byte) (ancount : byte) :
  len header = 12 ->
  be16 (nth 4 (response_header header ancount) x00)
       (nth 5 (response_header header ancount) x00)
  = be16 (nth 4 header x00) (nth 5 header x00).
Proof.
  intros Hh.
  destruct (twelve_bytes header ltac:(lia))
    as (h0 & h1 & h2 & h3 & h4 & h5 & h6 & h7 & h8 & h9 & h10 & h11 & t & ->).
  reflexivity.
Qed.

Lemma firstn_front (p q : list byte) (n : Z) :
  n = len p -> firstn (Z.to_nat n) (p ++ q) = p.
Proof.
  intros ->. unfold len. rewrite Nat2Z.id. apply firstn_app_exact.
Qed.

Lemma len_answer_record (ansType : Z) (rdata : list byte) :
  len (answer_record ansType rdata) = 12 + len rdata.
Proof. unfold answer_record, enc16. sizes. Qed.

End RoundTripFacts.

(** X13: the response to a query that parses, parses to the same name
    and QTYPE as the query: [parse_dns_query_ext] on the bytes that
    [generate_dns_response] returns gives what it gives on the query,
    whether the response is NODATA or carries an answer. *)
Theorem dns_response_parses_like_query (header : list byte)
    (labels : list (list byte)) (qt qc : Z) (rest : list byte)
    (fakeIP : option (list byte)) (qtype : Z) (outBuf outDomain : list byte) :
  len header = 12 ->
  be16 (nth 4 header x00) (nth 5 header x00) <> 0 ->
  labels <> [] -> Forall label_ok labels ->
  0 <= qt < 65536 ->
  len (join_labels labels) < len outDomain ->
  match fakeIP with
  | Some ip => (qtype = 1 -> len ip = 4) /\ (qtype = 28 -> len ip = 16)
  | None => True
  end ->
  12 + len (encode_qname labels) + 4 + 28 <= len outBuf <= INT_MAX ->
  exists n out,
    generate_dns_response (dns_query header labels qt qc rest) fakeIP qtype outBuf
    = Ret (n, out) /\
    0 < n <= len outBuf /\
    parse_dns_query_ext (firstn (Z.to_nat n) out) outDomain
    = parse_dns_query_ext (dns_query header labels qt qc rest) outDomain.
Proof.
  intros Hh Hqd Hne Hok Hqt Hcap Hip Hroom.
  pose proof (len_nonneg (encode_qname labels)) as Hq.
  rewrite (parse_dns_query_ext_of_query_eq header labels qt qc rest outDomain)
    by assumption.
  assert (Hcase : (fakeIP = None \/ (qtype <> 1 /\ qtype <> 28)) \/
                  exists ip, fakeIP = Some ip /\
                    ((qtype = 1 /\ len ip = 4) \/ (qtype = 28 /\ len ip = 16))).
  { destruct fakeIP as [ip|]; [|left; left; reflexivity].
    destruct Hip as [H1 H28].
    destruct (Z.eq_dec qtype 1) as [E1|N1]; [right; exists ip; auto|].
    destruct (Z.eq_dec qtype 28) as [E28|N28]; [right; exists ip; auto|].
    left. right. split; assumption. }
  destruct Hcase as [Hno|(ip & -> & Hsel)].
  - rewrite generate_dns_response_nodata_eq by (assumption || lia).
    eexists _, _. split; [reflexivity|]. split; [lia|].
    replace (response_header header x00 ++ encode_qname labels ++ enc16 qt ++ enc16 qc ++
             skipn (Z.to_nat (12 + len (encode_qname labels) + 4)) outBuf)
      with ((response_header header x00 ++ encode_qname labels ++ enc16 qt ++ enc16 qc ++ [])
              ++ skipn (Z.to_nat (12 + len (encode_qname labels) + 4)) outBuf)
      by (rewrite <- !app_assoc; reflexivity).
    rewrite firstn_front.
    2:{ pose proof (len_response_header header x00 Hh). unfold enc16. sizes. }
    apply (parse_dns_query_ext_of_query_eq (response_header header x00) labels qt qc []
             outDomain); try assumption.
    + apply len_response_header. exact Hh.
    + rewrite qdcount_response_header by exact Hh. exact Hqd.
  - assert (Hl : len ip <= 16) by lia.
    rewrite generate_dns_response_answer_eq by (assumption || lia).
    eexists _, _. split; [reflexivity|]. split; [lia|].
    replace (response_header header x01 ++ encode_qname labels ++ enc16 qt ++ enc16 qc ++
             answer_record qtype ip ++
             skipn (Z.to_nat (12 + len (encode_qname labels) + 4 + 12 + len ip)) outBuf)
      with ((response_header header x01 ++ encode_qname labels ++ enc16 qt ++ enc16 qc ++
             answer_record qtype ip)
              ++ skipn (Z.to_nat (12 + len (encode_qname labels) + 4 + 12 + len ip)) outBuf)
      by (rewrite <- !app_assoc; reflexivity).
    rewrite firstn_front.
    2:{ pose proof (len_response_header header x01 Hh).
        pose proof (len_answer_record qtype ip). unfold enc16. sizes. }
    apply (parse_dns_query_ext_of_query_eq (response_header header x01) labels qt qc
             (answer_record qtype ip) outDomain); try assumption.
    + apply len_response_header. exact Hh.
    + rewrite qdcount_response_header by exact Hh. exact Hqd.
Qed.

Lemma dns_response_parses_like_query_witness :
  exists n out,
    generate_dns_response
      (dns_query [x12; x34; x01; x00; x00; x01; x00; x00; x00; x00; x00; x00]
                 [cstr "example"; cstr "com"] 28 1 [])
      (Some (repeat x01 16)) 28 (repeat xff 64)
    = Ret (n, out) /\
    0 < n <= len (repeat xff 64) /\
    parse_dns_query_ext (firstn (Z.to_nat n) out) (repeat xff 16)
    = parse_dns_query_ext
        (dns_query [x12; x34; x01; x00; x00; x01; x00; x00; x00; x00; x00; x00]
                   [cstr "example"; cstr "com"] 28 1 [])
        (repeat xff 16).
Proof.
  apply (dns_response_parses_like_query
           [x12; x34; x01; x00; x00; x01; x00; x00; x00; x00; x00; x00]
           [cstr "example"; cstr "com"] 28 1 [] (Some (repeat x01 16)) 28
           (repeat xff 64) (repeat xff 16)).
  - reflexivity.
  - vm_compute. discriminate.
  - discriminate.
  - repeat constructor; vm_compute; discriminate.
  - split; [discriminate | reflexivity].
  - vm_compute. reflexivity.
  - split; [discriminate | reflexivity].
  - split; vm_compute; discriminate.
Defined.

Section FrameFacts.

Variables (outBuf : list byte) (K : Z).
Hypothesis HK : 0 <= K <= len outBuf.

(** A buffer that differs from [outBuf] in its first [K] bytes only. *)
Let kept (p : list byte) : Prop :=
  len p = len outBuf /\ skipn (Z.to_nat K) p = skipn (Z.to_nat K) outBuf.

Lemma store_keeps (p src : list byte) (off : Z) :
  0 <= off -> off + len src <= K -> kept p ->
  exists p', store p off src = Ret p' /\ kept p'.
Proof.
  intros Ho Hs [Hl Hk]. pose proof (len_nonneg src) as Hsrc.
  unfold store.
  replace (0 <=? off) with true by lia.
  replace (off + len src <=? len p) with true by lia. cbn [andb].
  eexists. split; [reflexivity|]. split.
  - rewrite !len_app, len_skipn. unfold len in *. rewrite length_firstn. lia.
  - rewrite <- Hk.
    assert (Hf : List.length (firstn (Z.to_nat off) p) = Z.to_nat off)
      by (rewrite length_firstn; unfold len in *; lia).
    rewrite !skipn_app, Hf.
    rewrite (skipn_all2 (firstn (Z.to_nat off) p)) by lia.
    rewrite (skipn_all2 src) by (unfold len in *; lia).
    cbn [app]. rewrite skipn_tail. f_equal. unfold len in *. lia.
Qed.

Lemma wr_keeps (p : list byte) (i : Z) (b : byte) :
  0 <= i < K -> kept p -> exists p', wr p i b = Ret p' /\ kept p'.
Proof.
  intros Hi Hp. unfold wr. apply store_keeps; try assumption; [lia|].
  rewrite len_cons, len_nil. lia.
Qed.

Lemma kept_refl : kept outBuf.
Proof. split; reflexivity. Qed.

End FrameFacts.

(** One more write of a chain that keeps the bytes from [K] on; [HK] and
    [L] are the bound on [K] and the fact about the buffer so far. *)
Ltac keep_next HK L :=
  eapply bind_returns;
  [ first [ eapply (wr_keeps _ _ HK); [lia | exact L]
          | eapply (store_keeps _ _ HK); [lia | lia | exact L] ]
  | cbv beta; clear L; let b := fresh "buf" in intros b L ].

Section FrameBranches.

Variables (queryData outBuf : list byte) (questionEnd : Z).
Hypothesis Hq : 16 <= questionEnd <= len queryData.
Hypothesis Hmax : len outBuf <= INT_MAX.

(** What both branches leave: a length inside the buffer, and the buffer
    as it was from that length on. *)
Let framed (r : Z * list byte) : Prop :=
  0 <= fst r <= len outBuf /\ len (snd r) = len outBuf /\
  skipn (Z.to_nat (fst r)) (snd r) = skipn (Z.to_nat (fst r)) outBuf.

Lemma framed_fail : exists r, Ret (0, outBuf) = Ret r /\ framed r.
Proof.
  eexists. split; [reflexivity|]. unfold framed. cbn [fst snd].
  pose proof (len_nonneg outBuf). repeat split; lia.
Qed.

Lemma nodata_keeps :
  exists r,
    (if len outBuf <? questionEnd then Ret (0, outBuf)
     else
       question <- slice queryData 0 questionEnd ;;
       outBuf <- store outBuf 0 question ;;
       outBuf <- wr outBuf 2 x85 ;;
       outBuf <- wr outBuf 3 x80 ;;
       outBuf <- wr outBuf 6 x00 ;;
       outBuf <- wr outBuf 7 x00 ;;
       outBuf <- wr outBuf 8 x00 ;;
       outBuf <- wr outBuf 9 x00 ;;
       outBuf <- wr outBuf 10 x00 ;;
       outBuf <- wr outBuf 11 x00 ;;
       Ret (to_int questionEnd, outBuf)) = Ret r /\ framed r.
Proof.
  case_if; [exact framed_fail|].
  assert (HK : 0 <= questionEnd <= len outBuf) by lia.
  pose proof (kept_refl outBuf questionEnd) as L0.
  eapply bind_returns; [apply slice_in; lia | cbv beta; intros question [Hql _]].
  do 9 keep_next HK L0.
  eexists. split; [reflexivity|]. unfold framed. cbn [fst snd].
  rewrite to_int_small by (unfold INT_MAX in *; lia).
  destruct L0 as [Hl Hk]. repeat split; try lia; assumption.
Qed.

Lemma answer_keeps (p : list byte) (rdLength ansType : Z) :
  0 < rdLength <= len p ->
  exists r,
    (if len outBuf <? questionEnd + (12 + rdLength) then Ret (0, outBuf)
     else
       question <- slice queryData 0 questionEnd ;;
       outBuf <- store outBuf 0 question ;;
       outBuf <- wr outBuf 2 x85 ;;
       outBuf <- wr outBuf 3 x80 ;;
       outBuf <- wr outBuf 6 x00 ;;
       outBuf <- wr outBuf 7 x01 ;;
       outBuf <- wr outBuf 8 x00 ;;
       outBuf <- wr outBuf 9 x00 ;;
       outBuf <- wr outBuf 10 x00 ;;
       outBuf <- wr outBuf 11 x00 ;;
       outBuf <- wr outBuf (questionEnd + 0) xc0 ;;
       outBuf <- wr outBuf (questionEnd + 1) x0c ;;
       outBuf <- wr outBuf (questionEnd + 2) (to_u8 (Z.shiftr ansType 8)) ;;
       outBuf <- wr outBuf (questionEnd + 3) (to_u8 (Z.land ansType 0xFF)) ;;
       outBuf <- wr outBuf (questionEnd + 4) x00 ;;
       outBuf <- wr outBuf (questionEnd + 5) x01 ;;
       outBuf <- wr outBuf (questionEnd + 6) x00 ;;
       outBuf <- wr outBuf (questionEnd + 7) x00 ;;
       outBuf <- wr outBuf (questionEnd + 8) x00 ;;
       outBuf <- wr outBuf (questionEnd + 9) x01 ;;
       outBuf <- wr outBuf (questionEnd + 10) (to_u8 (Z.shiftr rdLength 8)) ;;
       outBuf <- wr outBuf (questionEnd + 11) (to_u8 (Z.land rdLength 0xFF)) ;;
       rdata <- slice p 0 rdLength ;;
       outBuf <- store outBuf (questionEnd + 12) rdata ;;
       Ret (to_int (questionEnd + (12 + rdLength)), outBuf)) = Ret r /\ framed r.
Proof.
  intros Hrd. case_if; [exact framed_fail|].
  assert (HK : 0 <= questionEnd + (12 + rdLength) <= len outBuf) by lia.
  pose proof (kept_refl outBuf (questionEnd + (12 + rdLength))) as L0.
  eapply bind_returns; [apply slice_in; lia | cbv beta; intros question [Hql _]].
  do 21 keep_next HK L0.
  eapply bind_returns; [apply slice_in; lia | cbv beta; intros rdata [Hrl _]].
  keep_next HK L0.
  eexists. split; [reflexivity|]. unfold framed. cbn [fst snd].
  rewrite to_int_small by (unfold INT_MAX in *; lia).
  destruct L0 as [Hl Hk]. repeat split; try lia; assumption.
Qed.

End FrameBranches.

(** X14: on every query, with an address that has the length its
    contract states and a buffer of at most [INT_MAX] bytes,
    [generate_dns_response] returns a length between 0 and the size of
    the buffer and changes no byte of the buffer at or behind that
    length; a call that returns 0 has changed nothing. *)
Theorem generate_dns_response_frame (queryData : list byte)
    (fakeIP : option (list byte)) (qtype : Z) (outBuf : list byte) :
  fake_ip_fits fakeIP qtype ->
  len outBuf <= INT_MAX ->
  exists n out,
    generate_dns_response queryData fakeIP qtype outBuf = Ret (n, out) /\
    0 <= n <= len outBuf /\
    len out = len outBuf /\
    skipn (Z.to_nat n) out = skipn (Z.to_nat n) outBuf /\
    (n = 0 -> out = outBuf).
Proof.
  intros Hfits Hmax.
  assert (Hgoal : exists r,
    generate_dns_response queryData fakeIP qtype outBuf = Ret r /\
    (0 <= fst r <= len outBuf /\ len (snd r) = len outBuf /\
     skipn (Z.to_nat (fst r)) (snd r) = skipn (Z.to_nat (fst r)) outBuf)).
  2:{ destruct Hgoal as ([n out] & Hr & Hn & Hl & Hk). cbn [fst snd] in *.
      exists n, out. repeat split; try assumption; try lia.
      intros ->. exact Hk. }
  unfold generate_dns_response.
  case_if; [exact (framed_fail outBuf)|].
  destruct (skip_qname_returns queryData (List.length queryData) 12)
    as (o & Ho & Hle); [lia | unfold len; lia |].
  rewrite Ho. cbn [bind].
  case_if; [exact (framed_fail outBuf)|].
  assert (Hq : 16 <= o + 4 <= len queryData) by lia.
  destruct fakeIP as [p|];
    [|cbv beta iota zeta; change (0 <? 0) with false; cbv iota;
      apply nodata_keeps; assumption].
  cbn [fake_ip_fits] in Hfits. destruct Hfits as [H4 H16].
  destruct (qtype =? 1) eqn:E1.
  - apply Z.eqb_eq in E1. cbv beta iota zeta. change (0 <? 4) with true. cbv iota.
    apply answer_keeps; [exact Hq | exact Hmax | specialize (H4 E1); lia].
  - destruct (qtype =? 28) eqn:E28.
    + apply Z.eqb_eq in E28. cbv beta iota zeta. change (0 <? 16) with true. cbv iota.
      apply answer_keeps; [exact Hq | exact Hmax | specialize (H16 E28); lia].
    + cbv beta iota zeta. change (0 <? 0) with false. cbv iota.
      apply nodata_keeps; assumption.
Qed.

Lemma generate_dns_response_frame_witness :
  exists n out,
    generate_dns_response example_query (Some example_fake_ip) 1 (repeat xff 64)
    = Ret (n, out) /\
    0 <= n <= len (repeat xff 64) /\
    len out = len (repeat xff 64) /\
    skipn (Z.to_nat n) out = skipn (Z.to_nat n) (repeat xff 64) /\
    (n = 0 -> out = repeat xff 64).
Proof.
  apply (generate_dns_response_frame example_query (Some example_fake_ip) 1
           (repeat xff 64)).
  - split; intros; vm_compute; discriminate.
  - vm_compute. discriminate.
Defined.

(** ** ServerHellos without an X25519 key share *)

Section WalkFacts.

(** The walk passes over extensions that are not a key share. *)
Lemma walk_extensions_passes (cs : option Z) (tail rest : list byte) (extEnd : Z) :
  forall (es : list (Z * list byte)) (fuel : nat) (pre : list byte),
  Forall other_extension es ->
  len pre + len (extensions es) <= extEnd ->
  walk_extensions (List.length es + fuel)
    (pre ++ (extensions es ++ tail) ++ rest) cs (len pre) extEnd
  = walk_extensions fuel
      (pre ++ (extensions es ++ tail) ++ rest) cs (len pre + len (extensions es)) extEnd.
Proof.
  induction es as [|[t d] es IH]; intros fuel pre Hok Hend.
  - cbn [extensions flat_map List.length Nat.add]. rewrite len_nil.
    f_equal. lia.
  - inversion Hok as [|? ? [Ht [Hne Hd]] Hok']; subst. cbn [fst snd] in *.
    cbn [List.length Nat.add walk_extensions].
    pose proof (len_nonneg pre). pose proof (len_nonneg d).
    change (extensions ((t, d) :: es)) with (extension t d ++ extensions es) in *.
    rewrite len_app, len_extension in Hend.
    pose proof (len_nonneg (extensions es)).
    specialize (IH fuel (pre ++ extension t d) Hok').
    rewrite len_app, len_extension in IH.
    rewrite <- !app_assoc in IH. rewrite <- !app_assoc.
    set (T := extensions es ++ tail ++ rest) in *.
    replace (len pre + 4 <=? extEnd) with true by lia.
    unfold extension, enc16 in *.
    rewrite <- !app_assoc in *. cbn [app] in *.
    rd_next. rd_next. rd_next. rd_next.
    rewrite !be16_enc16 by lia.
    replace (t =? 51) with false by lia.
    replace (len pre + 4 + len d) with (len pre + (4 + len d)) by lia.
    rewrite IH by lia. f_equal. sizes.
Qed.

End WalkFacts.

Section HelloWalk.

Variables (hsLen version random sessionId : list byte) (cipherSuite : Z)
          (compression : byte) (exts : list byte).

Hypothesis HhsLen : len hsLen = 3.
Hypothesis Hversion : len version = 2.
Hypothesis Hrandom : len random = 32.
Hypothesis Hsid : len sessionId <= 255.
Hypothesis Hcs : 0 <= cipherSuite < 65536.
Hypothesis Hexts : len exts < 65536.

Let hello : list byte :=
  server_hello hsLen version random sessionId cipherSuite compression exts.

(** The ServerHello up to its extensions. *)
Let front (pre : list byte) : list byte :=
  (pre ++ x02 :: hsLen ++ version ++ random) ++
  to_u8 (len sessionId) :: sessionId ++
  to_u8 (Z.shiftr cipherSuite 8) :: to_u8 cipherSuite :: compression ::
  [to_u8 (Z.shiftr (len exts) 8); to_u8 (len exts)].

(** On a ServerHello in wire form the body of the record loop stores the
    cipher suite and starts the walk at the extensions. *)
Lemma server_hello_body_walk (pre rest : list byte) :
  pre ++ hello ++ rest = front pre ++ exts ++ rest /\
  len (front pre) = len pre + 44 + len sessionId /\
  server_hello_body (pre ++ hello ++ rest) (len pre)
  = walk_extensions (List.length (front pre ++ exts ++ rest))
      (front pre ++ exts ++ rest) (Some cipherSuite)
      (len (front pre)) (len (front pre) + len exts).
Proof.
  pose proof (len_nonneg pre). pose proof (len_nonneg rest).
  pose proof (len_nonneg sessionId). pose proof (len_nonneg exts) as Hexts0.
  assert (Hdata : pre ++ hello ++ rest = front pre ++ exts ++ rest).
  { unfold front, hello, server_hello, enc16.
    repeat (rewrite <- app_assoc; cbn [app]). reflexivity. }
  assert (HQ : len (front pre) = len pre + 44 + len sessionId).
  { unfold front. sizes. }
  split; [exact Hdata|]. split; [exact HQ|].
  unfold server_hello_body.
  assert (Hlen : len (pre ++ hello ++ rest)
                 = len pre + 44 + len sessionId + len exts + len rest).
  { rewrite !len_app. unfold hello. rewrite len_server_hello. lia. }
  rewrite Hlen.
  replace (len pre + 1 + 3 + 2 + 32 >=? _) with false by lia.
  assert (Hcells : pre ++ hello ++ rest =
    (pre ++ x02 :: hsLen ++ version ++ random) ++
    to_u8 (len sessionId) :: sessionId ++
    to_u8 (Z.shiftr cipherSuite 8) :: to_u8 cipherSuite :: compression ::
    to_u8 (Z.shiftr (len exts) 8) :: to_u8 (len exts) :: exts ++ rest).
  { unfold hello, server_hello, enc16.
    repeat (rewrite <- app_assoc; cbn [app]). reflexivity. }
  rewrite Hcells.
  set (P := pre ++ x02 :: hsLen ++ version ++ random).
  assert (HP : len P = len pre + 38).
  { unfold P. rewrite len_app, len_cons, !len_app. lia. }
  rd_next. rewrite u8_small by lia.
  replace (len pre + 1 + 3 + 2 + 32 + (1 + len sessionId) + 2 >? _) with false by lia.
  rd_next. rd_next. rewrite be16_enc16 by lia.
  replace (len pre + 1 + 3 + 2 + 32 + (1 + len sessionId) + 3 + 2 >? _) with false by lia.
  rd_next. rd_next. rewrite be16_enc16 by lia.
  replace (_ + 2 + len exts >? _) with false by lia.
  subst P. rewrite <- Hcells, Hdata, HQ.
  f_equal; lia.
Qed.

End HelloWalk.

Section NoShare.

Lemma walk_extensions_end (fuel : nat) (data : list byte) (cs : option Z)
    (shOffset extEnd : Z) :
  extEnd < shOffset + 4 ->
  walk_extensions fuel data cs shOffset extEnd = Ret (mk_sh_result 0 cs None).
Proof.
  intros H. destruct fuel; cbn [walk_extensions];
    replace (shOffset + 4 <=? extEnd) with false by lia; reflexivity.
Qed.

(** A walk over extensions none of which is a key share finds nothing. *)
Lemma walk_extensions_no_share (cs : option Z) (pre rest : list byte)
    (es : list (Z * list byte)) (fuel : nat) :
  Forall other_extension es ->
  (List.length es <= fuel)%nat ->
  walk_extensions fuel (pre ++ extensions es ++ rest) cs (len pre)
    (len pre + len (extensions es))
  = Ret (mk_sh_result 0 cs None).
Proof.
  intros Hok Hf.
  replace fuel with (List.length es + (fuel - List.length es))%nat by lia.
  pose proof (walk_extensions_passes cs [] rest (len pre + len (extensions es))
                es (fuel - List.length es) pre Hok ltac:(lia)) as H.
  rewrite app_nil_r in H. rewrite H.
  apply walk_extensions_end. lia.
Qed.


Lemma length_extensions_le (es : list (Z * list byte)) :
  (List.length es <= List.length (extensions es))%nat.
Proof.
  pose proof (len_extensions_ge es) as H. unfold len in H. lia.
Qed.

(** A ServerHello record whose body ends the parse with [r], behind
    Handshake records that are passed over. *)
Lemma parse_server_hello_body (passed : list (byte * byte * list byte))
    (v1 v2 : byte) (hello rest : list byte) (r : sh_result) :
  Forall passed_record passed ->
  1 <= len hello < 65536 ->
  hd x00 hello = x02 ->
  (forall pre, server_hello_body (pre ++ hello ++ rest) (len pre) = Ret r) ->
  parse_server_hello (handshake_records passed ++ tls_record x16 v1 v2 hello ++ rest)
  = Ret r.
Proof.
  intros Hpassed Hhello Hhd Hbody. unfold parse_server_hello.
  pose proof (record_loop_finds v1 v2 hello rest r Hhello Hhd Hbody passed
                (List.length (handshake_records passed
                                ++ tls_record x16 v1 v2 hello ++ rest)) []) as H.
  cbn [app len List.length] in H. apply H; [|exact Hpassed].
  pose proof (len_handshake_records_ge passed).
  rewrite !length_app. pose proof (len_tls_record x16 v1 v2 hello).
  pose proof (len_nonneg hello). unfold len in *. lia.
Qed.

End NoShare.

(** X15: a ServerHello in which no extension is a key share, behind
    Handshake records that are passed over, is refused:
    [parse_server_hello] returns 0 and copies no key, and the cipher suite
    of the ServerHello has been stored by then. *)
Theorem parse_server_hello_without_key_share
    (passed : list (byte * byte * list byte)) (v1 v2 : byte)
    (hsLen version random sessionId : list byte) (cipherSuite : Z)
    (compression : byte) (es : list (Z * list byte)) (rest : list byte) :
  Forall passed_record passed ->
  len hsLen = 3 -> len version = 2 -> len random = 32 ->
  len sessionId <= 255 ->
  0 <= cipherSuite < 65536 ->
  Forall other_extension es ->
  len (server_hello hsLen version random sessionId cipherSuite compression
         (extensions es)) < 65536 ->
  parse_server_hello
    (handshake_records passed ++
     tls_record x16 v1 v2
       (server_hello hsLen version random sessionId cipherSuite compression
          (extensions es))
     ++ rest)
  = Ret (mk_sh_result 0 (Some cipherSuite) None).
Proof.
  intros Hpassed HhsLen Hversion Hrandom Hsid Hcs Hes Hlen.
  pose proof (len_nonneg sessionId). pose proof (len_nonneg (extensions es)).
  rewrite len_server_hello in Hlen.
  apply parse_server_hello_body; try assumption.
  - rewrite len_server_hello. lia.
  - reflexivity.
  - intros pre.
    destruct (server_hello_body_walk hsLen version random sessionId cipherSuite
                compression (extensions es) HhsLen Hversion Hrandom Hsid Hcs
                ltac:(lia) pre rest) as (_ & _ & ->).
    apply walk_extensions_no_share; [exact Hes|].
    pose proof (length_extensions_le es). rewrite !length_app. lia.
Qed.

Lemma parse_server_hello_without_key_share_witness :
  parse_server_hello
    (handshake_records [] ++
     tls_record x16 x03 x03
       (server_hello [x00; x00; x2e] [x03; x03] (repeat x11 32) [] 0x1301 x00
          (extensions [(0x002b, [x03; x04])]))
     ++ [])
  = Ret (mk_sh_result 0 (Some 0x1301) None).
Proof.
  apply (parse_server_hello_without_key_share [] x03 x03
           [x00; x00; x2e] [x03; x03] (repeat x11 32) [] 0x1301 x00
           [(0x002b, [x03; x04])] []).
  - constructor.
  - reflexivity.
  - reflexivity.
  - reflexivity.
  - vm_compute. discriminate.
  - split; vm_compute; congruence.
  - repeat constructor; vm_compute; congruence.
  - vm_compute. reflexivity.
Defined.



(** ** The lookup on tables that need not be sorted *)

Section SoundFacts.

Variable db : list byte.
Variable ip : Z.

Hypothesis Hholds : holds_entries db.
Hypothesis Hsmall : len db <= INT_MAX.

(** What the search returns starts at or below the address, whatever the
    order of the table. *)
Lemma search_sound (fuel : nat) :
  forall lo hi best b,
  0 <= lo -> -1 <= hi < db_count db ->
  best = -1 \/ (0 <= best < db_count db /\ entry_start db best <= ip) ->
  search fuel db ip lo hi best = Ret b ->
  b = -1 \/ (0 <= b < db_count db /\ entry_start db b <= ip).
Proof.
  induction fuel as [|fuel IH]; intros lo hi best b Hlo Hhi Hbest Hs.
  - cbn [search] in Hs. destruct (lo <=? hi); [discriminate|].
    injection Hs as <-. exact Hbest.
  - cbn [search] in Hs. destruct (lo <=? hi) eqn:E.
    + apply Z.leb_le in E.
      destruct (mid_int db Hholds Hsmall lo hi Hlo E ltac:(lia)) as [Hmid Hrange].
      rewrite Hmid in Hs. rewrite (search_start db ip Hholds Hsmall) in Hs by lia.
      set (mid := lo + (hi - lo) / 2) in *.
      destruct (entry_start db mid <=? ip) eqn:Em.
      * apply Z.leb_le in Em.
        apply (IH (mid + 1) hi mid b); try lia; assumption.
      * apply (IH lo (mid - 1) best b); try lia; assumption.
    + injection Hs as <-. exact Hbest.
Qed.

End SoundFacts.

Section LookupSound.

Variable inet_pton : string -> option (byte * byte * byte * byte).

Lemma has_magic_dec (db : list byte) : has_magic db \/ ~ has_magic db.
Proof.
  unfold has_magic.
  destruct (list_eq_dec Byte.byte_eq_dec (firstn 4 db) magic); [left | right]; assumption.
Qed.

Lemma geoip_lookup_sound_code (db : list byte) (s : string) (code : Z) :
  len db <= INT_MAX ->
  geoip_lookup inet_pton (Some db) (Some s) = Ret code ->
  code <> 0 ->
  exists addr k,
    inet_pton s = Some addr /\ has_magic db /\ holds_entries db /\
    covers db k (ntohl addr) /\ entry_code db k = code.
Proof.
  intros Hsmall Hr Hcode.
  destruct (Z_lt_le_dec (len db) 8) as [H8|H8].
  { unfold geoip_lookup in Hr. replace (len db <? 8) with true in Hr by lia.
    injection Hr as <-. congruence. }
  destruct (has_magic_dec db) as [Hm|Hm];
    [|rewrite geoip_lookup_no_magic in Hr by exact Hm; injection Hr as <-; congruence].
  rewrite geoip_lookup_magic in Hr by assumption.
  destruct (len db <? 8 + db_count db * 10) eqn:Eh; [injection Hr as <-; congruence|].
  assert (Hholds : holds_entries db) by (unfold holds_entries; lia).
  destruct (inet_pton s) as [addr|]; [|injection Hr as <-; congruence].
  cbv zeta in Hr.
  pose proof (db_count_small db Hholds Hsmall) as [Hc0 Hc].
  unfold INT_MAX in Hc.
  rewrite (to_int_small (db_count db)) in Hr by (unfold INT_MAX; lia).
  rewrite (to_int_small (db_count db - 1)) in Hr by (unfold INT_MAX; lia).
  destruct (search _ db (ntohl addr) 0 (db_count db - 1) (-1)) as [best| |] eqn:Es;
    cbn [bind] in Hr; try discriminate.
  pose proof (search_sound db (ntohl addr) Hholds Hsmall _ 0 (db_count db - 1) (-1) best
                ltac:(lia) ltac:(lia) ltac:(left; reflexivity) Es) as Hb.
  destruct (best <? 0) eqn:Eb; [injection Hr as <-; congruence|].
  destruct Hb as [->|[Hrange Hstart]]; [discriminate Eb|].
  rewrite (to_int_small (best * 10)) in Hr by (unfold INT_MAX; lia).
  rewrite !(rd_entry db Hholds) in Hr by lia. cbn [bind] in Hr.
  fold (entry_end db best) in Hr.
  destruct (ntohl addr >? entry_end db best) eqn:Ee; [injection Hr as <-; congruence|].
  injection Hr as <-.
  exists addr, best. repeat split; try assumption; lia.
Qed.

End LookupSound.

(** X17: on a table of at most [INT_MAX] bytes, sorted or not, a country
    code that is not 0 is the code of an entry of the table whose range
    holds the address: [geoip_lookup] does not invent an answer. *)
Theorem geoip_lookup_sound
    (inet_pton : string -> option (byte * byte * byte * byte))
    (db : list byte) (s : string) (code : Z) :
  len db <= INT_MAX ->
  geoip_lookup inet_pton (Some db) (Some s) = Ret code ->
  code <> 0 ->
  exists addr k,
    inet_pton s = Some addr /\ has_magic db /\ holds_entries db /\
    covers db k (ntohl addr) /\ entry_code db k = code.
Proof.
  apply geoip_lookup_sound_code.
Qed.

Lemma geoip_lookup_sound_witness :
  exists addr k,
    inet_pton4 "0.0.0.15" = Some addr /\ has_magic boundary_db /\
    holds_entries boundary_db /\
    covers boundary_db k (ntohl addr) /\ entry_code boundary_db k = 0x4242.
Proof.
  apply (geoip_lookup_sound inet_pton4 boundary_db "0.0.0.15" 0x4242).
  - vm_compute. discriminate.
  - vm_compute. reflexivity.
  - discriminate.
Defined.

(** ** Bytes behind the table *)

Section TrailingFacts.

Variables (db extra : list byte).

Hypothesis H8 : 8 <= len db.
Hypothesis Hholds : holds_entries db.
Hypothesis Hsmall : len (db ++ extra) <= INT_MAX.

Lemma byte_at_app (i : Z) : 0 <= i < len db -> byte_at (db ++ extra) i = byte_at db i.
Proof.
  intros Hi. unfold byte_at. apply app_nth1. unfold len in Hi. lia.
Qed.

Lemma db_count_app : db_count (db ++ extra) = db_count db.
Proof.
  unfold db_count. rewrite !byte_at_app by lia. reflexivity.
Qed.

Lemma holds_entries_app : holds_entries (db ++ extra).
Proof.
  unfold holds_entries in *. rewrite db_count_app, len_app.
  pose proof (len_nonneg extra). lia.
Qed.

Lemma len_db_small : len db <= INT_MAX.
Proof.
  rewrite len_app in Hsmall. pose proof (len_nonneg extra). lia.
Qed.

Lemma entry_app (k j : Z) :
  0 <= k < db_count db -> 0 <= j <= 9 ->
  byte_at (db ++ extra) (8 + k * 10 + j) = byte_at db (8 + k * 10 + j).
Proof.
  intros Hk Hj. apply byte_at_app. unfold holds_entries in Hholds. lia.
Qed.

Lemma entry_start_app (k : Z) :
  0 <= k < db_count db -> entry_start (db ++ extra) k = entry_start db k.
Proof.
  intros Hk. unfold entry_start. cbv zeta.
  pose proof (entry_app k 0 Hk ltac:(lia)) as E0. rewrite Z.add_0_r in E0.
  rewrite E0, !entry_app by lia. reflexivity.
Qed.

Lemma has_magic_app : has_magic (db ++ extra) <-> has_magic db.
Proof.
  unfold has_magic. rewrite firstn_app.
  replace (4 - List.length db)%nat with 0%nat by (unfold len in H8; lia).
  cbn [firstn]. rewrite app_nil_r. reflexivity.
Qed.

(** The search does not look behind the entries. *)
Lemma search_app (ip : Z) (fuel : nat) :
  forall lo hi best,
  0 <= lo -> -1 <= hi < db_count db ->
  search fuel (db ++ extra) ip lo hi best = search fuel db ip lo hi best.
Proof.
  pose proof holds_entries_app as Hh'. pose proof len_db_small as Hs.
  induction fuel as [|fuel IH]; intros lo hi best Hlo Hhi.
  - reflexivity.
  - cbn [search]. destruct (lo <=? hi) eqn:E; [|reflexivity].
    apply Z.leb_le in E.
    destruct (mid_int db Hholds Hs lo hi Hlo E ltac:(lia)) as [Hmid Hrange].
    rewrite Hmid.
    rewrite (search_start (db ++ extra) ip Hh' Hsmall) by (rewrite db_count_app; lia).
    rewrite (search_start db ip Hholds Hs) by lia.
    rewrite entry_start_app by lia.
    destruct (_ <=? ip); apply IH; lia.
Qed.

End TrailingFacts.

(** X18: bytes behind the entries that the count announces do not
    matter: on a blob of at least 8 bytes that holds its entries,
    [geoip_lookup] answers the same with any bytes appended, as long as
    the whole has at most [INT_MAX] bytes. *)
Theorem geoip_lookup_ignores_trailing_bytes
    (inet_pton : string -> option (byte * byte * byte * byte))
    (db extra : list byte) (s : option string) :
  8 <= len db -> holds_entries db -> len (db ++ extra) <= INT_MAX ->
  geoip_lookup inet_pton (Some (db ++ extra)) s = geoip_lookup inet_pton (Some db) s.
Proof.
  intros H8 Hholds Hsmall. destruct s as [s|]; [|reflexivity].
  pose proof (holds_entries_app db extra H8 Hholds) as Hh'.
  pose proof (len_db_small db extra Hsmall) as Hs.
  pose proof (len_nonneg extra) as Hex.
  destruct (has_magic_dec db) as [Hm|Hm].
  - rewrite (geoip_lookup_magic inet_pton (db ++ extra))
      by (try (apply (has_magic_app db extra H8)); try assumption; rewrite ?len_app; lia).
    rewrite (geoip_lookup_magic inet_pton db) by assumption.
    rewrite (db_count_app db extra H8).
    unfold holds_entries in Hholds, Hh'. rewrite (db_count_app db extra H8) in Hh'.
    replace (len (db ++ extra) <? 8 + db_count db * 10) with false
      by (symmetry; apply Z.ltb_ge; exact Hh').
    replace (len db <? 8 + db_count db * 10) with false
      by (symmetry; apply Z.ltb_ge; exact Hholds).
    destruct (inet_pton s) as [addr|]; [|reflexivity]. cbv zeta.
    pose proof (db_count_small db Hholds Hs) as [Hc0 Hc]. unfold INT_MAX in Hc.
    rewrite (to_int_small (db_count db)) by (unfold INT_MAX; lia).
    rewrite (to_int_small (db_count db - 1)) by (unfold INT_MAX; lia).
    rewrite (search_app db extra H8 Hholds Hsmall) by lia.
    destruct (search_returns db (ntohl addr) Hholds Hs
                (Z.to_nat (db_count db - 1 + 1)) 0 (db_count db - 1) (-1)
                ltac:(lia) ltac:(lia) ltac:(lia) ltac:(lia)) as (b & -> & Hb).
    cbn [bind]. destruct (b <? 0) eqn:Eb; [reflexivity|].
    rewrite (to_int_small (b * 10)) by (unfold INT_MAX; lia).
    rewrite !(rd_entry (db ++ extra))
      by (try exact (holds_entries_app db extra H8 Hholds);
          rewrite ?(db_count_app db extra H8); lia).
    rewrite !(rd_entry db Hholds) by lia.
    rewrite !(entry_app db extra Hholds) by lia.
    reflexivity.
  - rewrite !geoip_lookup_no_magic; [reflexivity | exact Hm |].
    intros H. apply Hm. apply (has_magic_app db extra H8). exact H.
Qed.

Lemma geoip_lookup_ignores_trailing_bytes_witness :
  geoip_lookup inet_pton4 (Some (boundary_db ++ [xde; xad; xbe; xef])) (Some "0.0.0.150"%string)
  = geoip_lookup inet_pton4 (Some boundary_db) (Some "0.0.0.150"%string).
Proof.
  apply (geoip_lookup_ignores_trailing_bytes inet_pton4 boundary_db
           [xde; xad; xbe; xef] (Some "0.0.0.150"%string)).
  - vm_compute. discriminate.
  - vm_compute. discriminate.
  - vm_compute. discriminate.
Defined.

(** ** The rest of the key schedule *)

(** Side conditions of the schedule: the length of a label, or arithmetic. *)
Ltac schedule_side :=
  rewrite ?len_nil;
  lazymatch goal with
  | |- len (cstr _) <= _ => vm_compute; discriminate
  | |- len (cstr _) + 0 + 10 <= _ => vm_compute; discriminate
  | |- forall _ _ _, len _ = digest_len _ => assumption
  | _ => lia
  end.

Section ScheduleMore.

Variable CCHmac : CCHmacAlgorithm -> list byte -> list byte -> list byte.
Variable CC_SHA256 : list byte -> list byte.
Variable CC_SHA384 : list byte -> list byte.

Hypothesis CCHmac_len :
  forall alg key data, len (CCHmac alg key data) = digest_len alg.
Hypothesis CC_SHA256_len : forall data, len (CC_SHA256 data) = 32.
Hypothesis CC_SHA384_len : forall data, len (CC_SHA384 data) = 48.

Lemma len_sha_hash (cs : Z) (alg : CCHmacAlgorithm) (hash_len key_len : Z)
    (messages : list byte) :
  get_suite_params cs = (alg, hash_len, key_len) ->
  len (sha_hash CC_SHA256 CC_SHA384 cs messages) = digest_len alg.
Proof.
  intros Hs. destruct (get_suite_params_lens CC_SHA256 CC_SHA384 _ _ _ _ Hs) as (_ & _ & ->).
  apply len_Hash; assumption.
Qed.

Lemma len_HKDF_Expand_Label (alg : CCHmacAlgorithm) (secret : list byte)
    (label : string) (context : list byte) (L : nat) :
  len (HKDF_Expand_Label CCHmac alg (Z.to_nat (digest_len alg)) secret label context L)
  = Z.of_nat L.
Proof.
  unfold HKDF_Expand_Label. apply len_HKDF_Expand. exact CCHmac_len.
Qed.

Lemma len_hkdf_extract (alg : CCHmacAlgorithm) (hash_len : Z) (salt ikm : list byte) :
  len (hkdf_extract CCHmac alg hash_len salt ikm) = digest_len alg.
Proof. unfold hkdf_extract. destruct (_ =? 0); apply CCHmac_len. Qed.

(** [derive_secret] on every message: the label expansion over what
    [sha_hash] gives. *)
Lemma derive_secret_hash (cs : Z) (alg : CCHmacAlgorithm) (hash_len key_len : Z)
    (secret : list byte) (label : string) (messages : list byte) :
  get_suite_params cs = (alg, hash_len, key_len) ->
  len (cstr label) <= 198 ->
  derive_secret CCHmac CC_SHA256 CC_SHA384 cs alg hash_len secret label messages
  = Ret (HKDF_Expand_Label CCHmac alg (Z.to_nat hash_len) secret label
           (sha_hash CC_SHA256 CC_SHA384 cs messages) (Z.to_nat hash_len)).
Proof.
  intros Hs Hlab. unfold derive_secret. cbv zeta.
  pose proof (len_sha_hash cs alg hash_len key_len messages Hs) as Hlen.
  destruct (get_suite_params_lens CC_SHA256 CC_SHA384 _ _ _ _ Hs) as (-> & _ & _).
  pose proof (digest_len_pos alg) as Hh.
  rewrite buf_all by lia.
  rewrite hkdf_expand_label_spec by (try exact CCHmac_len; lia). reflexivity.
Qed.

Lemma schedule_labels (l : string) :
  In l ["derived"; "c hs traffic"; "s hs traffic"; "c ap traffic"; "s ap traffic";
        "finished"; "key"; "iv"]%string ->
  len (cstr l) <= 198.
Proof.
  intros [<-|[<-|[<-|[<-|[<-|[<-|[<-|[<-|[]]]]]]]]]; vm_compute; discriminate.
Qed.

(** The application keys, for transcripts below [2^32] bytes. *)
Lemma tls13_derive_application_keys_spec (cs : Z) (alg : CCHmacAlgorithm)
    (hash_len key_len : Z) (hs_secret transcript : list byte) :
  get_suite_params cs = (alg, hash_len, key_len) ->
  len transcript < 4294967296 ->
  tls13_derive_application_keys CCHmac CC_SHA256 CC_SHA384 cs hs_secret transcript
  = Ret (let hn := Z.to_nat hash_len in
         let kn := Z.to_nat key_len in
         let derived := Derive_Secret CCHmac CC_SHA256 CC_SHA384 alg hn hs_secret
                          "derived" [] in
         let master := HKDF_Extract CCHmac alg hn derived (repeat x00 hn) in
         let cATS := Derive_Secret CCHmac CC_SHA256 CC_SHA384 alg hn master
                       "c ap traffic" transcript in
         let sATS := Derive_Secret CCHmac CC_SHA256 CC_SHA384 alg hn master
                       "s ap traffic" transcript in
         mk_application_keys 0
           (HKDF_Expand_Label CCHmac alg hn cATS "key" [] kn)
           (HKDF_Expand_Label CCHmac alg hn cATS "iv" [] 12)
           (HKDF_Expand_Label CCHmac alg hn sATS "key" [] kn)
           (HKDF_Expand_Label CCHmac alg hn sATS "iv" [] 12)).
Proof.
  intros Hs Ht. unfold tls13_derive_application_keys. rewrite Hs. cbv zeta.
  destruct (get_suite_params_lens CC_SHA256 CC_SHA384 _ _ _ _ Hs) as (Hh & Hk & _).
  pose proof (digest_len_pos alg) as Hd.
  subst hash_len. rewrite buf_zero.
  rewrite (derive_secret_spec CCHmac CC_SHA256 CC_SHA384 CCHmac_len CC_SHA256_len
             CC_SHA384_len _ _ _ _ _ _ _ Hs)
    by schedule_side.
  cbn [bind].
  rewrite (buf_all (Derive_Secret _ _ _ _ _ _ _ _))
    by (rewrite len_Derive_Secret by assumption; lia).
  rewrite hkdf_extract_spec, (buf_all (HKDF_Extract _ _ _ _ _)).
  2:{ unfold HKDF_Extract. destruct (Derive_Secret _ _ _ _ _ _ _ _);
        rewrite CCHmac_len; lia. }
  rewrite !(derive_secret_spec CCHmac CC_SHA256 CC_SHA384 CCHmac_len CC_SHA256_len
              CC_SHA384_len _ _ _ _ _ _ _ Hs)
    by schedule_side.
  cbn [bind].
  rewrite !(buf_all (Derive_Secret _ _ _ _ _ _ _ _))
    by (rewrite len_Derive_Secret by assumption; lia).
  rewrite !hkdf_expand_label_spec
    by schedule_side.
  cbn [bind]. reflexivity.
Qed.

(** The verify data of the Finished message, on every transcript. *)
Lemma tls13_compute_finished_spec (cs : Z) (alg : CCHmacAlgorithm)
    (hash_len key_len : Z) (client_traffic_secret transcript : list byte) :
  get_suite_params cs = (alg, hash_len, key_len) ->
  tls13_compute_finished CCHmac CC_SHA256 CC_SHA384 cs client_traffic_secret transcript
  = Ret (0, CCHmac alg
              (HKDF_Expand_Label CCHmac alg (Z.to_nat hash_len) client_traffic_secret
                 "finished" [] (Z.to_nat hash_len))
              (snd (tls13_transcript_hash CC_SHA256 CC_SHA384 cs transcript))).
Proof.
  intros Hs. unfold tls13_compute_finished, tls13_transcript_hash. rewrite Hs. cbn [snd].
  pose proof (len_sha_hash cs alg hash_len key_len transcript Hs) as Hlen.
  destruct (get_suite_params_lens CC_SHA256 CC_SHA384 _ _ _ _ Hs) as (Hh & Hk & _).
  pose proof (digest_len_pos alg) as Hd. subst hash_len.
  rewrite hkdf_expand_label_spec
    by schedule_side.
  cbn [bind]. cbv zeta.
  rewrite !buf_all by (rewrite ?len_HKDF_Expand_Label; lia).
  reflexivity.
Qed.

(** Name the secret that a step of the schedule has returned, keeping
    its length. *)
Ltac name_result :=
  match goal with
  | |- context [bind (Ret (HKDF_Expand_Label ?c ?a ?hn ?s ?l ?ctx ?L)) _] =>
      let x := fresh "secret" in
      let E := fresh "Len" in
      pose proof (len_HKDF_Expand_Label a s l ctx L) as E;
      set (x := HKDF_Expand_Label c a hn s l ctx L) in *; clearbody x; cbn [bind]
  end.

(** The handshake keys on every transcript: what they return and how
    long each buffer is. *)
Lemma tls13_derive_handshake_keys_lengths (cs : Z) (alg : CCHmacAlgorithm)
    (hash_len key_len : Z) (shared_secret transcript : list byte) :
  get_suite_params cs = (alg, hash_len, key_len) ->
  exists k,
    tls13_derive_handshake_keys CCHmac CC_SHA256 CC_SHA384 cs shared_secret transcript
    = Ret k /\
    hk_ret k = 0 /\
    len (out_hs_secret k) = hash_len /\
    len (out_client_traffic_secret k) = hash_len /\
    len (out_client_key k) = key_len /\ len (out_client_iv k) = 12 /\
    len (out_server_key k) = key_len /\ len (out_server_iv k) = 12.
Proof.
  intros Hs. unfold tls13_derive_handshake_keys. rewrite Hs. cbv zeta.
  destruct (get_suite_params_lens CC_SHA256 CC_SHA384 _ _ _ _ Hs) as (Hh & Hk & _).
  pose proof (digest_len_pos alg) as Hd.
  subst hash_len.
  repeat first
    [ rewrite (derive_secret_hash _ _ _ _ _ _ _ Hs) by schedule_side; name_result
    | rewrite hkdf_expand_label_spec by schedule_side; name_result
    | rewrite (buf_all (hkdf_extract _ _ _ _ _)) by (rewrite len_hkdf_extract; lia)
    | match goal with
      | |- context [buf ?p _] => is_var p; rewrite (buf_all p) by lia
      end ].
  eexists. split; [reflexivity|].
  cbn [hk_ret out_hs_secret out_client_traffic_secret out_client_key out_client_iv
       out_server_key out_server_iv].
  rewrite len_hkdf_extract.
  repeat split; lia.
Qed.

Lemma tls13_derive_application_keys_lengths (cs : Z) (alg : CCHmacAlgorithm)
    (hash_len key_len : Z) (hs_secret transcript : list byte) :
  get_suite_params cs = (alg, hash_len, key_len) ->
  exists k,
    tls13_derive_application_keys CCHmac CC_SHA256 CC_SHA384 cs hs_secret transcript
    = Ret k /\
    ak_ret k = 0 /\
    len (ak_client_key k) = key_len /\ len (ak_client_iv k) = 12 /\
    len (ak_server_key k) = key_len /\ len (ak_server_iv k) = 12.
Proof.
  intros Hs. unfold tls13_derive_application_keys. rewrite Hs. cbv zeta.
  destruct (get_suite_params_lens CC_SHA256 CC_SHA384 _ _ _ _ Hs) as (Hh & Hk & _).
  pose proof (digest_len_pos alg) as Hd.
  subst hash_len.
  repeat first
    [ rewrite (derive_secret_hash _ _ _ _ _ _ _ Hs) by schedule_side; name_result
    | rewrite hkdf_expand_label_spec by schedule_side; name_result
    | rewrite (buf_all (hkdf_extract _ _ _ _ _)) by (rewrite len_hkdf_extract; lia)
    | match goal with
      | |- context [buf ?p _] => is_var p; rewrite (buf_all p) by lia
      end ].
  eexists. split; [reflexivity|].
  cbn [ak_ret ak_client_key ak_client_iv ak_server_key ak_server_iv].
  repeat split; lia.
Qed.

End ScheduleMore.

Section InfoBound.

Variable CCHmac : CCHmacAlgorithm -> list byte -> list byte -> list byte.

(** Past 246 bytes of label and context a store leaves [info]. *)
Lemma hkdf_expand_label_overflow (alg : CCHmacAlgorithm) (hash_len : Z)
    (secret : list byte) (label : string) (context : list byte) (length : Z) :
  246 < len (cstr label) + len context ->
  hkdf_expand_label CCHmac alg hash_len secret label context length = OutOfBounds.
Proof.
  intros Hbig.
  pose proof (len_nonneg (cstr label)) as Hlab. pose proof (len_nonneg context) as Hctx.
  unfold hkdf_expand_label. cbv zeta.
  change (repeat x00 256) with (@nil byte ++ repeat x00 256).
  rewrite wr_seq by lens. cbn [bind].
  rewrite wr_seq by lens. cbn [bind].
  rewrite wr_seq by lens. cbn [bind].
  rewrite store_seq by lens. cbn [bind].
  destruct (Z_lt_le_dec 247 (len (cstr label))) as [Ha|Ha].
  { rewrite store_short by lens. reflexivity. }
  rewrite store_seq by lens. cbn [bind].
  rewrite !(to_int_small (len (cstr label))) by (unfold INT_MAX; lia).
  destruct (Z.eq_dec (len (cstr label)) 247) as [Hb|Hb].
  { unfold wr at 1. rewrite store_short by lens. reflexivity. }
  rewrite wr_seq by lens. cbn [bind].
  replace (0 <? len context) with true by lia.
  rewrite store_short by lens. reflexivity.
Qed.

End InfoBound.

Section CounterFacts.

Variable CCHmac : CCHmacAlgorithm -> list byte -> list byte -> list byte.
Hypothesis CCHmac_len :
  forall alg key data, len (CCHmac alg key data) = digest_len alg.

(** [hkdf_expand] up to the width of its [int]s. *)
Lemma hkdf_expand_any (alg : CCHmacAlgorithm) (prk info : list byte) (L : Z) :
  0 <= L -> L + digest_len alg <= INT_MAX ->
  hkdf_expand CCHmac alg (digest_len alg) prk info L
  = Ret (HKDF_Expand CCHmac alg (Z.to_nat (digest_len alg)) prk info (Z.to_nat L)).
Proof.
  intros HL Hmax. pose proof (digest_len_pos alg) as Hh.
  unfold hkdf_expand.
  destruct (Z.eq_dec L 0) as [->|Hne].
  - rewrite hkdf_expand_loop_exit by lia.
    unfold HKDF_Expand. reflexivity.
  - apply (hkdf_expand_loop_spec CCHmac CCHmac_len alg prk info L HL Hmax
             (Z.to_nat L) 0%nat); lia.
Qed.

Lemma hkdf_expand_block_256 (alg : CCHmacAlgorithm) (prk info : list byte) (L : Z) :
  255 * digest_len alg < L <= 256 * digest_len alg ->
  hkdf_expand CCHmac alg (digest_len alg) prk info L
  = Ret (T_concat CCHmac alg prk info 255 ++
         firstn (Z.to_nat (L - 255 * digest_len alg))
           (CCHmac alg prk (T CCHmac alg prk info 255 ++ info ++ [x00]))).
Proof.
  intros HL. pose proof (digest_len_pos alg) as Hh.
  rewrite hkdf_expand_any by (unfold INT_MAX; lia).
  unfold HKDF_Expand.
  assert (Hb : blocks (Z.to_nat (digest_len alg)) (Z.to_nat L) = 256%nat).
  { apply blocks_unique.
    - lia.
    - apply Nat2Z.inj_lt. rewrite Nat2Z.inj_mul, !Z2Nat.id by lia.
      change (Z.of_nat 255) with 255. lia.
    - apply Nat2Z.inj_le. rewrite Nat2Z.inj_mul, !Z2Nat.id by lia.
      change (Z.of_nat 256) with 256. lia. }
  rewrite Hb.
  change (T_concat CCHmac alg prk info 256)
    with (T_concat CCHmac alg prk info 255 ++
          CCHmac alg prk (T CCHmac alg prk info 255 ++ info ++ [to_u8 (Z.of_nat 256)])).
  change (to_u8 (Z.of_nat 256)) with x00.
  pose proof (len_T_concat CCHmac CCHmac_len alg prk info 255) as Hc.
  assert (Hc' : List.length (T_concat CCHmac alg prk info 255)
                = Z.to_nat (255 * digest_len alg)) by (unfold len in Hc; lia).
  rewrite firstn_app, Hc'.
  rewrite firstn_all2 by (rewrite Hc'; apply Z2Nat.inj_le; lia).
  do 3 f_equal. lia.
Qed.

End CounterFacts.

(** X19: for a transcript below [2^32] bytes,
    [tls13_derive_application_keys] returns 0 and stores the application
    keys of the schedule: the master secret is extracted from the secret
    derived with the label [derived] from the handshake secret and from
    zero input keying material; the client and server application traffic
    secrets are derived from it over the transcript; and each key and iv
    is the label expansion of its traffic secret to the key length of the
    suite and to 12 bytes. *)
Theorem tls13_derive_application_keys_composition
    (CCHmac : CCHmacAlgorithm -> list byte -> list byte -> list byte)
    (CC_SHA256 CC_SHA384 : list byte -> list byte)
    (cipher_suite : Z) (hs_secret transcript : list byte)
    (alg : CCHmacAlgorithm) (hash_len key_len : Z) :
  (forall a key data, len (CCHmac a key data) = digest_len a) ->
  (forall data, len (CC_SHA256 data) = CC_SHA256_DIGEST_LENGTH) ->
  (forall data, len (CC_SHA384 data) = CC_SHA384_DIGEST_LENGTH) ->
  get_suite_params cipher_suite = (alg, hash_len, key_len) ->
  len transcript < 4294967296 ->
  tls13_derive_application_keys CCHmac CC_SHA256 CC_SHA384
    cipher_suite hs_secret transcript
  = Ret (let hn := Z.to_nat hash_len in
         let kn := Z.to_nat key_len in
         let derived := Derive_Secret CCHmac CC_SHA256 CC_SHA384 alg hn hs_secret
                          "derived" [] in
         let master := HKDF_Extract CCHmac alg hn derived (repeat x00 hn) in
         let cATS := Derive_Secret CCHmac CC_SHA256 CC_SHA384 alg hn master
                       "c ap traffic" transcript in
         let sATS := Derive_Secret CCHmac CC_SHA256 CC_SHA384 alg hn master
                       "s ap traffic" transcript in
         mk_application_keys 0
           (HKDF_Expand_Label CCHmac alg hn cATS "key" [] kn)
           (HKDF_Expand_Label CCHmac alg hn cATS "iv" [] 12)
           (HKDF_Expand_Label CCHmac alg hn sATS "key" [] kn)
           (HKDF_Expand_Label CCHmac alg hn sATS "iv" [] 12)).
Proof.
  intros Hmac H256 H384 Hs Ht.
  apply tls13_derive_application_keys_spec; assumption.
Qed.

Lemma tls13_derive_application_keys_composition_witness :
  tls13_derive_application_keys toy_hmac toy_sha256 toy_sha384
    TLS_AES_256_GCM_SHA384 (repeat x07 48) [x01; x02; x03; x04]
  = Ret (let hn := Z.to_nat 48 in
         let kn := Z.to_nat 32 in
         let derived := Derive_Secret toy_hmac toy_sha256 toy_sha384 kCCHmacAlgSHA384
                          hn (repeat x07 48) "derived" [] in
         let master := HKDF_Extract toy_hmac kCCHmacAlgSHA384 hn derived
                         (repeat x00 hn) in
         let cATS := Derive_Secret toy_hmac toy_sha256 toy_sha384 kCCHmacAlgSHA384
                       hn master "c ap traffic" [x01; x02; x03; x04] in
         let sATS := Derive_Secret toy_hmac toy_sha256 toy_sha384 kCCHmacAlgSHA384
                       hn master "s ap traffic" [x01; x02; x03; x04] in
         mk_application_keys 0
           (HKDF_Expand_Label toy_hmac kCCHmacAlgSHA384 hn cATS "key" [] kn)
           (HKDF_Expand_Label toy_hmac kCCHmacAlgSHA384 hn cATS "iv" [] 12)
           (HKDF_Expand_Label toy_hmac kCCHmacAlgSHA384 hn sATS "key" [] kn)
           (HKDF_Expand_Label toy_hmac kCCHmacAlgSHA384 hn sATS "iv" [] 12)).
Proof.
  apply (tls13_derive_application_keys_composition toy_hmac toy_sha256 toy_sha384
           TLS_AES_256_GCM_SHA384 (repeat x07 48) [x01; x02; x03; x04]
           kCCHmacAlgSHA384 48 32).
  - exact toy_hmac_len.
  - exact toy_sha256_len.
  - exact toy_sha384_len.
  - reflexivity.
  - reflexivity.
Defined.

(** X20: [tls13_compute_finished] returns 0 and stores the MAC, keyed
    by the label expansion of the traffic secret with the label
    [finished] to the hash length, of what [tls13_transcript_hash] stores
    for the same transcript; and below [2^32] bytes that is the hash of
    the suite over the whole transcript. *)
Theorem tls13_compute_finished_verify_data
    (CCHmac : CCHmacAlgorithm -> list byte -> list byte -> list byte)
    (CC_SHA256 CC_SHA384 : list byte -> list byte)
    (cipher_suite : Z) (client_traffic_secret transcript : list byte)
    (alg : CCHmacAlgorithm) (hash_len key_len : Z) :
  (forall a key data, len (CCHmac a key data) = digest_len a) ->
  (forall data, len (CC_SHA256 data) = CC_SHA256_DIGEST_LENGTH) ->
  (forall data, len (CC_SHA384 data) = CC_SHA384_DIGEST_LENGTH) ->
  get_suite_params cipher_suite = (alg, hash_len, key_len) ->
  tls13_compute_finished CCHmac CC_SHA256 CC_SHA384
    cipher_suite client_traffic_secret transcript
  = Ret (0, CCHmac alg
              (HKDF_Expand_Label CCHmac alg (Z.to_nat hash_len) client_traffic_secret
                 "finished" [] (Z.to_nat hash_len))
              (snd (tls13_transcript_hash CC_SHA256 CC_SHA384 cipher_suite transcript)))
  /\
  (len transcript < 4294967296 ->
   tls13_transcript_hash CC_SHA256 CC_SHA384 cipher_suite transcript
   = (0, Hash CC_SHA256 CC_SHA384 alg transcript)).
Proof.
  intros Hmac H256 H384 Hs. split.
  - eapply tls13_compute_finished_spec; eassumption.
  - intros Ht. unfold tls13_transcript_hash.
    rewrite (sha_hash_spec CC_SHA256 CC_SHA384 _ _ _ _ _ Hs Ht). reflexivity.
Qed.

Lemma tls13_compute_finished_verify_data_witness :
  tls13_compute_finished toy_hmac toy_sha256 toy_sha384
    TLS_AES_128_GCM_SHA256 (repeat x07 32) [x01; x02; x03]
  = Ret (0, toy_hmac kCCHmacAlgSHA256
              (HKDF_Expand_Label toy_hmac kCCHmacAlgSHA256 (Z.to_nat 32) (repeat x07 32)
                 "finished" [] (Z.to_nat 32))
              (snd (tls13_transcript_hash toy_sha256 toy_sha384
                      TLS_AES_128_GCM_SHA256 [x01; x02; x03])))
  /\
  (len [x01; x02; x03] < 4294967296 ->
   tls13_transcript_hash toy_sha256 toy_sha384 TLS_AES_128_GCM_SHA256 [x01; x02; x03]
   = (0, Hash toy_sha256 toy_sha384 kCCHmacAlgSHA256 [x01; x02; x03])).
Proof.
  apply (tls13_compute_finished_verify_data toy_hmac toy_sha256 toy_sha384
           TLS_AES_128_GCM_SHA256 (repeat x07 32) [x01; x02; x03]
           kCCHmacAlgSHA256 32 16).
  - exact toy_hmac_len.
  - exact toy_sha256_len.
  - exact toy_sha384_len.
  - reflexivity.
Defined.

(** X21: on every cipher suite, secret and transcript, the two key
    derivations return 0 and fill their buffers: the handshake secret
    and the client traffic secret have the hash length of the suite, each
    key has its key length and each iv has 12 bytes. *)
Theorem key_derivation_output_lengths
    (CCHmac : CCHmacAlgorithm -> list byte -> list byte -> list byte)
    (CC_SHA256 CC_SHA384 : list byte -> list byte)
    (cipher_suite : Z) (secret transcript : list byte)
    (alg : CCHmacAlgorithm) (hash_len key_len : Z) :
  (forall a key data, len (CCHmac a key data) = digest_len a) ->
  (forall data, len (CC_SHA256 data) = CC_SHA256_DIGEST_LENGTH) ->
  (forall data, len (CC_SHA384 data) = CC_SHA384_DIGEST_LENGTH) ->
  get_suite_params cipher_suite = (alg, hash_len, key_len) ->
  (exists k,
     tls13_derive_handshake_keys CCHmac CC_SHA256 CC_SHA384 cipher_suite secret transcript
     = Ret k /\
     hk_ret k = 0 /\
     len (out_hs_secret k) = hash_len /\
     len (out_client_traffic_secret k) = hash_len /\
     len (out_client_key k) = key_len /\ len (out_client_iv k) = 12 /\
     len (out_server_key k) = key_len /\ len (out_server_iv k) = 12) /\
  (exists k,
     tls13_derive_application_keys CCHmac CC_SHA256 CC_SHA384 cipher_suite secret transcript
     = Ret k /\
     ak_ret k = 0 /\
     len (ak_client_key k) = key_len /\ len (ak_client_iv k) = 12 /\
     len (ak_server_key k) = key_len /\ len (ak_server_iv k) = 12).
Proof.
  intros Hmac H256 H384 Hs. split.
  - eapply (tls13_derive_handshake_keys_lengths CCHmac CC_SHA256 CC_SHA384); eassumption.
  - eapply (tls13_derive_application_keys_lengths CCHmac CC_SHA256 CC_SHA384); eassumption.
Qed.

Lemma key_derivation_output_lengths_witness :
  (exists k,
     tls13_derive_handshake_keys toy_hmac toy_sha256 toy_sha384 0x1303 [x0a; x0b] [x01]
     = Ret k /\
     hk_ret k = 0 /\
     len (out_hs_secret k) = 32 /\
     len (out_client_traffic_secret k) = 32 /\
     len (out_client_key k) = 16 /\ len (out_client_iv k) = 12 /\
     len (out_server_key k) = 16 /\ len (out_server_iv k) = 12) /\
  (exists k,
     tls13_derive_application_keys toy_hmac toy_sha256 toy_sha384 0x1303 [x0a; x0b] [x01]
     = Ret k /\
     ak_ret k = 0 /\
     len (ak_client_key k) = 16 /\ len (ak_client_iv k) = 12 /\
     len (ak_server_key k) = 16 /\ len (ak_server_iv k) = 12).
Proof.
  apply (key_derivation_output_lengths toy_hmac toy_sha256 toy_sha384
           0x1303 [x0a; x0b] [x01] kCCHmacAlgSHA256 32 16).
  - exact toy_hmac_len.
  - exact toy_sha256_len.
  - exact toy_sha384_len.
  - reflexivity.
Defined.

(** X22: [hkdf_expand_label] builds its info in an array of 256 bytes
    without a check: with a label and a context of at most 246 bytes
    together it returns the label expansion, and with more a store leaves
    the array. *)
Theorem hkdf_expand_label_info_bound
    (CCHmac : CCHmacAlgorithm -> list byte -> list byte -> list byte)
    (alg : CCHmacAlgorithm) (secret : list byte) (label : string)
    (context : list byte) (L : Z) :
  (forall a key data, len (CCHmac a key data) = digest_len a) ->
  0 <= L <= 255 * digest_len alg ->
  (len (cstr label) + len context <= 246 ->
   hkdf_expand_label CCHmac alg (digest_len alg) secret label context L
   = Ret (HKDF_Expand_Label CCHmac alg (Z.to_nat (digest_len alg)) secret label
            context (Z.to_nat L))) /\
  (246 < len (cstr label) + len context ->
   hkdf_expand_label CCHmac alg (digest_len alg) secret label context L
   = OutOfBounds).
Proof.
  intros Hmac HL. split; intros H.
  - apply hkdf_expand_label_spec; [exact Hmac | exact HL | lia].
  - apply hkdf_expand_label_overflow. exact H.
Qed.

Lemma hkdf_expand_label_info_bound_witness :
  (len (cstr "key") + len (repeat x00 244) <= 246 ->
   hkdf_expand_label toy_hmac kCCHmacAlgSHA256 (digest_len kCCHmacAlgSHA256)
     [x01] "key" (repeat x00 244) 16
   = Ret (HKDF_Expand_Label toy_hmac kCCHmacAlgSHA256
            (Z.to_nat (digest_len kCCHmacAlgSHA256)) [x01] "key"
            (repeat x00 244) (Z.to_nat 16))) /\
  (246 < len (cstr "key") + len (repeat x00 244) ->
   hkdf_expand_label toy_hmac kCCHmacAlgSHA256 (digest_len kCCHmacAlgSHA256)
     [x01] "key" (repeat x00 244) 16
   = OutOfBounds).
Proof.
  apply (hkdf_expand_label_info_bound toy_hmac kCCHmacAlgSHA256 [x01] "key"
           (repeat x00 244) 16).
  - exact toy_hmac_len.
  - split; vm_compute; discriminate.
Defined.

(** X23: [hkdf_expand] does not stop at 255 blocks.  Asked for more than
    255 and at most 256 blocks, it returns the 255 blocks of the
    expansion and then the front of a block computed like the others, with
    the counter byte wrapped to 0. *)
Theorem hkdf_expand_counter_wraps
    (CCHmac : CCHmacAlgorithm -> list byte -> list byte -> list byte)
    (alg : CCHmacAlgorithm) (prk info : list byte) (L : Z) :
  (forall a key data, len (CCHmac a key data) = digest_len a) ->
  255 * digest_len alg < L <= 256 * digest_len alg ->
  hkdf_expand CCHmac alg (digest_len alg) prk info L
  = Ret (T_concat CCHmac alg prk info 255 ++
         firstn (Z.to_nat (L - 255 * digest_len alg))
           (CCHmac alg prk (T CCHmac alg prk info 255 ++ info ++ [x00]))).
Proof.
  intros Hmac HL. apply hkdf_expand_block_256; assumption.
Qed.

Lemma hkdf_expand_counter_wraps_witness :
  hkdf_expand toy_hmac kCCHmacAlgSHA256 (digest_len kCCHmacAlgSHA256) [x01] [x02] 8165
  = Ret (T_concat toy_hmac kCCHmacAlgSHA256 [x01] [x02] 255 ++
         firstn (Z.to_nat (8165 - 255 * digest_len kCCHmacAlgSHA256))
           (toy_hmac kCCHmacAlgSHA256 [x01]
              (T toy_hmac kCCHmacAlgSHA256 [x01] [x02] 255 ++ [x02] ++ [x00]))).
Proof.
  apply (hkdf_expand_counter_wraps toy_hmac kCCHmacAlgSHA256 [x01] [x02] 8165).
  - exact toy_hmac_len.
  - split; vm_compute; [reflexivity | discriminate].
Defined.
